(** * MaraDocs TypeScript SDK: job protocol, transfers, unwrappers and flows

    A shallow embedding of the client library's core:
    - [QuadrilateralUtils.fromUnsorted] (models/img.ts),
    - the validation unwrappers [okHtml], [okEmail] (models/html.ts,
      models/email.ts) and their image and PDF counterparts,
    - [FetchWrapper.request] and [FetchWrapper.pollResult]
      (shared/fetchWrapper.ts),
    - [DataEp.upload], [DataEp.uploadWithXHR], [DataEp.downloadBinary]
      (MaraDocsClient/dataEp.ts),
    - the [Flow] pipelines (MaraDocsClient/flow.ts).

    A finite JavaScript number is the rational ([Q]) it stands for.
    Coordinates are only compared and subtracted; the percentages of the
    transfer manager are computed in double precision, each operation
    rounded as IEEE 754 prescribes ([Number.binary64]); the places where a
    division produces [NaN] or [Infinity] are written out.  A promise that
    rejects and a [throw] are both the [Throw] outcome. *)

From Stdlib Require Import List ZArith QArith String Ascii Bool.
From Stdlib Require Import Qround Qabs Qpower.
From Stdlib Require Import Permutation Sorted Lia Lqa DecimalString.
Import ListNotations.

Set Warnings "-register-all".

Open Scope Z_scope.

(* ================================================================== *)
(** * Part I: the program *)
(* ================================================================== *)

(** ** Errors and outcomes (models/errors.ts) *)

Record ApiError : Type := {
  code : Z;
  name : string;
  message : string
}.

Record HttpErrorResponse : Type := {
  status_code : Z;
  api_error : ApiError
}.

(** Everything the code can throw. [Error] is the plain JavaScript
    [new Error(message)]; [ZodError] is what [schema.parse] throws,
    [SyntaxError] what [res.json()] rejects with, [TypeError] what [fetch]
    rejects with on a network failure. *)
Inductive Exception : Type :=
| Error (msg : string)
| ApiErrorException (status : Z) (err : ApiError)
| ValidationErrorException (msg : string)
| ValidationVirusException (msg : string)
| ZodError
| SyntaxError
| TypeError.

Inductive Outcome (A : Type) : Type :=
| Return (a : A)
| Throw (e : Exception).

Arguments Return {A} a.
Arguments Throw {A} e.

(** [ApiErrorException.fromHttpResponse] *)
Definition fromHttpResponse (response : HttpErrorResponse) : Exception :=
  ApiErrorException (status_code response) (api_error response).

(** ** Array helpers *)

(** [Array.prototype.sort(compareFn)]: the result is ordered by the sign of
    [compareFn] and stable (ECMAScript 2019), which for a consistent
    comparator fixes the result; it is computed here by stable insertion. *)
Fixpoint sort_insert {A : Type} (compareFn : A -> A -> Q) (a : A) (l : list A)
  : list A :=
  match l with
  | [] => [a]
  | b :: l' =>
      if Qle_bool (compareFn a b) 0%Q then a :: l
      else b :: sort_insert compareFn a l'
  end.

Definition sort {A : Type} (compareFn : A -> A -> Q) (l : list A) : list A :=
  fold_right (sort_insert compareFn) [] l.

(** [Array.prototype.slice(start, end)] and [slice(start)], for
    non-negative indices *)
Definition slice {A : Type} (l : list A) (start stop : nat) : list A :=
  firstn (stop - start)%nat (skipn start l).

Definition slice_from {A : Type} (l : list A) (start : nat) : list A :=
  skipn start l.

(** The order a comparator [(a, b) => key(a) - key(b)] sorts by *)
Definition key_le {A : Type} (key : A -> Q) (a b : A) : Prop :=
  (key a <= key b)%Q.

(** ** Quadrilaterals (models/img.ts) *)

Module Img.

Local Open Scope Q_scope.

Record RelativePosition : Type := {
  x : Q;
  y : Q
}.

Record Quadrilateral : Type := {
  top_left : RelativePosition;
  top_right : RelativePosition;
  bottom_right : RelativePosition;
  bottom_left : RelativePosition
}.

(** [RelativePositionSchema]: both coordinates within [0.0, 1.0] *)
Definition RelativePositionSchema (p : RelativePosition) : Prop :=
  (0 <= x p /\ x p <= 1) /\ (0 <= y p /\ y p <= 1).

(** The [refine] predicate of [QuadrilateralSchema] *)
Definition QuadrilateralSchema_refine (data : Quadrilateral) : Prop :=
  x (top_left data) <= x (top_right data) /\
  x (bottom_left data) <= x (bottom_right data) /\
  y (top_left data) <= y (bottom_left data) /\
  y (top_right data) <= y (bottom_right data).

(** [QuadrilateralUtils.fromUnsorted].  The last branch of the [match] is
    never taken: both halves of a four-element array have two elements
    (lemma [fromUnsorted_returns]). *)
Definition fromUnsorted (points : list RelativePosition)
  : Outcome Quadrilateral :=
  if negb (Nat.eqb (List.length points) 4) then
    Throw (Error "Quadrilateral must have 4 points")
  else
    let sortedByY := sort (fun a b => y a - y b) points in
    let top := slice sortedByY 0 2 in
    let bottom := slice_from sortedByY 2 in
    let sortedTop := sort (fun a b => x a - x b) top in
    let sortedBottom := sort (fun a b => x a - x b) bottom in
    match nth_error sortedTop 0, nth_error sortedTop 1,
          nth_error sortedBottom 0, nth_error sortedBottom 1 with
    | Some topLeft, Some topRight, Some bottomLeft, Some bottomRight =>
        Return {| top_left := topLeft;
                  top_right := topRight;
                  bottom_right := bottomRight;
                  bottom_left := bottomLeft |}
    | _, _, _, _ => Throw TypeError
    end.

(** The corner fields of a quadrilateral, in declaration order *)
Definition corners (q : Quadrilateral) : list RelativePosition :=
  [top_left q; top_right q; bottom_right q; bottom_left q].

End Img.

(** ** Validation results and their unwrappers
       (models/html.ts, models/email.ts, models/img.ts, models/pdf.ts) *)

Module Validation.

(** Handles are opaque server-issued strings. *)
Definition Handle : Type := string.

(** The four content kinds; each has its own three [class_name] literals,
    for instance ["HtmlValidateResponseOk"]. *)
Inductive Kind : Type := Img | Pdf | Html | Email.

Definition kind_prefix (k : Kind) : string :=
  match k with
  | Img => "Img"
  | Pdf => "Pdf"
  | Html => "Html"
  | Email => "Email"
  end.

Definition tag_ok (k : Kind) : string := kind_prefix k ++ "ValidateResponseOk".
Definition tag_error (k : Kind) : string :=
  kind_prefix k ++ "ValidateResponseError".
Definition tag_virus (k : Kind) : string :=
  kind_prefix k ++ "ValidateResponseVirus".

Definition recognized (k : Kind) (tag : string) : bool :=
  String.eqb tag (tag_ok k) || String.eqb tag (tag_error k)
  || String.eqb tag (tag_virus k).

(** The inner [response] object.  The three schema members of the
    discriminated union, and an object with any other [class_name], which
    the static type excludes but the functions below still handle. *)
Inductive ValidateResult (k : Kind) : Type :=
| ValidateResponseOk (handle : Handle)
| ValidateResponseError (error : string)
| ValidateResponseVirus (virus : string)
| ValidateResponseOther (tag : string) (fresh : recognized k tag = false).

Arguments ValidateResponseOk {k} handle.
Arguments ValidateResponseError {k} error.
Arguments ValidateResponseVirus {k} virus.
Arguments ValidateResponseOther {k} tag fresh.

Definition class_name {k : Kind} (r : ValidateResult k) : string :=
  match r with
  | ValidateResponseOk _ => tag_ok k
  | ValidateResponseError _ => tag_error k
  | ValidateResponseVirus _ => tag_virus k
  | ValidateResponseOther tag _ => tag
  end.

(** The outer object, [{class_name: "HtmlValidateResponse", response}] *)
Record ValidateResponse (k : Kind) : Type := {
  response : ValidateResult k
}.

Arguments response {k} _.

Definition HtmlValidateResponse : Type := ValidateResponse Html.
Definition EmailValidateResponse : Type := ValidateResponse Email.
Definition ImgValidateResponse : Type := ValidateResponse Img.
Definition PdfValidateResponse : Type := ValidateResponse Pdf.

(** [okHtml] (models/html.ts); narrowing on [class_name] is the [match]. *)
Definition okHtml (response0 : HtmlValidateResponse) : Outcome Handle :=
  match response response0 with
  | ValidateResponseOk html_handle => Return html_handle
  | ValidateResponseError error => Throw (ValidationErrorException error)
  | ValidateResponseVirus virus => Throw (ValidationVirusException virus)
  | ValidateResponseOther _ _ =>
      Throw (ValidationErrorException "Unknown validation response type")
  end.

(** [okEmail] (models/email.ts) *)
Definition okEmail (response0 : EmailValidateResponse) : Outcome Handle :=
  match response response0 with
  | ValidateResponseOk email_handle => Return email_handle
  | ValidateResponseError error => Throw (ValidationErrorException error)
  | ValidateResponseVirus virus => Throw (ValidationVirusException virus)
  | ValidateResponseOther _ _ =>
      Throw (ValidationErrorException "Unknown validation response type")
  end.

(** Modelled from the spec: the bodies of [okImg] and [okPdf], which
    flow.ts imports from models/img and models/pdf, are not among the
    sources.  This is the Result Unwrapper of the specification, section
    4.2: [Ok] returns the enclosed handle, [Error(message)] fails with
    [ValidationError(message)], [VirusDetected(message)] fails with
    [ThreatDetectedError(message)], any unrecognized tag fails with
    [ValidationError("unknown validation response type")]. *)
Definition unwrap {k : Kind} (result : ValidateResponse k) : Outcome Handle :=
  match response result with
  | ValidateResponseOk handle => Return handle
  | ValidateResponseError msg => Throw (ValidationErrorException msg)
  | ValidateResponseVirus msg => Throw (ValidationVirusException msg)
  | ValidateResponseOther _ _ =>
      Throw (ValidationErrorException "unknown validation response type")
  end.

(** Modelled from the spec: [okImg], the unwrapper at the image kind. *)
Definition okImg (response0 : ImgValidateResponse) : Outcome Handle :=
  unwrap response0.

(** Modelled from the spec: [okPdf], the unwrapper at the PDF kind. *)
Definition okPdf (response0 : PdfValidateResponse) : Outcome Handle :=
  unwrap response0.

(** What section 4.2 asks of an unwrapper [ok], with [unknown] the message
    thrown for an unrecognized tag. *)
Definition unwrapper_contract {k : Kind}
    (ok : ValidateResponse k -> Outcome Handle) (unknown : string) : Prop :=
  (forall handle,
      ok {| response := ValidateResponseOk handle |} = Return handle) /\
  (forall error,
      ok {| response := ValidateResponseError error |}
      = Throw (ValidationErrorException error)) /\
  (forall virus,
      ok {| response := ValidateResponseVirus virus |}
      = Throw (ValidationVirusException virus)) /\
  (forall tag fresh,
      ok {| response := ValidateResponseOther tag fresh |}
      = Throw (ValidationErrorException unknown)) /\
  (forall r handle,
      ok r = Return handle -> response r = ValidateResponseOk handle).

End Validation.

(** ** The fetch wrapper (shared/fetchWrapper.ts) *)

Module Fetch.

(** JSON values as [res.json()] produces them; an object is the list of its
    own properties, each key once. *)
Inductive Json : Type :=
| JNull
| JBool (b : bool)
| JNumber (q : Q)
| JString (s : string)
| JArray (items : list Json)
| JObject (fields : list (string * Json)).

Fixpoint get_field (key : string) (fields : list (string * Json))
  : option Json :=
  match fields with
  | [] => None
  | (k, v) :: rest => if String.eqb k key then Some v else get_field key rest
  end.

(** [z.number().int()]: a number without fractional part, within the safe
    integer range *)
Definition z_int (v : Json) : option Z :=
  match v with
  | JNumber q =>
      let r := Qred q in
      if Pos.eqb (Qden r) 1
         && Z.leb (- (2 ^ 53 - 1)) (Qnum r) && Z.leb (Qnum r) (2 ^ 53 - 1)
      then Some (Qnum r) else None
  | _ => None
  end.

(** [z.string()] *)
Definition z_string (v : Json) : option string :=
  match v with
  | JString s => Some s
  | _ => None
  end.

Definition obind {A B : Type} (o : option A) (f : A -> option B) : option B :=
  match o with
  | Some a => f a
  | None => None
  end.

(** [ApiErrorSchema.parse] (models/errors.ts) *)
Definition ApiErrorSchema (v : Json) : option ApiError :=
  match v with
  | JObject fields =>
      obind (obind (get_field "code" fields) z_int) (fun c =>
      obind (obind (get_field "name" fields) z_string) (fun n =>
      obind (obind (get_field "message" fields) z_string) (fun m =>
      Some {| code := c; name := n; message := m |})))
  | _ => None
  end.

(** [HttpErrorResponseSchema.parse] (models/errors.ts) *)
Definition HttpErrorResponseSchema (v : Json) : option HttpErrorResponse :=
  match v with
  | JObject fields =>
      obind (obind (get_field "status_code" fields) z_int) (fun sc =>
      obind (obind (get_field "api_error" fields) ApiErrorSchema) (fun e =>
      Some {| status_code := sc; api_error := e |}))
  | _ => None
  end.

Record TaskCreatedResponse : Type := {
  job_id : string
}.

(** Modelled from the spec: [TaskCreatedResponseSchema] of models/misc.ts,
    which is not among the sources.  Section 6: a submit answers
    [{job_id: string}]. *)
Definition TaskCreatedResponseSchema (v : Json) : option TaskCreatedResponse :=
  match v with
  | JObject fields =>
      obind (obind (get_field "job_id" fields) z_string) (fun j =>
      Some {| job_id := j |})
  | _ => None
  end.

(** What the code reads of a [Response]: [res.json()] is [None] when the
    body is not JSON (the promise rejects with a [SyntaxError]). *)
Record Response : Type := {
  status : Z;
  statusText : string;
  json : option Json
}.

(** What [await fetch(...)] gives: a response, or a rejection on a network
    failure *)
Inductive FetchResult : Type :=
| Responded (res : Response)
| NetworkFailure.

Definition MAX_RETRIES : nat := 120.

(** [`${n}`] for an integer *)
Definition number_to_string (n : Z) : string :=
  NilZero.string_of_int (Z.to_int n).

Definition is_ApiErrorException (err : Exception) : bool :=
  match err with
  | ApiErrorException _ _ => true
  | _ => false
  end.

Definition try_catch {A : Type} (body : Outcome A)
    (handler : Exception -> Outcome A) : Outcome A :=
  match body with
  | Return a => Return a
  | Throw err => handler err
  end.

Definition res_json (res : Response) : Outcome Json :=
  match json res with
  | Some data => Return data
  | None => Throw SyntaxError
  end.

(** [schema.parse(data)] *)
Definition parse {A : Type} (schema : Json -> option A) (data : Json)
  : Outcome A :=
  match schema data with
  | Some a => Return a
  | None => Throw ZodError
  end.

(** The common tail of [request] and [pollResult]: the [try]/[catch] that
    turns an error envelope into an [ApiErrorException] and anything else
    into a plain [Error] with the status line. *)
Definition throw_http_error {Out : Type} (res : Response) : Outcome Out :=
  try_catch
    (match res_json res with
     | Throw e => Throw e
     | Return data =>
         match parse HttpErrorResponseSchema data with
         | Throw e => Throw e
         | Return error => Throw (fromHttpResponse error)
         end
     end)
    (fun err =>
       if is_ApiErrorException err then Throw err
       else Throw (Error ("HTTP error! status: "
                          ++ number_to_string (status res) ++ " "
                          ++ statusText res))).

(** [FetchWrapper.request], from the result of its single [fetch] on.
    (The [console.error] calls on a schema failure are not modelled.) *)
Definition request {Out : Type} (fetched : FetchResult)
    (schema : Json -> option Out) : Outcome Out :=
  match fetched with
  | NetworkFailure => Throw TypeError
  | Responded res =>
      if Z.eqb (status res) 200 || Z.eqb (status res) 201 then
        match res_json res with
        | Throw e => Throw e
        | Return data => parse schema data
        end
      else throw_http_error res
  end.

(** [FetchWrapper.post]: [request("POST", path, request, schema)] *)
Definition post {Out : Type} (fetched : FetchResult)
    (schema : Json -> option Out) : Outcome Out :=
  request fetched schema.

(** One turn of the [while (true)] loop of [pollResult]: either the loop
    goes round again with a new [retry_count], or the call settles. *)
Inductive Turn (Out : Type) : Type :=
| Continue (retry_count : nat)
| Settle (result : Outcome Out).

Arguments Continue {Out} retry_count.
Arguments Settle {Out} result.

Definition pollResult_turn {Out : Type} (schema : Json -> option Out)
    (retry_count : nat) (fetched : FetchResult) : Turn Out :=
  match fetched with
  | NetworkFailure => Settle (Throw TypeError)
  | Responded res =>
      if Z.eqb (status res) 200 then
        Settle (match res_json res with
                | Throw e => Throw e
                | Return data => parse schema data
                end)
      else if Z.eqb (status res) 202 then
        let retry_count := S retry_count in
        if Nat.ltb MAX_RETRIES retry_count then
          Settle (Throw (Error
                    "Failed processing the request in a reasonable time"))
        else Continue retry_count
      else Settle (throw_http_error res)
  end.

(** The loop.  [fetch n] is what the [n]-th request of this call resolves
    to; the result pairs the outcome with the number of requests issued.
    [None] only when [fuel] turns were not enough. *)
Fixpoint pollResult_loop {Out : Type} (schema : Json -> option Out)
    (fetch : nat -> FetchResult) (fuel : nat) (polls retry_count : nat)
  : option (Outcome Out * nat) :=
  match fuel with
  | O => None
  | S fuel' =>
      match pollResult_turn schema retry_count (fetch polls) with
      | Settle result => Some (result, S polls)
      | Continue retry_count' =>
          pollResult_loop schema fetch fuel' (S polls) retry_count'
      end
  end.

(** [FetchWrapper.pollResult]: [let retry_count = 0; while (true) ...] *)
Definition pollResult {Out : Type} (schema : Json -> option Out)
    (fetch : nat -> FetchResult) (fuel : nat) : option (Outcome Out * nat) :=
  pollResult_loop schema fetch fuel 0 0.

(** The error the specification calls [PollTimeoutError] *)
Definition PollTimeoutError : Exception :=
  Error "Failed processing the request in a reasonable time".

(** The error the specification calls [TransportError], for a response *)
Definition TransportError (res : Response) : Exception :=
  Error ("HTTP error! status: " ++ number_to_string (status res) ++ " "
         ++ statusText res).

(** The server answers 202 to request [n]. *)
Definition responds_202 (fetch : nat -> FetchResult) (n : nat) : Prop :=
  exists res, fetch n = Responded res /\ status res = 202.

End Fetch.

(** ** JavaScript numbers: IEEE 754 double precision *)

Module Number.

Local Open Scope Q_scope.

(** The nearest integer, a tie going to the even one *)
Definition round_half_even (q : Q) : Z :=
  let f := Qfloor q in
  match Qcompare (q - inject_Z f) (1 # 2) with
  | Lt => f
  | Gt => (f + 1)%Z
  | Eq => if Z.even f then f else (f + 1)%Z
  end.

(** For a positive [q], the exponent [e] with [2^e <= q < 2^(e+1)] *)
Definition floor_log2 (q : Q) : Z :=
  let e := (Z.log2 (Qnum q) - Z.log2 (Zpos (Qden q)))%Z in
  if Qle_bool (2 ^ e) q then e else (e - 1)%Z.

(** The exponent of the last of the 53 significant bits of the double
    nearest to [q]; it is never below that of the smallest subnormal,
    [2^-1074]. *)
Definition ulp_exponent (q : Q) : Z :=
  Z.max (floor_log2 (Qabs q) - 52) (-1074).

(** The multiple of [2^exponent] nearest to [q], ties to even *)
Definition to_multiple (exponent : Z) (q : Q) : Q :=
  inject_Z (round_half_even (q / 2 ^ exponent)) * 2 ^ exponent.

(** The double nearest to [q] (round to nearest, ties to even), as a
    reduced fraction.  This is the result of every arithmetic operation on
    numbers whose exact result is [q], and the conversion of an integer to
    a number.  Magnitudes beyond the largest double (about 1.8e308), where
    JavaScript has [Infinity], are outside this model. *)
Definition binary64 (q : Q) : Q :=
  let q := Qred q in
  Qred (to_multiple (ulp_exponent q) q).

Arguments binary64 : simpl never.

(** [Number.MAX_SAFE_INTEGER]: up to it every integer is a double, and
    sums of integers are exact. *)
Definition MAX_SAFE_INTEGER : Z := 2 ^ 53 - 1.

(** [Number.isSafeInteger] *)
Definition isSafeInteger (n : Z) : Prop := (Z.abs n <= MAX_SAFE_INTEGER)%Z.

End Number.

(** ** The transfer manager (MaraDocsClient/dataEp.ts) *)

Module Data.

Import Fetch.

Definition byte : Type := Byte.byte.

(** A computation together with the values it passed to [on_progress], in
    call order *)
Definition Progress (A : Type) : Type := (A * list Q)%type.

(** [DataUploadResponse] (models/data.ts) *)
Record DataUploadResponse : Type := {
  post_url : string;
  post_header : list (string * string);
  unvalidated_file_handle : string
}.

(** [(loaded / total) * 100] for a non-zero [total]: both operands are
    numbers, and the division and the multiplication each round their
    result to the nearest double. *)
Definition percent_of (loaded total : Z) : Q :=
  Number.binary64
    (Number.binary64
       (Number.binary64 (inject_Z loaded) / Number.binary64 (inject_Z total))
     * 100)%Q.

Arguments percent_of : simpl never.

(** *** Download *)

(** What [reader.read()] resolves to before [done]: a chunk, or a
    rejection when the connection breaks.  The end of the list is
    [{done: true}]. *)
Inductive ReadResult : Type :=
| Chunk (value : list byte)
| ReadFailure.

(** What [downloadBinary] reads of the storage response *)
Record DownloadResponse : Type := {
  status : Z;
  content_length : option string;     (* headers.get("Content-Length") *)
  body : option (list ReadResult)     (* response.body, null when absent *)
}.

(** [response.ok] *)
Definition ok (response : DownloadResponse) : bool :=
  Z.leb 200 (status response) && Z.leb (status response) 299.

Inductive DownloadFetch : Type :=
| Downloaded (response : DownloadResponse)
| DownloadNetworkFailure.

(** [parseInt(s, 10)]: leading white space, an optional sign, then the
    longest run of decimal digits; [None] is [NaN]. *)
Definition is_white_space (c : ascii) : bool :=
  let n := nat_of_ascii c in
  Nat.eqb n 32 || (Nat.leb 9 n && Nat.leb n 13).

Definition digit_value (c : ascii) : option Z :=
  let n := nat_of_ascii c in
  if Nat.leb 48 n && Nat.leb n 57 then Some (Z.of_nat (n - 48)) else None.

Fixpoint skip_white_space (s : string) : string :=
  match s with
  | String c s' => if is_white_space c then skip_white_space s' else s
  | EmptyString => s
  end.

Fixpoint parse_digits (s : string) (acc : option Z) : option Z :=
  match s with
  | String c s' =>
      match digit_value c with
      | Some d =>
          parse_digits s' (Some (10 * match acc with Some n => n | None => 0 end
                                 + d))
      | None => acc
      end
  | EmptyString => acc
  end.

Definition parseInt (s : string) : option Z :=
  match skip_white_space s with
  | String "-"%char s' => option_map Z.opp (parse_digits s' None)
  | String "+"%char s' => parse_digits s' None
  | s' => parse_digits s' None
  end.

(** [const total = contentLength ? parseInt(contentLength, 10) : null],
    followed by the test [!total]: [Some total] only for a number that is
    neither [null], [NaN] nor zero. *)
Definition usable_total (contentLength : option string) : option Z :=
  match contentLength with
  | None => None
  | Some ""%string => None
  | Some s =>
      match parseInt s with
      | Some 0 => None
      | Some total => Some total
      | None => None
      end
  end.

(** [response.arrayBuffer()]: the whole body *)
Fixpoint read_all (reads : list ReadResult) : Outcome (list byte) :=
  match reads with
  | [] => Return []
  | Chunk value :: rest =>
      match read_all rest with
      | Return bytes => Return (value ++ bytes)
      | Throw e => Throw e
      end
  | ReadFailure :: _ => Throw TypeError
  end.

Definition arrayBuffer (response : DownloadResponse) : Outcome (list byte) :=
  match body response with
  | None => Return []
  | Some reads => read_all reads
  end.

(** The [while (true)] loop over [reader.read()]: [chunks.push(value)],
    [loaded += value.length], [on_progress((loaded / total) * 100)] *)
Fixpoint read_loop (reads : list ReadResult) (total : Z)
    (chunks : list (list byte)) (loaded : nat)
  : Progress (Outcome (list (list byte) * nat)) :=
  match reads with
  | [] => (Return (chunks, loaded), [])
  | ReadFailure :: _ => (Throw TypeError, [])
  | Chunk value :: rest =>
      let chunks := chunks ++ [value] in
      let loaded := (loaded + List.length value)%nat in
      let (result, calls) := read_loop rest total chunks loaded in
      (result, percent_of (Z.of_nat loaded) total :: calls)
  end.

(** [new Uint8Array(length)] *)
Definition Uint8Array_new (length : nat) : list byte := repeat Byte.x00 length.

(** [target.set(source, offset)]; a [RangeError] when the source does not
    fit *)
Definition Uint8Array_set (target source : list byte) (offset : nat)
  : Outcome (list byte) :=
  if Nat.leb (offset + List.length source) (List.length target) then
    Return (firstn offset target ++ source
            ++ skipn (offset + List.length source) target)
  else Throw (Error "RangeError: offset is out of bounds").

(** [for (const chunk of chunks) { result.set(chunk, offset); offset +=
    chunk.length; }] *)
Fixpoint combine_chunks (chunks : list (list byte)) (result : list byte)
    (offset : nat) : Outcome (list byte) :=
  match chunks with
  | [] => Return result
  | chunk :: rest =>
      match Uint8Array_set result chunk offset with
      | Throw e => Throw e
      | Return result' =>
          combine_chunks rest result' (offset + List.length chunk)%nat
      end
  end.

(** [DataEp.downloadBinary], from the result of its [fetch] on *)
Definition downloadBinary (fetched : DownloadFetch)
  : Progress (Outcome (list byte)) :=
  match fetched with
  | DownloadNetworkFailure => (Throw TypeError, [])
  | Downloaded response =>
      if negb (ok response) then
        (Throw (Error ("Download failed: "
                       ++ number_to_string (status response))), [])
      else
        match usable_total (content_length response), body response with
        | Some total, Some reads =>
            match read_loop reads total [] 0 with
            | (Throw e, calls) => (Throw e, calls)
            | (Return (chunks, loaded), calls) =>
                (combine_chunks chunks (Uint8Array_new loaded) 0, calls)
            end
        | _, _ => (arrayBuffer response, [])
        end
  end.

(** *** Upload *)

(** A [ProgressEvent] of [xhr.upload] *)
Record ProgressEvent : Type := {
  lengthComputable : bool;
  loaded : N;
  total : N
}.

(** The events of one [XMLHttpRequest], in firing order *)
Inductive XhrEvent : Type :=
| OnProgress (event : ProgressEvent)
| OnLoad (status : Z) (statusText : string)
| OnError (status : Z) (statusText : string)
| OnLoadEnd.

(** [(event.loaded / event.total) * 100]; [None] stands for the [NaN] and
    [Infinity] of a zero [total], for which [percent < 100] is false. *)
Definition event_percent (event : ProgressEvent) : option Q :=
  if N.eqb (total event) 0 then None
  else Some (percent_of (Z.of_N (loaded event)) (Z.of_N (total event))).

(** [xhr.upload.onprogress] *)
Definition onprogress (event : ProgressEvent) : list Q :=
  if lengthComputable event then
    match event_percent event with
    | Some percent => if negb (Qle_bool 100 percent) then [percent] else []
    | None => []
    end
  else [].

Definition s3_upload_failed (status : Z) (statusText : string) : Exception :=
  Error ("S3 upload failed! status: " ++ number_to_string status ++ " "
         ++ statusText).

(** The promise of [uploadWithXHR]: [None] while pending; the first
    [resolve] or [reject] settles it for good. *)
Definition settle {A : Type} (promise : option (Outcome A)) (r : Outcome A)
  : option (Outcome A) :=
  match promise with
  | None => Some r
  | Some _ => promise
  end.

(** One event through the handlers installed by [uploadWithXHR] *)
Definition xhr_dispatch (response : DataUploadResponse)
    (state : Progress (option (Outcome DataUploadResponse))) (ev : XhrEvent)
  : Progress (option (Outcome DataUploadResponse)) :=
  let (promise, calls) := state in
  match ev with
  | OnProgress event => (promise, calls ++ onprogress event)
  | OnLoad status statusText =>
      if Z.leb 200 status && Z.ltb status 300 then
        (settle promise (Return response), calls)
      else (settle promise (Throw (s3_upload_failed status statusText)), calls)
  | OnError status statusText =>
      (settle promise (Throw (s3_upload_failed status statusText)), calls)
  | OnLoadEnd => (promise, calls ++ [100%Q])
  end.

(** [DataEp.uploadWithXHR], run over the events of its request *)
Definition uploadWithXHR (response : DataUploadResponse)
    (events : list XhrEvent) : Progress (option (Outcome DataUploadResponse)) :=
  fold_left (xhr_dispatch response) events (None, []).

(** [DataEp.uploadWithFetch], from the result of its [fetch] on *)
Definition uploadWithFetch (response : DataUploadResponse)
    (uploaded : FetchResult) : Outcome DataUploadResponse :=
  match uploaded with
  | NetworkFailure => Throw TypeError
  | Responded uploadResponse =>
      if Z.leb 200 (Fetch.status uploadResponse)
         && Z.leb (Fetch.status uploadResponse) 299
      then Return response
      else
        try_catch
          (match res_json uploadResponse with
           | Throw e => Throw e
           | Return errorData =>
               match parse HttpErrorResponseSchema errorData with
               | Throw e => Throw e
               | Return error => Throw (fromHttpResponse error)
               end
           end)
          (fun err =>
             if is_ApiErrorException err then Throw err
             else Throw (s3_upload_failed (Fetch.status uploadResponse)
                           (statusText uploadResponse)))
  end.

(** What an upload meets: the answer to [POST /data/upload], whether the
    environment has [XMLHttpRequest], and the storage transfer under
    either strategy. *)
Record UploadEnvironment : Type := {
  posted : Outcome DataUploadResponse;
  has_XMLHttpRequest : bool;
  xhr_events : list XhrEvent;
  storage_fetch : FetchResult
}.

(** [DataEp.upload].  [DataUploadRequestSchema] wants a positive integer
    [size].  In the fallback [on_progress(100)] runs as soon as the transfer
    is started, whatever its outcome. *)
Definition upload (file_size : Z) (env : UploadEnvironment)
  : Progress (option (Outcome DataUploadResponse)) :=
  if negb (Z.ltb 0 file_size) then (Some (Throw ZodError), [])
  else
    match posted env with
    | Throw e => (Some (Throw e), [])
    | Return response =>
        if has_XMLHttpRequest env then uploadWithXHR response (xhr_events env)
        else
          let res := uploadWithFetch response (storage_fetch env) in
          (Some res, [100%Q])
    end.

(** *** Properties of progress sequences *)

(** Non-decreasing, within [0, 100], and ending with a call at exactly 100 *)
Definition progress_complete (calls : list Q) : Prop :=
  Sorted Qle calls /\
  Forall (fun v => 0 <= v /\ v <= 100)%Q calls /\
  exists before, calls = before ++ [100%Q].

(** The progress events of a transfer as the browser fires them: byte
    counts never go back and the total does not change. *)
Definition events_ordered (events : list ProgressEvent) : Prop :=
  StronglySorted
    (fun a b => (loaded a <= loaded b)%N /\ total a = total b) events.

(** Bytes received once the first [k] chunks are in *)
Definition received_after (k : nat) (chunks : list (list byte)) : Z :=
  Z.of_nat (List.length (List.concat (firstn k chunks))).

End Data.

(** ** The flows (MaraDocsClient/flow.ts) *)

Module Flow.

Import Validation.

(** *** Request and response objects (models/img.ts, models/pdf.ts,
        models/data.ts).  Types that are the same object type in TypeScript
        share one record. *)

(** [{img_handle}]: [ImgFindDocumentsRequest],
    [ImgExtractQuadrilateralResponse] *)
Record ImgHandleObject : Type := {
  img_handle : Handle
}.

(** [{pdf_handle}]: [ImgOcrToPdfResponse], [PdfComposeResponse],
    [PdfOrientationRequest], [PdfOcrToPdfRequest], [PdfOcrToPdfResponse],
    [PdfOptimizeResponse] *)
Record PdfHandleObject : Type := {
  pdf_handle : Handle
}.

(** [Partial<ImgToPdfOptions>]: handed on to the conversion untouched *)
Definition ImgToPdfOptions : Type := Fetch.Json.

Module ImgValidateRequest.
Record t : Type := {
  unvalidated_file_handle : Handle
}.
End ImgValidateRequest.

Module ImgFindDocumentsQuadrilateral.
Record t : Type := {
  quadrilateral : Img.Quadrilateral;
  confidence : Q
}.
End ImgFindDocumentsQuadrilateral.

Record ImgFindDocumentsResponse : Type := {
  documents : list ImgFindDocumentsQuadrilateral.t
}.

Module ImgExtractQuadrilateralRequest.
Record t : Type := {
  img_handle : Handle;
  quadrilateral : Img.Quadrilateral
}.
End ImgExtractQuadrilateralRequest.

Module ImgOcrToPdfRequest.
Record t : Type := {
  img_handle : Handle;
  options : option ImgToPdfOptions
}.
End ImgOcrToPdfRequest.

Module PdfValidateRequest.
Record t : Type := {
  unvalidated_file_handle : Handle;
  password : option string
}.
End PdfValidateRequest.

Record PdfComposePdfPage : Type := {
  page_number : Z;
  rotation : option Z
}.

Module PdfComposePdf.
Record t : Type := {
  pdf_handle : Handle;
  pages : option (list PdfComposePdfPage)
}.
End PdfComposePdf.

Record PdfComposeRequest : Type := {
  pdfs : list PdfComposePdf.t
}.

Record PdfOrientationResponse : Type := {
  orientations : list (Z * Q);
  rotated_pdf_handle : Handle
}.

Module PdfOptimizeRequest.
Record t : Type := {
  pdf_handle : Handle;
  image_dpi : option Z;
  image_quality : option Z;
  image_color : option string
}.
End PdfOptimizeRequest.

(** *** Inputs and options *)

Record File : Type := {
  file_name : string;
  file_type : string;
  file_bytes : list Data.byte
}.

Record Blob : Type := {
  blob_type : string;
  blob_bytes : list Data.byte
}.

(** [FlowInput = File | Blob | ArrayBuffer | Buffer] *)
Inductive FlowInput : Type :=
| InputFile (file : File)
| InputBlob (blob : Blob)
| InputArrayBuffer (bytes : list Data.byte)
| InputBuffer (bytes : list Data.byte).

(** A caller's progress function, known by its identity only *)
Inductive ProgressCallback : Type :=
| callback (identity : nat).

Module OcrImgOptions.
Record t : Type := {
  extractDocument : option bool;
  onProgress : option ProgressCallback;
  pdfOptions : option ImgToPdfOptions
}.
End OcrImgOptions.

Module OcrPdfOptions.
Record t : Type := {
  onProgress : option ProgressCallback;
  password : option string
}.
End OcrPdfOptions.

(** [Flow.toFile] *)
Definition toFile (input : FlowInput) (filename mimeType : string) : File :=
  match input with
  | InputFile file => file
  | InputBlob blob =>
      {| file_name := filename; file_type := mimeType;
         file_bytes := blob_bytes blob |}
  | InputArrayBuffer bytes | InputBuffer bytes =>
      {| file_name := filename; file_type := mimeType; file_bytes := bytes |}
  end.

(** *** The endpoint objects a [Flow] is constructed with.  Each method is a
        job against the service: it may answer or fail, and it may change
        the state [World] of the service. *)

Definition Endpoint (World Request Response : Type) : Type :=
  Request -> World -> Outcome Response * World.

Module DataEp.
Record t (World : Type) : Type := {
  upload : File -> Endpoint World (option ProgressCallback)
                     Data.DataUploadResponse
}.
Arguments upload {World} _.
End DataEp.

Module ImgEp.
Record t (World : Type) : Type := {
  validate : Endpoint World ImgValidateRequest.t ImgValidateResponse;
  findDocuments : Endpoint World ImgHandleObject ImgFindDocumentsResponse;
  extractQuadrilateral :
    Endpoint World ImgExtractQuadrilateralRequest.t ImgHandleObject;
  ocrToPdf : Endpoint World ImgOcrToPdfRequest.t PdfHandleObject
}.
Arguments validate {World} _.
Arguments findDocuments {World} _.
Arguments extractQuadrilateral {World} _.
Arguments ocrToPdf {World} _.
End ImgEp.

Module PdfEp.
Record t (World : Type) : Type := {
  validate : Endpoint World PdfValidateRequest.t PdfValidateResponse;
  compose : Endpoint World PdfComposeRequest PdfHandleObject;
  orientation : Endpoint World PdfHandleObject PdfOrientationResponse;
  ocrToPdf : Endpoint World PdfHandleObject PdfHandleObject;
  optimize : Endpoint World PdfOptimizeRequest.t PdfHandleObject
}.
Arguments validate {World} _.
Arguments compose {World} _.
Arguments orientation {World} _.
Arguments ocrToPdf {World} _.
Arguments optimize {World} _.
End PdfEp.

(** The [Flow] object: its three private fields *)
Record t (World : Type) : Type := {
  data : DataEp.t World;
  img : ImgEp.t World;
  pdf : PdfEp.t World
}.
Arguments data {World} _.
Arguments img {World} _.
Arguments pdf {World} _.

(** *** Sequencing.  A flow runs its calls one after the other ([await]); a
        call that fails ends the flow.  The calls made are recorded in
        order. *)

Inductive Call : Type :=
| CallUpload (file : File) (on_progress : option ProgressCallback)
| CallImgValidate (req : ImgValidateRequest.t)
| CallFindDocuments (req : ImgHandleObject)
| CallExtractQuadrilateral (req : ImgExtractQuadrilateralRequest.t)
| CallImgOcrToPdf (req : ImgOcrToPdfRequest.t)
| CallPdfValidate (req : PdfValidateRequest.t)
| CallCompose (req : PdfComposeRequest)
| CallOrientation (req : PdfHandleObject)
| CallPdfOcrToPdf (req : PdfHandleObject)
| CallOptimize (req : PdfOptimizeRequest.t).

Record State (World : Type) : Type := {
  world : World;
  calls : list Call
}.
Arguments world {World} _.
Arguments calls {World} _.

Definition M (World A : Type) : Type :=
  State World -> Outcome A * State World.

Definition ret {World A : Type} (a : A) : M World A :=
  fun s => (Return a, s).

Definition bind {World A B : Type} (m : M World A) (k : A -> M World B)
  : M World B :=
  fun s =>
    match m s with
    | (Return a, s') => k a s'
    | (Throw e, s') => (Throw e, s')
    end.

(** A synchronous function that returns or throws *)
Definition lift {World A : Type} (o : Outcome A) : M World A :=
  fun s => (o, s).

(** [await endpoint(request)] *)
Definition invoke {World Request Response : Type} (c : Call)
    (endpoint : Endpoint World Request Response) (request : Request)
  : M World Response :=
  fun s =>
    let (o, w) := endpoint request (world s) in
    (o, {| world := w; calls := calls s ++ [c] |}).

Notation "x <- m ;; k" := (bind m (fun x => k))
  (at level 61, m at next level, right associativity).

(** [for (const item of items) { ... }] over a body that updates the local
    variable [acc] *)
Fixpoint for_of {World A S : Type} (items : list A)
    (body : A -> S -> M World S) (acc : S) : M World S :=
  match items with
  | [] => ret acc
  | item :: rest => acc' <- body item acc ;; for_of rest body acc'
  end.

(** [array.push(x)] *)
Definition push {A : Type} (array : list A) (x : A) : list A := array ++ [x].

Section Methods.

Context {World : Type}.
Variable this : t World.

Definition data_upload (file : File) (on_progress : option ProgressCallback)
  : M World Data.DataUploadResponse :=
  invoke (CallUpload file on_progress) (DataEp.upload (data this) file)
    on_progress.

Definition img_validate (req : ImgValidateRequest.t)
  : M World ImgValidateResponse :=
  invoke (CallImgValidate req) (ImgEp.validate (img this)) req.

Definition img_findDocuments (req : ImgHandleObject)
  : M World ImgFindDocumentsResponse :=
  invoke (CallFindDocuments req) (ImgEp.findDocuments (img this)) req.

Definition img_extractQuadrilateral (req : ImgExtractQuadrilateralRequest.t)
  : M World ImgHandleObject :=
  invoke (CallExtractQuadrilateral req) (ImgEp.extractQuadrilateral (img this))
    req.

Definition img_ocrToPdf (req : ImgOcrToPdfRequest.t)
  : M World PdfHandleObject :=
  invoke (CallImgOcrToPdf req) (ImgEp.ocrToPdf (img this)) req.

Definition pdf_validate (req : PdfValidateRequest.t)
  : M World PdfValidateResponse :=
  invoke (CallPdfValidate req) (PdfEp.validate (pdf this)) req.

Definition pdf_compose (req : PdfComposeRequest) : M World PdfHandleObject :=
  invoke (CallCompose req) (PdfEp.compose (pdf this)) req.

Definition pdf_orientation (req : PdfHandleObject)
  : M World PdfOrientationResponse :=
  invoke (CallOrientation req) (PdfEp.orientation (pdf this)) req.

Definition pdf_ocrToPdf (req : PdfHandleObject) : M World PdfHandleObject :=
  invoke (CallPdfOcrToPdf req) (PdfEp.ocrToPdf (pdf this)) req.

Definition pdf_optimize (req : PdfOptimizeRequest.t)
  : M World PdfHandleObject :=
  invoke (CallOptimize req) (PdfEp.optimize (pdf this)) req.

(** [{ pdf_handle }] as an element of [PdfComposeRequest.pdfs] *)
Definition compose_entry (pdf_handle : Handle) : PdfComposePdf.t :=
  {| PdfComposePdf.pdf_handle := pdf_handle; PdfComposePdf.pages := None |}.

(** [{ pdf_handle }] as a [PdfOptimizeRequest] *)
Definition optimize_request (pdf_handle : Handle) : PdfOptimizeRequest.t :=
  {| PdfOptimizeRequest.pdf_handle := pdf_handle;
     PdfOptimizeRequest.image_dpi := None;
     PdfOptimizeRequest.image_quality := None;
     PdfOptimizeRequest.image_color := None |}.

(** [Flow.ocrImgHandle] *)
Definition ocrImgHandle (imgHandle : Handle) (options : OcrImgOptions.t)
  : M World Handle :=
  let extractDocument :=
    match OcrImgOptions.extractDocument options with
    | Some b => b
    | None => true
    end in
  let pdfOptions := OcrImgOptions.pdfOptions options in
  let imgHandles : list Handle := [] in
  imgHandles <-
    (if extractDocument then
       docs <- img_findDocuments {| img_handle := imgHandle |} ;;
       for_of (documents docs)
         (fun doc imgHandles =>
            extracted <- img_extractQuadrilateral
              {| ImgExtractQuadrilateralRequest.img_handle := imgHandle;
                 ImgExtractQuadrilateralRequest.quadrilateral :=
                   ImgFindDocumentsQuadrilateral.quadrilateral doc |} ;;
            ret (push imgHandles (img_handle extracted)))
         imgHandles
     else ret imgHandles) ;;
  let imgHandles :=
    if Nat.eqb (List.length imgHandles) 0 then push imgHandles imgHandle
    else imgHandles in
  let pdfHandles : list Handle := [] in
  pdfHandles <-
    for_of imgHandles
      (fun imgHandle pdfHandles =>
         pdfHandle <- img_ocrToPdf
           {| ImgOcrToPdfRequest.img_handle := imgHandle;
              ImgOcrToPdfRequest.options := pdfOptions |} ;;
         ret (push pdfHandles (pdf_handle pdfHandle)))
      pdfHandles ;;
  combinedPdf <- pdf_compose {| pdfs := map compose_entry pdfHandles |} ;;
  oriented <- pdf_orientation {| pdf_handle := pdf_handle combinedPdf |} ;;
  let orientedPdf := rotated_pdf_handle oriented in
  ocrPdf <- pdf_ocrToPdf {| pdf_handle := orientedPdf |} ;;
  optimizedPdf <- pdf_optimize (optimize_request (pdf_handle ocrPdf)) ;;
  ret (pdf_handle optimizedPdf).

(** [Flow.ocrImg] *)
Definition ocrImg (input : FlowInput) (options : OcrImgOptions.t)
  : M World Handle :=
  let onProgress := OcrImgOptions.onProgress options in
  let file := toFile input "image.jpg" "image/jpeg" in
  uploaded <- data_upload file onProgress ;;
  validated <- img_validate
    {| ImgValidateRequest.unvalidated_file_handle :=
         Data.unvalidated_file_handle uploaded |} ;;
  imgHandle <- lift (okImg validated) ;;
  ocrImgHandle imgHandle options.

(** [Flow.ocrPdfHandle] *)
Definition ocrPdfHandle (pdfHandle : Handle) (_options : OcrPdfOptions.t)
  : M World Handle :=
  oriented <- pdf_orientation {| pdf_handle := pdfHandle |} ;;
  let pdfHandle := rotated_pdf_handle oriented in
  ocr <- pdf_ocrToPdf {| pdf_handle := pdfHandle |} ;;
  let pdfHandle := pdf_handle ocr in
  optimized <- pdf_optimize (optimize_request pdfHandle) ;;
  let pdfHandle := pdf_handle optimized in
  ret pdfHandle.

(** [Flow.ocrPdf] *)
Definition ocrPdf (input : FlowInput) (options : OcrPdfOptions.t)
  : M World Handle :=
  let onProgress := OcrPdfOptions.onProgress options in
  let password := OcrPdfOptions.password options in
  let file := toFile input "document.pdf" "application/pdf" in
  uploaded <- data_upload file onProgress ;;
  validated <- pdf_validate
    {| PdfValidateRequest.unvalidated_file_handle :=
         Data.unvalidated_file_handle uploaded;
       PdfValidateRequest.password := password |} ;;
  pdfHandle <- lift (okPdf validated) ;;
  ocrPdfHandle pdfHandle options.

(** *** The pipelines as the specification words them (section 4.4) *)

(** Each element submitted in turn, one result per element, in order *)
Fixpoint each {A B : Type} (f : A -> M World B) (l : list A)
  : M World (list B) :=
  match l with
  | [] => ret []
  | a :: rest => b <- f a ;; bs <- each f rest ;; ret (b :: bs)
  end.

(** Steps 6 to 8: orientation, OCR, optimization of the composed PDF *)
Definition orient_ocr_optimize (composed : Handle) : M World Handle :=
  oriented <- pdf_orientation {| pdf_handle := composed |} ;;
  ocr <- pdf_ocrToPdf {| pdf_handle := rotated_pdf_handle oriented |} ;;
  optimized <- pdf_optimize (optimize_request (pdf_handle ocr)) ;;
  ret (pdf_handle optimized).

(** Steps 4 to 8 for a list of images: one conversion per image in list
    order, then the composition of the resulting handles in that order *)
Definition convert_and_compose (images : list Handle)
    (pdfOptions : option ImgToPdfOptions) : M World Handle :=
  converted <- each (fun image =>
                       img_ocrToPdf
                         {| ImgOcrToPdfRequest.img_handle := image;
                            ImgOcrToPdfRequest.options := pdfOptions |})
                    images ;;
  composed <- pdf_compose
                {| pdfs := map compose_entry (map pdf_handle converted) |} ;;
  orient_ocr_optimize (pdf_handle composed).

(** Step 2: the detected quadrilaterals extracted in the order returned *)
Definition extract_each (imgHandle : Handle)
    (docs : list ImgFindDocumentsQuadrilateral.t)
  : M World (list ImgHandleObject) :=
  each (fun doc =>
          img_extractQuadrilateral
            {| ImgExtractQuadrilateralRequest.img_handle := imgHandle;
               ImgExtractQuadrilateralRequest.quadrilateral :=
                 ImgFindDocumentsQuadrilateral.quadrilateral doc |})
       docs.

(** Steps 1 and 2 of the image pipeline: upload, validate, unwrap *)
Definition upload_validate_okImg (input : FlowInput)
    (options : OcrImgOptions.t) : M World Handle :=
  uploaded <- data_upload (toFile input "image.jpg" "image/jpeg")
                (OcrImgOptions.onProgress options) ;;
  validated <- img_validate
    {| ImgValidateRequest.unvalidated_file_handle :=
         Data.unvalidated_file_handle uploaded |} ;;
  lift (okImg validated).

(** Step 1 of the PDF pipeline: upload, validate, unwrap *)
Definition upload_validate_okPdf (input : FlowInput)
    (options : OcrPdfOptions.t) : M World Handle :=
  uploaded <- data_upload (toFile input "document.pdf" "application/pdf")
                (OcrPdfOptions.onProgress options) ;;
  validated <- pdf_validate
    {| PdfValidateRequest.unvalidated_file_handle :=
         Data.unvalidated_file_handle uploaded;
       PdfValidateRequest.password := OcrPdfOptions.password options |} ;;
  lift (okPdf validated).

End Methods.

(** Whether a call is an upload or a validation *)
Definition is_upload_or_validation (c : Call) : bool :=
  match c with
  | CallUpload _ _ | CallImgValidate _ | CallPdfValidate _ => true
  | _ => false
  end.

(** A computation that, from any state, makes only calls satisfying [P] *)
Definition only_calls {World A : Type} (P : Call -> Prop) (m : M World A)
  : Prop :=
  forall s, exists cs,
    calls (snd (m s)) = calls s ++ cs /\ Forall P cs.

(** Whether document extraction is on: [extractDocument = true] by default *)
Definition extraction_enabled (options : OcrImgOptions.t) : bool :=
  match OcrImgOptions.extractDocument options with
  | Some b => b
  | None => true
  end.

End Flow.

(** ** Sample inputs used in the examples of Part II *)

Module Samples.

Import Validation Fetch Data Flow.
Local Open Scope string_scope.

(** A server that answers 202 twice and then 200 with a job descriptor *)
Definition two_pending_then_ready (n : nat) : FetchResult :=
  if Nat.ltb n 2 then
    Responded {| Fetch.status := 202; statusText := "Accepted"; json := None |}
  else
    Responded {| Fetch.status := 200; statusText := "OK";
                 json := Some (JObject [("job_id", JString "job-7")]) |}.

(** An error envelope as the server sends it *)
Definition pdf_too_large : Json :=
  JObject [("status_code", JNumber 413);
           ("api_error",
            JObject [("code", JNumber 301); ("name", JString "PDF_TOO_LARGE");
                     ("message", JString "too large")])].

Definition upload_target : DataUploadResponse :=
  {| post_url := "https://storage.example/upload";
     post_header := [("key", "value")];
     unvalidated_file_handle := "unvalidated-1" |}.

(** A browser upload of four bytes, reported at one and at three bytes *)
Definition browser_upload : UploadEnvironment :=
  {| posted := Return upload_target;
     has_XMLHttpRequest := true;
     xhr_events :=
       [OnProgress {| lengthComputable := true; loaded := 1; total := 4 |};
        OnProgress {| lengthComputable := true; loaded := 3; total := 4 |};
        OnLoad 204 "No Content"; OnLoadEnd];
     storage_fetch := NetworkFailure |}.

Definition job_handle (kind : string) (job : nat) : Handle :=
  kind ++ "-" ++ Fetch.number_to_string (Z.of_nat job).

(** A service that numbers its jobs and names each result after its job;
    [detection] is what document detection answers. *)
Definition numbering_service (detection : Outcome ImgFindDocumentsResponse)
  : Flow.t nat :=
  {| data :=
       {| DataEp.upload := fun _ _ job =>
            (Return {| Data.post_url := "https://storage.example/upload";
                       Data.post_header := [];
                       Data.unvalidated_file_handle := job_handle "raw" job |},
             S job) |};
     img :=
       {| ImgEp.validate := fun _ job =>
            (Return {| response := ValidateResponseOk (job_handle "img" job) |},
             S job);
          ImgEp.findDocuments := fun _ job => (detection, S job);
          ImgEp.extractQuadrilateral := fun _ job =>
            (Return {| img_handle := job_handle "doc" job |}, S job);
          ImgEp.ocrToPdf := fun _ job =>
            (Return {| pdf_handle := job_handle "page" job |}, S job) |};
     pdf :=
       {| PdfEp.validate := fun _ job =>
            (Return {| response := ValidateResponseOk (job_handle "pdf" job) |},
             S job);
          PdfEp.compose := fun _ job =>
            (Return {| pdf_handle := job_handle "composed" job |}, S job);
          PdfEp.orientation := fun _ job =>
            (Return {| orientations := [];
                       rotated_pdf_handle := job_handle "oriented" job |},
             S job);
          PdfEp.ocrToPdf := fun _ job =>
            (Return {| pdf_handle := job_handle "ocr" job |}, S job);
          PdfEp.optimize := fun _ job =>
            (Return {| pdf_handle := job_handle "optimized" job |}, S job)
       |} |}.

Definition default_options : OcrImgOptions.t :=
  {| OcrImgOptions.extractDocument := None;
     OcrImgOptions.onProgress := None;
     OcrImgOptions.pdfOptions := None |}.

Definition fresh : State nat := {| world := 0%nat; calls := [] |}.

Definition unit_square : Img.Quadrilateral :=
  {| Img.top_left := {| Img.x := 0; Img.y := 0 |};
     Img.top_right := {| Img.x := 1; Img.y := 0 |};
     Img.bottom_right := {| Img.x := 1; Img.y := 1 |};
     Img.bottom_left := {| Img.x := 0; Img.y := 1 |} |}.

Definition left_half : Img.Quadrilateral :=
  {| Img.top_left := {| Img.x := 0; Img.y := 0 |};
     Img.top_right := {| Img.x := 1 # 2; Img.y := 0 |};
     Img.bottom_right := {| Img.x := 1 # 2; Img.y := 1 |};
     Img.bottom_left := {| Img.x := 0; Img.y := 1 |} |}.

Definition two_documents : ImgFindDocumentsResponse :=
  {| documents :=
       [ {| ImgFindDocumentsQuadrilateral.quadrilateral := left_half;
            ImgFindDocumentsQuadrilateral.confidence := 9 # 10 |};
         {| ImgFindDocumentsQuadrilateral.quadrilateral := unit_square;
            ImgFindDocumentsQuadrilateral.confidence := 1 # 2 |} ] |}.

Definition server_error : Exception :=
  ApiErrorException 500
    {| code := 0; name := "INTERNAL_ERROR"; message := "detection failed" |}.

End Samples.

(** ** Email trees (models/email.ts) *)

Module Email.

Import Validation.

Module NamedAddress.
Record t : Type := {
  name : option string;
  address : string
}.
End NamedAddress.

(** [DataMediaTypeResponse] (models/data.ts) *)
Module DataMediaTypeResponse.
Record t : Type := {
  media_type : string;
  confidence : Q
}.
End DataMediaTypeResponse.

(** The inner [response] of an [EmailValidateResponse]; here the Ok member
    carries the parsed [EmailHandle] object. *)
Inductive EmailValidateResult (E : Type) : Type :=
| EmailValidateResponseOk (email_handle : E)
| EmailValidateResponseError (error : string)
| EmailValidateResponseVirus (virus : string).

Arguments EmailValidateResponseOk {E} email_handle.
Arguments EmailValidateResponseError {E} error.
Arguments EmailValidateResponseVirus {E} virus.

(** [ValidatedAttachment = PdfValidateResponse | ImgValidateResponse |
    EmailValidateResponse], told apart by the outer [class_name] *)
Inductive ValidatedAttachment (E : Type) : Type :=
| ValidatedPdf (r : PdfValidateResponse)
| ValidatedImg (r : ImgValidateResponse)
| ValidatedEmail (r : EmailValidateResult E).

Arguments ValidatedPdf {E} r.
Arguments ValidatedImg {E} r.
Arguments ValidatedEmail {E} r.

Module EmailAttachment.
Record t (E : Type) : Type := {
  unvalidated_file_handle : Handle;
  media_type : DataMediaTypeResponse.t;
  validated : option (ValidatedAttachment E);   (* null when absent *)
  name : option string;
  content_id : option string;
  content_disposition : option string
}.
Arguments unvalidated_file_handle {E} _.
Arguments media_type {E} _.
Arguments validated {E} _.
Arguments name {E} _.
Arguments content_id {E} _.
Arguments content_disposition {E} _.
End EmailAttachment.

(** [EmailHandle]: an email may carry emails as attachments. *)
Inductive EmailHandle : Type := Build_EmailHandle {
  file_handle : string;
  signed_hash : string;
  from_addr : list NamedAddress.t;
  to_addr : list NamedAddress.t;
  cc_addr : list NamedAddress.t;
  bcc_addr : list NamedAddress.t;
  date : option string;
  subject : option string;
  text_body : option Handle;
  html_body : option Handle;
  attachments : list (EmailAttachment.t EmailHandle)
}.

Definition EmailAttachment : Type := EmailAttachment.t EmailHandle.

(** [collectUnvalidatedFileHandles]: the [for] loop pushes onto [handles]. *)
Fixpoint collectUnvalidatedFileHandles (email : EmailHandle) : list Handle :=
  (fix loop (rest : list EmailAttachment) (handles : list Handle)
     : list Handle :=
     match rest with
     | [] => handles
     | attachment :: rest =>
         let handles :=
           handles ++ [EmailAttachment.unvalidated_file_handle attachment] in
         let handles :=
           match EmailAttachment.validated attachment with
           | Some (ValidatedEmail (EmailValidateResponseOk email_handle)) =>
               handles ++ collectUnvalidatedFileHandles email_handle
           | _ => handles
           end in
         loop rest handles
     end) (attachments email) [].

(** [collectPdfHandles] *)
Fixpoint collectPdfHandles (email : EmailHandle) : list Handle :=
  (fix loop (rest : list EmailAttachment) (handles : list Handle)
     : list Handle :=
     match rest with
     | [] => handles
     | attachment :: rest =>
         let handles :=
           match EmailAttachment.validated attachment with
           | Some (ValidatedPdf r) =>
               match response r with
               | ValidateResponseOk pdf_handle => handles ++ [pdf_handle]
               | _ => handles
               end
           | Some (ValidatedEmail (EmailValidateResponseOk email_handle)) =>
               handles ++ collectPdfHandles email_handle
           | _ => handles
           end in
         loop rest handles
     end) (attachments email) [].

(** [collectImgHandles] *)
Fixpoint collectImgHandles (email : EmailHandle) : list Handle :=
  (fix loop (rest : list EmailAttachment) (handles : list Handle)
     : list Handle :=
     match rest with
     | [] => handles
     | attachment :: rest =>
         let handles :=
           match EmailAttachment.validated attachment with
           | Some (ValidatedImg r) =>
               match response r with
               | ValidateResponseOk img_handle => handles ++ [img_handle]
               | _ => handles
               end
           | Some (ValidatedEmail (EmailValidateResponseOk email_handle)) =>
               handles ++ collectImgHandles email_handle
           | _ => handles
           end in
         loop rest handles
     end) (attachments email) [].

(** [collectEmailHandles] *)
Fixpoint collectEmailHandles (email : EmailHandle) : list EmailHandle :=
  (fix loop (rest : list EmailAttachment) (handles : list EmailHandle)
     : list EmailHandle :=
     match rest with
     | [] => handles
     | attachment :: rest =>
         let handles :=
           match EmailAttachment.validated attachment with
           | Some (ValidatedEmail (EmailValidateResponseOk email_handle)) =>
               handles ++ collectEmailHandles email_handle
           | _ => handles
           end in
         loop rest handles
     end) (attachments email) [email].

(** *** What the properties are stated with *)

(** The email an attachment holds, when it validated as an email *)
Definition nested_email (attachment : EmailAttachment) : list EmailHandle :=
  match EmailAttachment.validated attachment with
  | Some (ValidatedEmail (EmailValidateResponseOk email_handle)) =>
      [email_handle]
  | _ => []
  end.

(** The PDF handle an attachment holds, when it validated as a PDF *)
Definition pdf_of (attachment : EmailAttachment) : list Handle :=
  match EmailAttachment.validated attachment with
  | Some (ValidatedPdf r) =>
      match response r with
      | ValidateResponseOk pdf_handle => [pdf_handle]
      | _ => []
      end
  | _ => []
  end.

(** The image handle an attachment holds, when it validated as an image *)
Definition img_of (attachment : EmailAttachment) : list Handle :=
  match EmailAttachment.validated attachment with
  | Some (ValidatedImg r) =>
      match response r with
      | ValidateResponseOk img_handle => [img_handle]
      | _ => []
      end
  | _ => []
  end.

(** [inside root email]: [email] is [root] or is reached from it through
    attachments that validated as emails. *)
Inductive inside (root : EmailHandle) : EmailHandle -> Prop :=
| inside_root : inside root root
| inside_nested (parent email : EmailHandle) (attachment : EmailAttachment) :
    inside root parent ->
    In attachment (attachments parent) ->
    In email (nested_email attachment) ->
    inside root email.

(** The same email with other bodies *)
Definition with_bodies (email : EmailHandle) (text html : option Handle)
  : EmailHandle :=
  {| file_handle := file_handle email;
     signed_hash := signed_hash email;
     from_addr := from_addr email;
     to_addr := to_addr email;
     cc_addr := cc_addr email;
     bcc_addr := bcc_addr email;
     date := date email;
     subject := subject email;
     text_body := text;
     html_body := html;
     attachments := attachments email |}.

End Email.

(** ** URLs (shared/fetchWrapper.ts, MaraDocsServer/path.ts) *)

Module Urls.

Local Open Scope string_scope.

(** Whether a string ends with ["/"] *)
Fixpoint ends_with_slash (s : string) : bool :=
  match s with
  | EmptyString => false
  | String c EmptyString => Ascii.eqb c "/"
  | String _ rest => ends_with_slash rest
  end.

(** [s.replace(/\/$/, "")]: one slash at the very end is removed. *)
Fixpoint strip_trailing_slash (s : string) : string :=
  match s with
  | EmptyString => EmptyString
  | String c EmptyString => if Ascii.eqb c "/" then EmptyString else s
  | String c rest => String c (strip_trailing_slash rest)
  end.

(** The [FetchWrapper] object *)
Record FetchWrapper : Type := {
  jwt : string;
  apiUrlWithVersion : string
}.

(** [new FetchWrapper({jwt, apiUrlWithVersion})] *)
Definition new_FetchWrapper (jwt0 apiUrlWithVersion0 : string) : FetchWrapper :=
  {| jwt := jwt0;
     apiUrlWithVersion := strip_trailing_slash apiUrlWithVersion0 |}.

(** [FetchWrapper.url]; [request] and [pollResult] fetch the same
    concatenation. *)
Definition url (this : FetchWrapper) (path : string) : string :=
  apiUrlWithVersion this ++ path.

(** [Path.combine]: [paths.filter((s) => s !== "").join("/")] *)
Definition combine (paths : list string) : string :=
  String.concat "/" (filter (fun s => negb (String.eqb s "")) paths).

(** [Path.webview], [Path.workspace], [Path.error] for a [Path] built on
    [base_url] *)
Definition webview (base_url ep : string) : string :=
  combine [base_url; "webview"; ep].

Definition workspace (base_url ep : string) : string :=
  combine [base_url; "workspace"; ep].

Definition error (base_url ep : string) : string :=
  combine [base_url; "error"; ep].

End Urls.

(** ** Typed downloads (MaraDocsClient/dataEp.ts) *)

Module Downloads.

Import Data.

(** [{url, headers}], the answer to a download request *)
Record DownloadTarget : Type := {
  url : string;
  headers : list (string * string)
}.

Record Blob : Type := {
  blob_type : string;
  blob_bytes : list byte
}.

(** The body shared by [downloadPdf], [downloadJpeg], [downloadPng],
    [downloadOdt] and [downloadUnvalidated]: the request for a download
    target, the transfer, the [Blob] of the given type.  [fetched] is what
    the [fetch] of the target's URL resolves to. *)
Definition download_as (type : string) (posted : Outcome DownloadTarget)
    (fetched : DownloadTarget -> DownloadFetch) : Progress (Outcome Blob) :=
  match posted with
  | Throw e => (Throw e, [])
  | Return response =>
      match downloadBinary (fetched response) with
      | (Throw e, calls) => (Throw e, calls)
      | (Return bytes, calls) =>
          (Return {| blob_type := type; blob_bytes := bytes |}, calls)
      end
  end.

Definition downloadPdf := download_as "application/pdf".
Definition downloadJpeg := download_as "image/jpeg".
Definition downloadPng := download_as "image/png".
Definition downloadOdt :=
  download_as "application/vnd.oasis.opendocument.text".
(** [new Blob([bytes])]: the type of a [Blob] made without options is the
    empty string. *)
Definition downloadUnvalidated := download_as "".

(** The five typed downloads with the media type each gives its [Blob] *)
Definition typed_downloads
  : list (string * (Outcome DownloadTarget ->
                    (DownloadTarget -> DownloadFetch) ->
                    Progress (Outcome Blob))) :=
  [ ("application/pdf"%string, downloadPdf);
    ("image/jpeg"%string, downloadJpeg);
    ("image/png"%string, downloadPng);
    ("application/vnd.oasis.opendocument.text"%string, downloadOdt);
    (""%string, downloadUnvalidated) ].

End Downloads.

(** ** What further properties are stated with *)

Module Transfers.

Import Data.

(** The settlement of the promise of [uploadWithXHR] that the first [load]
    or [error] event brings; [None] when there is no such event *)
Fixpoint first_settlement (response : DataUploadResponse)
    (events : list XhrEvent) : option (Outcome DataUploadResponse) :=
  match events with
  | [] => None
  | OnLoad status statusText :: _ =>
      Some (if Z.leb 200 status && Z.ltb status 300 then Return response
            else Throw (s3_upload_failed status statusText))
  | OnError status statusText :: _ =>
      Some (Throw (s3_upload_failed status statusText))
  | _ :: rest => first_settlement response rest
  end.

End Transfers.

Module FlowInputs.

Import Flow.

(** The bytes of a flow input *)
Definition input_bytes (input : FlowInput) : list Data.byte :=
  match input with
  | InputFile file => file_bytes file
  | InputBlob blob => blob_bytes blob
  | InputArrayBuffer bytes | InputBuffer bytes => bytes
  end.

End FlowInputs.

(** ** More sample inputs *)

Module MoreSamples.

Import Validation Fetch Data Flow Samples.
Local Open Scope string_scope.

Definition attachment (handle : Handle)
    (validated : option (Email.ValidatedAttachment Email.EmailHandle))
  : Email.EmailAttachment :=
  {| Email.EmailAttachment.unvalidated_file_handle := handle;
     Email.EmailAttachment.media_type :=
       {| Email.DataMediaTypeResponse.media_type := "application/octet-stream";
          Email.DataMediaTypeResponse.confidence := 1 |};
     Email.EmailAttachment.validated := validated;
     Email.EmailAttachment.name := None;
     Email.EmailAttachment.content_id := None;
     Email.EmailAttachment.content_disposition := None |}.

Definition mail (file : string) (text : option Handle)
    (attachments : list Email.EmailAttachment) : Email.EmailHandle :=
  {| Email.file_handle := file;
     Email.signed_hash := "hash";
     Email.from_addr := [];
     Email.to_addr := [];
     Email.cc_addr := [];
     Email.bcc_addr := [];
     Email.date := None;
     Email.subject := None;
     Email.text_body := text;
     Email.html_body := None;
     Email.attachments := attachments |}.

(** A forwarded email: it carries a PDF and an image. *)
Definition forwarded_mail : Email.EmailHandle :=
  mail "forwarded" (Some "forwarded-text")
    [ attachment "f-1"
        (Some (Email.ValidatedPdf
                 {| response := ValidateResponseOk "pdf-2" |}));
      attachment "f-2"
        (Some (Email.ValidatedImg
                 {| response := ValidateResponseOk "img-1" |})) ].

(** An email with a PDF, the forwarded email, an attachment that is neither
    PDF nor image, and an email attachment whose validation failed *)
Definition outer_mail : Email.EmailHandle :=
  mail "outer" (Some "outer-text")
    [ attachment "o-1"
        (Some (Email.ValidatedPdf
                 {| response := ValidateResponseOk "pdf-1" |}));
      attachment "o-2"
        (Some (Email.ValidatedEmail
                 (Email.EmailValidateResponseOk forwarded_mail)));
      attachment "o-3" None;
      attachment "o-4"
        (Some (Email.ValidatedEmail
                 (Email.EmailValidateResponseError "broken"))) ].

Definition four_points : list Img.RelativePosition :=
  [ {| Img.x := 1; Img.y := 1 |}; {| Img.x := 0; Img.y := 1 # 2 |};
    {| Img.x := 1 # 2; Img.y := 0 |}; {| Img.x := 1 # 4; Img.y := 3 # 4 |} ].

(** A server that answers 202 once and then drops the connection *)
Definition pending_then_dropped (n : nat) : FetchResult :=
  if Nat.ltb n 1 then
    Responded {| Fetch.status := 202; statusText := "Accepted"; json := None |}
  else NetworkFailure.

(** A storage response whose stream breaks after two chunks *)
Definition broken_download : DownloadResponse :=
  {| Data.status := 200; content_length := Some "3";
     body := Some [Chunk [Byte.x01]; Chunk [Byte.x02]; ReadFailure] |}.

Definition whole_download : DownloadResponse :=
  {| Data.status := 200; content_length := Some "4";
     body := Some [Chunk [Byte.x01; Byte.x02]; Chunk [Byte.x03; Byte.x04]] |}.

(** An upload without [XMLHttpRequest] that storage refuses *)
Definition refused_upload : UploadEnvironment :=
  {| posted := Return upload_target;
     has_XMLHttpRequest := false;
     xhr_events := [];
     storage_fetch :=
       Responded {| Fetch.status := 403; statusText := "Forbidden";
                    json := None |} |}.

Definition download_target : Downloads.DownloadTarget :=
  {| Downloads.url := "https://storage.example/file";
     Downloads.headers := [] |}.

(** The numbering service, answering every PDF validation with [result] *)
Definition with_pdf_validation (result : ValidateResult Pdf)
    (service : Flow.t nat) : Flow.t nat :=
  {| data := data service;
     img := img service;
     pdf :=
       {| PdfEp.validate := fun _ job =>
            (Return {| response := result |}, S job);
          PdfEp.compose := PdfEp.compose (pdf service);
          PdfEp.orientation := PdfEp.orientation (pdf service);
          PdfEp.ocrToPdf := PdfEp.ocrToPdf (pdf service);
          PdfEp.optimize := PdfEp.optimize (pdf service) |} |}.

(** The same for image validations *)
Definition with_img_validation (result : ValidateResult Img)
    (service : Flow.t nat) : Flow.t nat :=
  {| data := data service;
     img :=
       {| ImgEp.validate := fun _ job =>
            (Return {| response := result |}, S job);
          ImgEp.findDocuments := ImgEp.findDocuments (img service);
          ImgEp.extractQuadrilateral :=
            ImgEp.extractQuadrilateral (img service);
          ImgEp.ocrToPdf := ImgEp.ocrToPdf (img service) |};
     pdf := pdf service |}.

(** A service whose job number [failing] fails when it is an extraction *)
Definition with_failing_extraction (failing : nat) (service : Flow.t nat)
  : Flow.t nat :=
  {| data := data service;
     img :=
       {| ImgEp.validate := ImgEp.validate (img service);
          ImgEp.findDocuments := ImgEp.findDocuments (img service);
          ImgEp.extractQuadrilateral := fun req job =>
            if Nat.eqb job failing then (Throw server_error, S job)
            else ImgEp.extractQuadrilateral (img service) req job;
          ImgEp.ocrToPdf := ImgEp.ocrToPdf (img service) |};
     pdf := pdf service |}.

Definition pdf_options : OcrPdfOptions.t :=
  {| OcrPdfOptions.onProgress := None;
     OcrPdfOptions.password := Some "secret" |}.

Definition raw_input : FlowInput :=
  InputArrayBuffer [Byte.x25; Byte.x50; Byte.x44; Byte.x46].

End MoreSamples.

(* ================================================================== *)
(** * Part II: properties *)
(* ================================================================== *)

(** ** Sorting *)

Section SortFacts.

Local Open Scope Q_scope.

Context {A : Type}.
Variable key : A -> Q.

(** The comparators of the source all have the form
    [(a, b) => key(a) - key(b)]. *)

Lemma sort_insert_perm (a : A) (l : list A) :
  Permutation (sort_insert (fun a b => key a - key b) a l) (a :: l).
Proof.
  induction l as [|b l IH]; simpl; [reflexivity|].
  destruct (Qle_bool (key a - key b) 0); [reflexivity|].
  rewrite IH. apply perm_swap.
Qed.

Lemma sort_perm (l : list A) :
  Permutation (sort (fun a b => key a - key b) l) l.
Proof.
  induction l as [|a l IH]; simpl; [reflexivity|].
  rewrite sort_insert_perm. now constructor.
Qed.

Lemma sort_length (l : list A) :
  List.length (sort (fun a b => key a - key b) l) = List.length l.
Proof. apply Permutation_length, sort_perm. Qed.

Lemma sort_insert_sorted (a : A) (l : list A) :
  Sorted (key_le key) l ->
  Sorted (key_le key) (sort_insert (fun a b => key a - key b) a l).
Proof.
  induction l as [|b l IH]; simpl; intros Hs.
  - repeat constructor.
  - destruct (Qle_bool (key a - key b) 0) eqn:E.
    + constructor; [assumption|]. constructor.
      apply Qle_bool_iff in E. unfold key_le. lra.
    + assert (Hba : key_le key b a).
      { unfold key_le. destruct (Qlt_le_dec (key a) (key b)) as [Hlt|Hle];
          [|assumption].
        assert (Qle_bool (key a - key b) 0 = true) as E'
            by (apply Qle_bool_iff; lra).
        congruence. }
      inversion Hs as [|? ? Hs' Hhd]; subst.
      constructor; [now apply IH|].
      destruct l as [|c l]; simpl.
      * now constructor.
      * destruct (Qle_bool (key a - key c) 0); constructor; [assumption|].
        now inversion Hhd.
Qed.

Lemma sort_sorted (l : list A) :
  Sorted (key_le key) (sort (fun a b => key a - key b) l).
Proof.
  induction l as [|a l IH]; simpl; [constructor|].
  now apply sort_insert_sorted.
Qed.

(** Sorting two elements: the smaller key first, the input order on a tie. *)
Lemma sort_pair (a b : A) :
  (key a <= key b /\ sort (fun a b => key a - key b) [a; b] = [a; b]) \/
  (key b < key a /\ sort (fun a b => key a - key b) [a; b] = [b; a]).
Proof.
  unfold sort; simpl.
  destruct (Qle_bool (key a - key b) 0) eqn:E.
  - left. apply Qle_bool_iff in E. split; [lra | reflexivity].
  - right. split; [|reflexivity].
    destruct (Qlt_le_dec (key b) (key a)) as [Hlt|Hle]; [assumption|].
    assert (Qle_bool (key a - key b) 0 = true) as E'
        by (apply Qle_bool_iff; lra).
    congruence.
Qed.

End SortFacts.

(** ** [QuadrilateralUtils.fromUnsorted] *)

Section FromUnsorted.

Import Img.
Local Open Scope Q_scope.

Lemma length4_inv {A : Type} (l : list A) :
  List.length l = 4%nat -> exists a b c d, l = [a; b; c; d].
Proof.
  destruct l as [|a [|b [|c [|d [|e l]]]]]; simpl; try discriminate.
  intros _. now exists a, b, c, d.
Qed.

Lemma sorted4_inv {A : Type} (key : A -> Q) (a b c d : A) :
  Sorted (key_le key) [a; b; c; d] ->
  key a <= key b /\ key b <= key c /\ key c <= key d.
Proof.
  intros H.
  apply Sorted_inv in H as [H Hab]. apply HdRel_inv in Hab.
  apply Sorted_inv in H as [H Hbc]. apply HdRel_inv in Hbc.
  apply Sorted_inv in H as [_ Hcd]. apply HdRel_inv in Hcd.
  unfold key_le in *. auto.
Qed.

(** What [fromUnsorted] computes on four points: the y-sorted array
    [a; b; c; d], each half ordered by x. *)
Lemma fromUnsorted_shape (points : list RelativePosition) :
  List.length points = 4%nat ->
  exists a b c d tl tr bl br,
    Permutation [a; b; c; d] points /\
    (y a <= y b /\ y b <= y c /\ y c <= y d) /\
    (([tl; tr] = [a; b] \/ [tl; tr] = [b; a]) /\ x tl <= x tr) /\
    (([bl; br] = [c; d] \/ [bl; br] = [d; c]) /\ x bl <= x br) /\
    fromUnsorted points =
      Return {| top_left := tl; top_right := tr;
                bottom_right := br; bottom_left := bl |}.
Proof.
  intros Hlen. unfold fromUnsorted. rewrite Hlen. simpl negb. cbv iota.
  pose proof (sort_perm y points) as Hperm.
  pose proof (sort_sorted y points) as Hsorted.
  destruct (length4_inv (sort (fun a b => y a - y b) points))
    as (a & b & c & d & Heq).
  { now rewrite sort_length. }
  rewrite Heq in *. unfold slice, slice_from. simpl firstn. simpl skipn.
  apply sorted4_inv in Hsorted.
  destruct (sort_pair x a b) as [[Hab Eab]|[Hab Eab]];
    destruct (sort_pair x c d) as [[Hcd Ecd]|[Hcd Ecd]];
    rewrite Eab, Ecd; simpl;
    [ exists a, b, c, d, a, b, c, d
    | exists a, b, c, d, a, b, d, c
    | exists a, b, c, d, b, a, c, d
    | exists a, b, c, d, b, a, d, c ];
    repeat split; auto; lra.
Qed.

Lemma fromUnsorted_returns (points : list RelativePosition) :
  List.length points = 4%nat -> exists q, fromUnsorted points = Return q.
Proof.
  intros H. destruct (fromUnsorted_shape points H)
    as (a & b & c & d & tl & tr & bl & br & _ & _ & _ & _ & E).
  eauto.
Qed.

(** C6. For every four points with coordinates in [0,1], given in any
    of their 24 orders, [fromUnsorted] returns a quadrilateral that
    satisfies the ordering invariant of [QuadrilateralSchema]:
    top_left.x <= top_right.x, bottom_left.x <= bottom_right.x,
    top_left.y <= bottom_left.y and top_right.y <= bottom_right.y. *)
Theorem fromUnsorted_ordering_invariant
    (p1 p2 p3 p4 : RelativePosition) (points : list RelativePosition) :
  Forall RelativePositionSchema [p1; p2; p3; p4] ->
  Permutation points [p1; p2; p3; p4] ->
  exists q, fromUnsorted points = Return q /\ QuadrilateralSchema_refine q.
Proof.
  intros _ Hperm.
  assert (Hlen : List.length points = 4%nat)
    by (now rewrite (Permutation_length Hperm)).
  destruct (fromUnsorted_shape points Hlen)
    as (a & b & c & d & tl & tr & bl & br & _ & Hy & [Ht Htx] & [Hb Hbx] & E).
  eexists; split; [exact E|].
  unfold QuadrilateralSchema_refine; simpl.
  destruct Ht as [Ht|Ht]; injection Ht as -> ->;
    destruct Hb as [Hb|Hb]; injection Hb as -> ->;
    repeat split; lra.
Qed.

Lemma fromUnsorted_ordering_invariant_witness :
  exists q,
    fromUnsorted [ {| x := 1; y := 1 |}; {| x := 0; y := 1 # 2 |};
                   {| x := 1 # 2; y := 0 |}; {| x := 1 # 4; y := 1 |} ]
      = Return q /\ QuadrilateralSchema_refine q.
Proof.
  apply (fromUnsorted_ordering_invariant
           {| x := 1 # 2; y := 0 |} {| x := 0; y := 1 # 2 |}
           {| x := 1 # 4; y := 1 |} {| x := 1; y := 1 |}).
  - repeat constructor; simpl; lra.
  - apply perm_trans with
      [ {| x := 1 # 2; y := 0 |}; {| x := 1; y := 1 |};
        {| x := 0; y := 1 # 2 |}; {| x := 1 # 4; y := 1 |} ].
    + apply perm_trans with
        [ {| x := 1; y := 1 |}; {| x := 1 # 2; y := 0 |};
          {| x := 0; y := 1 # 2 |}; {| x := 1 # 4; y := 1 |} ].
      * apply perm_skip, perm_swap.
      * apply perm_swap.
    + apply perm_skip.
      apply perm_trans with
        [ {| x := 0; y := 1 # 2 |}; {| x := 1; y := 1 |};
          {| x := 1 # 4; y := 1 |} ].
      * apply perm_swap.
      * apply perm_skip, perm_swap.
Defined.

(** C10. [fromUnsorted] throws for every input whose length is not 4;
    on exactly four points it returns a quadrilateral whose four corner
    fields are, as a multiset, the four input points. *)
Theorem fromUnsorted_length_and_corners (points : list RelativePosition) :
  (List.length points <> 4%nat ->
   fromUnsorted points = Throw (Error "Quadrilateral must have 4 points")) /\
  (List.length points = 4%nat ->
   exists q, fromUnsorted points = Return q /\
             Permutation (corners q) points).
Proof.
  split.
  - intros Hlen. unfold fromUnsorted.
    destruct (Nat.eqb (List.length points) 4) eqn:E; [|reflexivity].
    apply Nat.eqb_eq in E. contradiction.
  - intros Hlen.
    destruct (fromUnsorted_shape points Hlen)
      as (a & b & c & d & tl & tr & bl & br & Hp & _ & [Ht _] & [Hb _] & E).
    eexists; split; [exact E|].
    unfold corners; simpl. rewrite <- Hp.
    destruct Ht as [Ht|Ht]; injection Ht as -> ->;
      destruct Hb as [Hb|Hb]; injection Hb as -> ->.
    + apply perm_skip, perm_skip, perm_swap.
    + reflexivity.
    + rewrite (perm_swap a b). apply perm_skip, perm_skip, perm_swap.
    + apply perm_swap.
Qed.

Lemma fromUnsorted_length_and_corners_witness :
  fromUnsorted [ {| x := 0; y := 0 |} ]
    = Throw (Error "Quadrilateral must have 4 points") /\
  exists q,
    fromUnsorted [ {| x := 1; y := 1 |}; {| x := 0; y := 1 # 2 |};
                   {| x := 1 # 2; y := 0 |}; {| x := 1 # 4; y := 1 |} ]
      = Return q /\
    Permutation (corners q)
      [ {| x := 1; y := 1 |}; {| x := 0; y := 1 # 2 |};
        {| x := 1 # 2; y := 0 |}; {| x := 1 # 4; y := 1 |} ].
Proof.
  split.
  - apply (fromUnsorted_length_and_corners [ {| x := 0; y := 0 |} ]).
    simpl. discriminate.
  - apply (fromUnsorted_length_and_corners
             [ {| x := 1; y := 1 |}; {| x := 0; y := 1 # 2 |};
               {| x := 1 # 2; y := 0 |}; {| x := 1 # 4; y := 1 |} ]).
    reflexivity.
Defined.

End FromUnsorted.

(** ** The validation unwrappers *)

Section Unwrappers.

Import Validation.
Local Open Scope string_scope.

Ltac unwrapper_cases :=
  repeat split; try reflexivity;
  intros [[h | e | v | tag fresh]] handle; cbn; intros H;
  try discriminate H; now injection H as ->.

(** C2 (amended). [okHtml] and [okEmail] return the enclosed handle
    unmodified on the Ok tag, throw [ValidationErrorException] with the
    original message on the Error tag, throw [ValidationVirusException]
    with the virus message on the Virus tag, throw
    [ValidationErrorException "Unknown validation response type"] (capital
    U) on any unrecognized tag, and return normally only in the Ok case;
    [okImg] and [okPdf], as the specification words them, follow the same
    four-way branch. *)
Theorem unwrappers_contract :
  unwrapper_contract okHtml "Unknown validation response type" /\
  unwrapper_contract okEmail "Unknown validation response type" /\
  (exists unknown, unwrapper_contract okImg unknown) /\
  (exists unknown, unwrapper_contract okPdf unknown).
Proof.
  split; [|split; [|split]];
    try (exists "unknown validation response type");
    unfold unwrapper_contract, okHtml, okEmail, okImg, okPdf, unwrap;
    unwrapper_cases.
Qed.

Lemma unwrappers_contract_witness :
  okHtml {| response := ValidateResponseOk "html-1" |} = Return "html-1" /\
  response (k := Html) {| response := ValidateResponseOk "html-1" |}
  = ValidateResponseOk "html-1".
Proof.
  split; [reflexivity|].
  apply (proj2 (proj2 (proj2 (proj2 (proj1 unwrappers_contract))))).
  reflexivity.
Defined.

(** C2 as stated fails on the message: on an unrecognized tag [okHtml]
    and [okEmail] throw "Unknown validation response type", not
    "unknown validation response type". *)
Lemma unwrappers_unknown_message_counterexample :
  exists (fresh : recognized Html "SomethingElse" = false)
         (fresh' : recognized Email "SomethingElse" = false),
    okHtml {| response := ValidateResponseOther "SomethingElse" fresh |}
    <> Throw (ValidationErrorException "unknown validation response type") /\
    okEmail {| response := ValidateResponseOther "SomethingElse" fresh' |}
    <> Throw (ValidationErrorException "unknown validation response type").
Proof.
  exists eq_refl, eq_refl. split; cbn; intros H; discriminate H.
Qed.

End Unwrappers.

(** ** The job client: [request] and [pollResult] *)

Section JobClient.

Import Fetch.

Context {Out : Type}.
Variable schema : Json -> option Out.

Lemma throw_http_error_envelope (res : Response) data envelope :
  json res = Some data ->
  HttpErrorResponseSchema data = Some envelope ->
  throw_http_error (Out := Out) res
  = Throw (ApiErrorException (status_code envelope) (api_error envelope)).
Proof.
  intros Hj Hp. unfold throw_http_error, res_json, parse.
  now rewrite Hj, Hp.
Qed.

Lemma throw_http_error_other (res : Response) :
  (json res = None \/
   exists data, json res = Some data /\ HttpErrorResponseSchema data = None) ->
  throw_http_error (Out := Out) res = Throw (TransportError res).
Proof.
  unfold throw_http_error, res_json, parse.
  intros [Hj | (data & Hj & Hp)].
  - now rewrite Hj.
  - now rewrite Hj, Hp.
Qed.

Lemma throw_http_error_not_timeout (res : Response) :
  throw_http_error (Out := Out) res <> Throw PollTimeoutError.
Proof.
  unfold throw_http_error, res_json, parse, PollTimeoutError.
  destruct (json res) as [data|]; cbn.
  - destruct (HttpErrorResponseSchema data); cbn; intros H; discriminate H.
  - intros H; discriminate H.
Qed.

Lemma pollResult_turn_202 (retry_count : nat) (res : Response) :
  status res = 202 ->
  pollResult_turn schema retry_count (Responded res)
  = if Nat.ltb MAX_RETRIES (S retry_count)
    then Settle (Throw PollTimeoutError)
    else Continue (S retry_count).
Proof. intros H. unfold pollResult_turn. now rewrite H. Qed.

(** A turn settles with the timeout error only on a 202. *)
Lemma pollResult_turn_timeout (retry_count : nat) (fetched : FetchResult) :
  pollResult_turn schema retry_count fetched
  = Settle (Throw PollTimeoutError) ->
  (exists res, fetched = Responded res /\ status res = 202) /\
  (MAX_RETRIES <= retry_count)%nat.
Proof.
  unfold pollResult_turn. destruct fetched as [res|]; [|discriminate].
  destruct (Z.eqb (status res) 200) eqn:E200.
  - unfold res_json, parse. destruct (json res) as [data|]; [|discriminate].
    destruct (schema data); discriminate.
  - destruct (Z.eqb (status res) 202) eqn:E202.
    + apply Z.eqb_eq in E202.
      destruct (Nat.ltb MAX_RETRIES (S retry_count)) eqn:El; [|discriminate].
      apply Nat.ltb_lt in El. intros _. split; [eauto | lia].
    + intros H. injection H as H.
      now apply throw_http_error_not_timeout in H.
Qed.

Lemma pollResult_turn_continue (retry_count rc' : nat) (fetched : FetchResult) :
  pollResult_turn schema retry_count fetched = Continue rc' ->
  (exists res, fetched = Responded res /\ status res = 202) /\
  rc' = S retry_count /\ (rc' <= MAX_RETRIES)%nat.
Proof.
  unfold pollResult_turn. destruct fetched as [res|]; [|discriminate].
  destruct (Z.eqb (status res) 200); [discriminate|].
  destruct (Z.eqb (status res) 202) eqn:E202; [|discriminate].
  apply Z.eqb_eq in E202.
  destruct (Nat.ltb MAX_RETRIES (S retry_count)) eqn:El; [discriminate|].
  apply Nat.ltb_ge in El. intros H. injection H as <-. eauto.
Qed.

Variable fetch : nat -> FetchResult.

(** A run of [k] answers 202 is [k] turns of the loop. *)
Lemma pollResult_loop_skip (k : nat) :
  forall fuel polls retry_count,
    (forall i, (i < k)%nat -> responds_202 fetch (polls + i)) ->
    (retry_count + k <= MAX_RETRIES)%nat ->
    pollResult_loop schema fetch (k + fuel) polls retry_count
    = pollResult_loop schema fetch fuel (polls + k) (retry_count + k).
Proof.
  induction k as [|k IH]; intros fuel polls rc H202 Hle.
  - now rewrite !Nat.add_0_r.
  - destruct (H202 0%nat) as (res & Hf & Hs); [lia|].
    rewrite Nat.add_0_r in Hf. cbn [Nat.add pollResult_loop].
    rewrite Hf, (pollResult_turn_202 _ _ Hs).
    destruct (Nat.ltb MAX_RETRIES (S rc)) eqn:El.
    { apply Nat.ltb_lt in El. lia. }
    rewrite IH.
    + f_equal; lia.
    + intros i Hi. replace (S polls + i)%nat with (polls + S i)%nat by lia.
      apply H202. lia.
    + lia.
Qed.

(** The loop always settles within the retry ceiling. *)
Lemma pollResult_loop_total :
  forall fuel polls retry_count,
    (retry_count <= MAX_RETRIES)%nat ->
    (MAX_RETRIES < fuel + retry_count)%nat ->
    pollResult_loop schema fetch fuel polls retry_count <> None.
Proof.
  induction fuel as [|fuel IH]; intros polls rc Hle Hlt; [cbn in Hlt; lia|].
  cbn [pollResult_loop].
  destruct (pollResult_turn schema rc (fetch polls)) as [rc'|result] eqn:Et;
    [|discriminate].
  apply pollResult_turn_continue in Et as (_ & -> & Hrc').
  apply IH; lia.
Qed.

(** A timeout means every turn so far saw a 202, up to the ceiling. *)
Lemma pollResult_loop_timeout :
  forall fuel polls retry_count n,
    pollResult_loop schema fetch fuel polls retry_count
    = Some (Throw PollTimeoutError, n) ->
    forall i, (retry_count + i <= MAX_RETRIES)%nat ->
              responds_202 fetch (polls + i).
Proof.
  induction fuel as [|fuel IH]; intros polls rc n Hrun i Hi; [discriminate|].
  cbn [pollResult_loop] in Hrun.
  destruct (pollResult_turn schema rc (fetch polls)) as [rc'|result] eqn:Et.
  - apply pollResult_turn_continue in Et as (H202 & -> & Hrc').
    destruct i as [|i]; [now rewrite Nat.add_0_r|].
    replace (polls + S i)%nat with (S polls + i)%nat by lia.
    apply (IH _ _ _ Hrun). lia.
  - injection Hrun as -> _.
    apply pollResult_turn_timeout in Et as (H202 & Hrc).
    assert (i = 0%nat) as -> by lia. now rewrite Nat.add_0_r.
Qed.

(** C1. Whenever the server answers 200 after at most 120 answers 202,
    [pollResult] returns that body parsed against the result schema;
    it fails with the timeout error exactly when the first 121 answers
    are all 202; a 202 below the ceiling only increments [retry_count] and
    goes straight to the next request; and the call always settles: any
    fuel above the ceiling is enough. *)
Theorem pollResult_protocol (fuel : nat) :
  (MAX_RETRIES < fuel)%nat ->
  (forall k res data out,
      (k <= MAX_RETRIES)%nat ->
      (forall i, (i < k)%nat -> responds_202 fetch i) ->
      fetch k = Responded res -> status res = 200 ->
      json res = Some data -> schema data = Some out ->
      pollResult schema fetch fuel = Some (Return out, S k)) /\
  ((exists n, pollResult schema fetch fuel = Some (Throw PollTimeoutError, n))
   <-> (forall i, (i <= MAX_RETRIES)%nat -> responds_202 fetch i)) /\
  (forall retry_count res,
      status res = 202 -> (retry_count < MAX_RETRIES)%nat ->
      pollResult_turn schema retry_count (Responded res)
      = Continue (S retry_count)) /\
  (forall polls retry_count fuel',
      responds_202 fetch polls -> (retry_count < MAX_RETRIES)%nat ->
      pollResult_loop schema fetch (S fuel') polls retry_count
      = pollResult_loop schema fetch fuel' (S polls) (S retry_count)) /\
  (exists result polls, pollResult schema fetch fuel = Some (result, polls)).
Proof.
  intros Hfuel. split; [|split; [split|split; [|split]]].
  - intros k res data out Hk H202 Hf Hs Hj Hp. unfold pollResult.
    replace fuel with (k + S (fuel - S k))%nat
      by (unfold MAX_RETRIES in *; lia).
    rewrite pollResult_loop_skip; [|exact H202|lia].
    cbn [Nat.add pollResult_loop]. rewrite Hf. unfold pollResult_turn.
    rewrite Hs. cbn. unfold res_json, parse. now rewrite Hj, Hp.
  - intros [n Hrun] i Hi.
    apply (pollResult_loop_timeout fuel 0%nat 0%nat n Hrun i). exact Hi.
  - intros H202. unfold pollResult.
    replace fuel with (MAX_RETRIES + S (fuel - S MAX_RETRIES))%nat
      by (unfold MAX_RETRIES in *; lia).
    rewrite pollResult_loop_skip; [|intros i Hi; apply H202; lia|lia].
    destruct (H202 MAX_RETRIES) as (res & Hf & Hs); [lia|].
    cbn [Nat.add pollResult_loop]. rewrite Hf, (pollResult_turn_202 _ _ Hs).
    rewrite (proj2 (Nat.ltb_lt _ _)) by lia. eauto.
  - intros rc res Hs Hrc. rewrite (pollResult_turn_202 _ _ Hs).
    now rewrite (proj2 (Nat.ltb_ge _ _)) by lia.
  - intros polls rc fuel' (res & Hf & Hs) Hrc. cbn [pollResult_loop].
    rewrite Hf, (pollResult_turn_202 _ _ Hs).
    now rewrite (proj2 (Nat.ltb_ge _ _)) by lia.
  - pose proof (pollResult_loop_total fuel 0%nat 0%nat) as Htotal.
    unfold pollResult.
    destruct (pollResult_loop schema fetch fuel 0 0) as [[result polls]|].
    + now exists result, polls.
    + exfalso. apply Htotal; [lia | lia | reflexivity].
Qed.

End JobClient.

Section JobClientExamples.

Import Fetch Samples.
Local Open Scope string_scope.

Lemma pollResult_protocol_witness :
  pollResult TaskCreatedResponseSchema two_pending_then_ready 121
  = Some (Return {| job_id := "job-7" |}, 3%nat).
Proof.
  assert (Hfuel : (MAX_RETRIES < 121)%nat) by (unfold MAX_RETRIES; lia).
  apply (proj1 (pollResult_protocol TaskCreatedResponseSchema
                  two_pending_then_ready 121 Hfuel)
           2%nat
           {| status := 200; statusText := "OK";
              json := Some (JObject [("job_id", JString "job-7")]) |}
           (JObject [("job_id", JString "job-7")])).
  - unfold MAX_RETRIES; lia.
  - intros i Hi. unfold responds_202, two_pending_then_ready.
    rewrite (proj2 (Nat.ltb_lt i 2) Hi). eexists; split; reflexivity.
  - reflexivity.
  - reflexivity.
  - reflexivity.
  - reflexivity.
Defined.

(** C8 (amended). A submit ([post]) returns the parsed created-job
    descriptor whenever the status is 200 or 201 and the body matches the
    schema.  For any other status seen by a request, and for any status other
    than 200 and 202 seen by a poll, the call fails with the
    [ApiErrorException] built from the error envelope, numeric code
    included, when the body parses as the envelope, and otherwise with the
    plain status-line [Error]. *)
Theorem request_and_poll_failures :
  (forall res data task,
      status res = 200 \/ status res = 201 ->
      json res = Some data -> TaskCreatedResponseSchema data = Some task ->
      post (Responded res) TaskCreatedResponseSchema = Return task) /\
  (forall (Out : Type) (schema : Json -> option Out) res,
      status res <> 200 -> status res <> 201 ->
      (forall data envelope,
          json res = Some data ->
          HttpErrorResponseSchema data = Some envelope ->
          request (Responded res) schema
          = Throw (ApiErrorException (status_code envelope)
                     {| code := code (api_error envelope);
                        name := name (api_error envelope);
                        message := message (api_error envelope) |})) /\
      ((json res = None \/
        exists data, json res = Some data /\
                     HttpErrorResponseSchema data = None) ->
       request (Responded res) schema = Throw (TransportError res))) /\
  (forall (Out : Type) (schema : Json -> option Out) fetch fuel k res,
      (MAX_RETRIES < fuel)%nat -> (k <= MAX_RETRIES)%nat ->
      (forall i, (i < k)%nat -> responds_202 fetch i) ->
      fetch k = Responded res ->
      status res <> 200 -> status res <> 202 ->
      (forall data envelope,
          json res = Some data ->
          HttpErrorResponseSchema data = Some envelope ->
          pollResult schema fetch fuel
          = Some (Throw (ApiErrorException (status_code envelope)
                           {| code := code (api_error envelope);
                              name := name (api_error envelope);
                              message := message (api_error envelope) |}),
                  S k)) /\
      ((json res = None \/
        exists data, json res = Some data /\
                     HttpErrorResponseSchema data = None) ->
       pollResult schema fetch fuel = Some (Throw (TransportError res), S k))).
Proof.
  assert (Heta : forall e : ApiError,
             {| code := code e; name := name e; message := message e |} = e)
    by (now intros []).
  split; [|split].
  - intros res data task Hs Hj Hp. unfold post, request, res_json, parse.
    assert (Z.eqb (status res) 200 || Z.eqb (status res) 201 = true) as ->
      by (destruct Hs as [-> | ->]; reflexivity).
    now rewrite Hj, Hp.
  - intros Out schema res H200 H201. unfold request.
    rewrite (proj2 (Z.eqb_neq _ _) H200), (proj2 (Z.eqb_neq _ _) H201).
    cbn [orb]. split.
    + intros data envelope Hj Hp. rewrite Heta.
      now apply throw_http_error_envelope with data.
    + apply throw_http_error_other.
  - intros Out schema fetch fuel k res Hfuel Hk H202 Hf H200 H2.
    assert (Hrun : pollResult schema fetch fuel
                   = Some (throw_http_error res, S k)).
    { unfold pollResult.
      replace fuel with (k + S (fuel - S k))%nat
        by (unfold MAX_RETRIES in *; lia).
      rewrite pollResult_loop_skip; [|exact H202|lia].
      cbn [Nat.add pollResult_loop]. rewrite Hf. unfold pollResult_turn.
      now rewrite (proj2 (Z.eqb_neq _ _) H200), (proj2 (Z.eqb_neq _ _) H2). }
    rewrite Hrun. split.
    + intros data envelope Hj Hp. rewrite Heta.
      now rewrite (throw_http_error_envelope res data envelope).
    + intros H. now rewrite throw_http_error_other.
Qed.

Lemma request_and_poll_failures_witness :
  post (Responded {| status := 201; statusText := "Created";
                     json := Some (JObject [("job_id", JString "job-7")]) |})
    TaskCreatedResponseSchema
  = Return {| job_id := "job-7" |} /\
  request (Responded {| status := 413; statusText := "Payload Too Large";
                        json := Some pdf_too_large |})
    TaskCreatedResponseSchema
  = Throw (ApiErrorException 413
             {| code := 301; name := "PDF_TOO_LARGE";
                message := "too large" |}) /\
  request (Responded {| status := 502; statusText := "Bad Gateway";
                        json := None |})
    TaskCreatedResponseSchema
  = Throw (Error "HTTP error! status: 502 Bad Gateway").
Proof.
  split; [|split].
  - apply (proj1 request_and_poll_failures) with
      (data := JObject [("job_id", JString "job-7")]).
    + right; reflexivity.
    + reflexivity.
    + reflexivity.
  - apply (proj1 (proj1 (proj2 request_and_poll_failures)
                    TaskCreatedResponse TaskCreatedResponseSchema
                    {| status := 413; statusText := "Payload Too Large";
                       json := Some pdf_too_large |}
                    ltac:(discriminate) ltac:(discriminate))
             pdf_too_large
             {| status_code := 413;
                api_error := {| code := 301; name := "PDF_TOO_LARGE";
                                message := "too large" |} |}).
    + reflexivity.
    + reflexivity.
  - apply (proj2 (proj1 (proj2 request_and_poll_failures)
                    TaskCreatedResponse TaskCreatedResponseSchema
                    {| status := 502; statusText := "Bad Gateway";
                       json := None |}
                    ltac:(discriminate) ltac:(discriminate))).
    left; reflexivity.
Defined.

(** C8 as stated fails on a 2xx status other than 200 and 201: a submit
    answered 202 with a well-formed job descriptor does not return it. *)
Lemma submit_2xx_counterexample :
  let res := {| status := 202; statusText := "Accepted";
                json := Some (JObject [("job_id", JString "job-7")]) |} in
  (200 <= status res <= 299) /\
  obind (json res) TaskCreatedResponseSchema = Some {| job_id := "job-7" |} /\
  post (Responded res) TaskCreatedResponseSchema
  = Throw (Error "HTTP error! status: 202 Accepted").
Proof. cbn. repeat split; try lia; reflexivity. Qed.

End JobClientExamples.

(** ** Double precision rounding *)

Section Doubles.

Import Number.
Local Open Scope Q_scope.

Lemma round_half_even_proper (x y : Q) :
  x == y -> round_half_even x = round_half_even y.
Proof.
  intros H. unfold round_half_even.
  assert (Ef : Qfloor x = Qfloor y) by now apply Qfloor_comp.
  rewrite <- Ef.
  assert (Ec : Qcompare (x - inject_Z (Qfloor x)) (1 # 2)
               = Qcompare (y - inject_Z (Qfloor x)) (1 # 2)).
  { apply Qcompare_comp; [|reflexivity]. now apply Qplus_comp. }
  now rewrite Ec.
Qed.

Lemma round_half_even_Z (k : Z) : round_half_even (inject_Z k) = k.
Proof.
  unfold round_half_even. rewrite Qfloor_Z.
  destruct (Qcompare_spec (inject_Z k - inject_Z k) (1 # 2)) as [H|H|H].
  - exfalso. lra.
  - reflexivity.
  - exfalso. lra.
Qed.

Lemma round_half_even_bounds (x : Q) :
  (Qfloor x <= round_half_even x <= Qfloor x + 1)%Z.
Proof.
  unfold round_half_even.
  destruct (Qcompare _ _); [destruct (Z.even _)| |]; lia.
Qed.

Lemma round_half_even_le (x y : Q) :
  x <= y -> (round_half_even x <= round_half_even y)%Z.
Proof.
  intros Hxy. pose proof (Qfloor_resp_le x y Hxy) as Hf.
  pose proof (round_half_even_bounds x) as Hx.
  pose proof (round_half_even_bounds y) as Hy.
  destruct (Z.eq_dec (Qfloor x) (Qfloor y)) as [E|N]; [|lia].
  unfold round_half_even in *. rewrite <- E in *.
  destruct (Qcompare_spec (x - inject_Z (Qfloor x)) (1 # 2)) as [H|H|H];
    destruct (Qcompare_spec (y - inject_Z (Qfloor x)) (1 # 2)) as [H'|H'|H'];
    try lia; try (exfalso; lra);
    destruct (Z.even (Qfloor x)); lia.
Qed.

Lemma pow2_pos (e : Z) : 0 < 2 ^ e.
Proof. now apply Qpower_0_lt. Qed.

Lemma pow2_succ (e : Z) : 2 ^ (e + 1) == 2 * 2 ^ e.
Proof. rewrite Qpower_plus by discriminate. cbn. ring. Qed.

Lemma pow2_Z (k : Z) : (0 <= k)%Z -> 2 ^ k == inject_Z (2 ^ k).
Proof. intros H. now rewrite Zpower_Qpower. Qed.

Lemma floor_log2_spec (q : Q) :
  0 < q -> 2 ^ floor_log2 q <= q /\ q < 2 ^ (floor_log2 q + 1).
Proof.
  intros Hq. destruct q as [n d]. unfold floor_log2. cbn [Qnum Qden].
  assert (Hn : (0 < n)%Z) by (unfold Qlt in Hq; cbn in Hq; lia).
  pose proof (Z.log2_spec n Hn) as [Ha1 Ha2].
  pose proof (Z.log2_spec (Zpos d) (Pos2Z.is_pos d)) as [Hb1 Hb2].
  pose proof (Z.log2_nonneg n) as Ha0.
  pose proof (Z.log2_nonneg (Zpos d)) as Hb0.
  remember (Z.log2 n) as a eqn:Ea. remember (Z.log2 (Zpos d)) as b eqn:Eb.
  clear Ea Eb.
  rewrite Z.pow_succ_r in Ha2, Hb2 by assumption.
  assert (HA : (0 < 2 ^ a)%Z) by (apply Z.pow_pos_nonneg; lia).
  assert (HB : (0 < 2 ^ b)%Z) by (apply Z.pow_pos_nonneg; lia).
  assert (He : 2 ^ (a - b) * inject_Z (2 ^ b) == inject_Z (2 ^ a)).
  { rewrite Qpower_minus by discriminate.
    rewrite <- !pow2_Z by assumption. field.
    apply Qpower_not_0. discriminate. }
  assert (HBq : 0 < inject_Z (2 ^ b)).
  { change 0 with (inject_Z 0). now rewrite <- Zlt_Qlt. }
  remember (2 ^ a)%Z as A eqn:EA. remember (2 ^ b)%Z as B eqn:EB.
  clear EA EB.
  assert (Hup : n # d < 2 * 2 ^ (a - b)).
  { apply (Qmult_lt_r _ _ (inject_Z B) HBq).
    rewrite <- Qmult_assoc, He.
    unfold Qlt, Qmult, inject_Z. cbn -[Z.mul]. nia. }
  assert (Hlow : 2 ^ (a - b) <= 2 * (n # d)).
  { apply (Qmult_le_r _ _ (inject_Z B) HBq).
    rewrite He.
    unfold Qle, Qmult, inject_Z. cbn -[Z.mul]. nia. }
  destruct (Qle_bool (2 ^ (a - b)) (n # d)) eqn:E.
  - apply Qle_bool_iff in E. split; [assumption|].
    now rewrite pow2_succ.
  - assert (Hlt : n # d < 2 ^ (a - b)).
    { apply Qnot_le_lt. intros H. apply Qle_bool_iff in H. congruence. }
    replace (a - b - 1 + 1)%Z with (a - b)%Z by lia. split; [|assumption].
    assert (H2 : 2 ^ (a - b) == 2 * 2 ^ (a - b - 1)).
    { rewrite <- pow2_succ.
      now replace (a - b - 1 + 1)%Z with (a - b)%Z by lia. }
    lra.
Qed.

Lemma to_multiple_le (exponent : Z) (x y : Q) :
  x <= y -> to_multiple exponent x <= to_multiple exponent y.
Proof.
  intros H. unfold to_multiple.
  apply Qmult_le_compat_r; [|apply Qlt_le_weak, pow2_pos].
  rewrite <- Zle_Qle. apply round_half_even_le.
  apply Qmult_le_compat_r; [assumption|].
  apply Qlt_le_weak, Qinv_lt_0_compat, pow2_pos.
Qed.

Lemma to_multiple_pow2 (exponent k : Z) :
  (exponent <= k)%Z -> to_multiple exponent (2 ^ k) == 2 ^ k.
Proof.
  intros H. unfold to_multiple.
  assert (E : 2 ^ k / 2 ^ exponent == inject_Z (2 ^ (k - exponent))).
  { rewrite <- pow2_Z by lia. now rewrite Qpower_minus by discriminate. }
  rewrite (round_half_even_proper _ _ E), round_half_even_Z.
  rewrite <- E. field. apply Qpower_not_0. discriminate.
Qed.

Lemma to_multiple_0 (exponent : Z) : to_multiple exponent 0 == 0.
Proof.
  unfold to_multiple.
  assert (E : 0 / 2 ^ exponent == inject_Z 0).
  { unfold Qdiv. now rewrite Qmult_0_l. }
  rewrite (round_half_even_proper _ _ E), round_half_even_Z.
  apply Qmult_0_l.
Qed.

Lemma binary64_proper (x y : Q) : x == y -> binary64 x = binary64 y.
Proof.
  intros H. unfold binary64. now rewrite (Qred_complete _ _ H).
Qed.

Lemma binary64_0 : binary64 0 = 0.
Proof. reflexivity. Qed.

Lemma binary64_1 : binary64 1 = 1.
Proof. vm_compute. reflexivity. Qed.

Lemma binary64_100 : binary64 100 = 100.
Proof. vm_compute. reflexivity. Qed.

(** Some doubles: 0.1 and 1/3 as JavaScript holds them; ties go to the
    even significand, above 2^53 and among the subnormals. *)
Lemma binary64_known_values :
  binary64 (1 # 10) = 3602879701896397 # 36028797018963968 /\
  binary64 (1 # 3) = 6004799503160661 # 18014398509481984 /\
  binary64 (- (1 # 3)) = - (6004799503160661 # 18014398509481984) /\
  binary64 (inject_Z (2 ^ 53 + 1)) = inject_Z (2 ^ 53) /\
  binary64 (inject_Z (2 ^ 53 + 3)) = inject_Z (2 ^ 53 + 4) /\
  binary64 (1 # (2 ^ 1075)) = 0 /\
  binary64 (3 # (2 ^ 1075)) = 1 # (2 ^ 1073).
Proof. vm_compute. repeat split. Qed.

Lemma ulp_exponent_le (x y : Q) :
  0 < x -> x <= y ->
  (ulp_exponent x <= ulp_exponent y)%Z /\
  ((ulp_exponent x < ulp_exponent y)%Z ->
   x <= 2 ^ (ulp_exponent y + 52) /\ 2 ^ (ulp_exponent y + 52) <= y).
Proof.
  intros Hx Hxy. assert (Hy : 0 < y) by lra.
  unfold ulp_exponent.
  assert (Hax : 0 < Qabs x) by (rewrite Qabs_pos; lra).
  assert (Hay : 0 < Qabs y) by (rewrite Qabs_pos; lra).
  pose proof (floor_log2_spec _ Hax) as [Hx1 Hx2].
  pose proof (floor_log2_spec _ Hay) as [Hy1 Hy2].
  assert (Eax : Qabs x == x) by (apply Qabs_pos; lra).
  assert (Eay : Qabs y == y) by (apply Qabs_pos; lra).
  remember (floor_log2 (Qabs x)) as ex eqn:Eex.
  remember (floor_log2 (Qabs y)) as ey eqn:Eey. clear Eex Eey.
  rewrite Eax in Hx1, Hx2. rewrite Eay in Hy1, Hy2.
  assert (Hlt : (ex < ey + 1)%Z).
  { apply (Qpower_lt_compat_l_inv 2); [lra | reflexivity]. }
  split; [lia|]. intros Hu.
  assert (Ey : Z.max (ey - 52) (-1074) = (ey - 52)%Z) by lia.
  rewrite Ey. replace (ey - 52 + 52)%Z with ey by lia.
  split; [|assumption].
  apply Qlt_le_weak, (Qlt_le_trans _ _ _ Hx2).
  apply Qpower_le_compat_l; [lia | discriminate].
Qed.

Lemma binary64_value (x : Q) :
  binary64 x == to_multiple (ulp_exponent (Qred x)) (Qred x).
Proof. unfold binary64. apply Qred_correct. Qed.

Lemma binary64_nonneg (x : Q) : 0 <= x -> 0 <= binary64 x.
Proof.
  intros H. rewrite binary64_value.
  rewrite <- (to_multiple_0 (ulp_exponent (Qred x))).
  apply to_multiple_le. now rewrite Qred_correct.
Qed.

Lemma binary64_le (x y : Q) : 0 <= x -> x <= y -> binary64 x <= binary64 y.
Proof.
  intros Hx Hxy. destruct (Qlt_le_dec 0 x) as [Hpos|H0].
  - rewrite (binary64_value x), (binary64_value y).
    assert (Hx' : 0 < Qred x) by now rewrite Qred_correct.
    assert (Hxy' : Qred x <= Qred y) by now rewrite !Qred_correct.
    destruct (ulp_exponent_le _ _ Hx' Hxy') as [Hle Hcross].
    destruct (Z.eq_dec (ulp_exponent (Qred x)) (ulp_exponent (Qred y)))
      as [E|N].
    + rewrite E. now apply to_multiple_le.
    + destruct Hcross as [H1 H2]; [lia|].
      apply Qle_trans with (2 ^ (ulp_exponent (Qred y) + 52)).
      * rewrite <- (to_multiple_pow2 (ulp_exponent (Qred x))
                      (ulp_exponent (Qred y) + 52)) by lia.
        now apply to_multiple_le.
      * rewrite <- (to_multiple_pow2 (ulp_exponent (Qred y))
                      (ulp_exponent (Qred y) + 52)) at 1 by lia.
        now apply to_multiple_le.
  - assert (E : x == 0) by lra.
    rewrite (binary64_proper _ _ E), binary64_0.
    apply binary64_nonneg. lra.
Qed.

Lemma to_multiple_Z (exponent n : Z) :
  (exponent <= 0)%Z -> to_multiple exponent (inject_Z n) == inject_Z n.
Proof.
  intros H. unfold to_multiple.
  assert (Hp : 2 ^ exponent * inject_Z (2 ^ (- exponent)) == 1).
  { rewrite <- pow2_Z by lia. rewrite <- Qpower_plus by discriminate.
    now replace (exponent + - exponent)%Z with 0%Z by lia. }
  assert (E : inject_Z n / 2 ^ exponent
              == inject_Z (n * 2 ^ (- exponent))).
  { rewrite inject_Z_mult. apply Qmult_inj_r with (2 ^ exponent).
    - apply Qpower_not_0. discriminate.
    - rewrite <- Qmult_assoc, (Qmult_comm (inject_Z (2 ^ (- exponent)))), Hp.
      field. apply Qpower_not_0. discriminate. }
  rewrite (round_half_even_proper _ _ E), round_half_even_Z.
  rewrite inject_Z_mult, <- Qmult_assoc.
  rewrite (Qmult_comm (inject_Z (2 ^ (- exponent)))), Hp. ring.
Qed.

(** A safe integer is a double. *)
Lemma binary64_safe (n : Z) :
  isSafeInteger n -> binary64 (inject_Z n) = inject_Z n.
Proof.
  unfold isSafeInteger, MAX_SAFE_INTEGER. intros Hn.
  assert (Er : Qred (inject_Z n) = inject_Z n).
  { unfold Qred, inject_Z.
    pose proof (Z.ggcd_gcd n 1) as Hg.
    pose proof (Z.ggcd_correct_divisors n 1) as Hd.
    destruct (Z.ggcd n 1) as [g [a b]]. cbn [fst snd] in *.
    rewrite Z.gcd_1_r in Hg. subst g. destruct Hd as [Ha Hb].
    rewrite Z.mul_1_l in Ha, Hb. now subst. }
  unfold binary64. rewrite Er. rewrite <- Er at 3. apply Qred_complete.
  apply to_multiple_Z.
  destruct (Z.eq_dec n 0) as [->|Hne]; [vm_compute; discriminate|].
  assert (Hpos : 0 < Qabs (inject_Z n)).
  { change (Qabs (inject_Z n)) with (inject_Z (Z.abs n)).
    change 0 with (inject_Z 0). rewrite <- Zlt_Qlt. lia. }
  destruct (floor_log2_spec _ Hpos) as [Hlow _].
  unfold ulp_exponent.
  assert (Hlt : 2 ^ floor_log2 (Qabs (inject_Z n)) < 2 ^ 53).
  { apply (Qle_lt_trans _ _ _ Hlow).
    change (Qabs (inject_Z n)) with (inject_Z (Z.abs n)).
    rewrite (pow2_Z 53) by lia. rewrite <- Zlt_Qlt. lia. }
  apply Qpower_lt_compat_l_inv in Hlt; [lia | reflexivity].
Qed.

End Doubles.

(** ** Percentages *)

Section Percentages.

Import Number Data.
Local Open Scope Q_scope.

Lemma binary64_inject_Z_pos (n : Z) : (0 < n)%Z -> 0 < binary64 (inject_Z n).
Proof.
  intros Hn. apply Qlt_le_trans with 1; [reflexivity|].
  rewrite <- binary64_1. apply binary64_le; [discriminate|].
  change 1 with (inject_Z 1). rewrite <- Zle_Qle. lia.
Qed.

Lemma binary64_inject_Z_le (a b : Z) :
  (0 <= a)%Z -> (a <= b)%Z ->
  0 <= binary64 (inject_Z a) /\
  binary64 (inject_Z a) <= binary64 (inject_Z b).
Proof.
  intros Ha Hab.
  assert (H0 : 0 <= inject_Z a)
    by (change 0 with (inject_Z 0); now rewrite <- Zle_Qle).
  split; [now apply binary64_nonneg|].
  apply binary64_le; [assumption | now rewrite <- Zle_Qle].
Qed.

(** The quotient of two byte counts, as the division rounds it *)
Lemma quotient_le (a b total : Z) :
  (0 < total)%Z -> (0 <= a)%Z -> (a <= b)%Z ->
  0 <= binary64 (inject_Z a) / binary64 (inject_Z total) /\
  binary64 (inject_Z a) / binary64 (inject_Z total)
  <= binary64 (inject_Z b) / binary64 (inject_Z total).
Proof.
  intros Ht Ha Hab.
  pose proof (binary64_inject_Z_pos total Ht) as Hpos.
  destruct (binary64_inject_Z_le a b Ha Hab) as [H0 Hle].
  assert (Hinv : 0 <= / binary64 (inject_Z total))
    by now apply Qlt_le_weak, Qinv_lt_0_compat.
  split.
  - now apply Qmult_le_0_compat.
  - now apply Qmult_le_compat_r.
Qed.

Lemma percent_of_le (a b total : Z) :
  (0 < total)%Z -> (0 <= a)%Z -> (a <= b)%Z ->
  percent_of a total <= percent_of b total.
Proof.
  intros Ht Ha Hab. unfold percent_of.
  destruct (quotient_le a b total Ht Ha Hab) as [H0 Hle].
  pose proof (binary64_nonneg _ H0) as H0'.
  pose proof (binary64_le _ _ H0 Hle) as Hle'.
  apply binary64_le.
  - apply Qmult_le_0_compat; [assumption | discriminate].
  - apply Qmult_le_compat_r; [assumption | discriminate].
Qed.

Lemma percent_of_0 (total : Z) : percent_of 0 total = 0.
Proof.
  unfold percent_of. change (binary64 (inject_Z 0)) with 0.
  assert (E : 0 / binary64 (inject_Z total) == 0)
    by (unfold Qdiv; apply Qmult_0_l).
  rewrite (binary64_proper _ _ E). reflexivity.
Qed.

Lemma percent_of_nonneg (a total : Z) :
  (0 < total)%Z -> (0 <= a)%Z -> 0 <= percent_of a total.
Proof.
  intros Ht Ha. rewrite <- (percent_of_0 total).
  apply percent_of_le; [assumption | lia | assumption].
Qed.

Lemma percent_of_full (total : Z) :
  (0 < total)%Z -> percent_of total total = 100.
Proof.
  intros Ht. unfold percent_of.
  pose proof (binary64_inject_Z_pos total Ht) as Hpos.
  assert (E : binary64 (inject_Z total) / binary64 (inject_Z total) == 1).
  { unfold Qdiv. apply Qmult_inv_r. intros H. rewrite H in Hpos.
    discriminate. }
  rewrite (binary64_proper _ _ E), binary64_1. reflexivity.
Qed.

Lemma percent_of_le_100 (a total : Z) :
  (0 < total)%Z -> (0 <= a)%Z -> (a <= total)%Z -> percent_of a total <= 100.
Proof.
  intros Ht Ha Hle. rewrite <- (percent_of_full total Ht).
  now apply percent_of_le.
Qed.

End Percentages.

(** ** Downloads *)

Section Download.

Import Data.

Lemma received_after_cons (k : nat) (c : list byte) (cs : list (list byte)) :
  received_after (S k) (c :: cs)
  = Z.of_nat (List.length c) + received_after k cs.
Proof. unfold received_after. cbn. rewrite length_app. lia. Qed.

Lemma received_after_all (cs : list (list byte)) :
  received_after (List.length cs) cs = Z.of_nat (List.length (List.concat cs)).
Proof. unfold received_after. now rewrite firstn_all. Qed.

Lemma received_after_mono (cs : list (list byte)) :
  forall j k, (j <= k)%nat -> received_after j cs <= received_after k cs.
Proof.
  induction cs as [|c cs IH]; intros j k Hjk.
  - unfold received_after. now rewrite !firstn_nil.
  - destruct j as [|j]; destruct k as [|k]; try lia.
    + unfold received_after. cbn. lia.
    + rewrite !received_after_cons. specialize (IH j k). lia.
Qed.

Lemma received_after_bounds (chunks : list (list byte)) (k : nat) :
  (0 <= received_after k chunks
   <= Z.of_nat (List.length (List.concat chunks)))%Z.
Proof.
  split; [unfold received_after; lia|].
  destruct (Nat.le_gt_cases k (List.length chunks)) as [Hle|Hgt].
  - rewrite <- received_after_all. now apply received_after_mono.
  - unfold received_after. rewrite firstn_all2 by lia. lia.
Qed.

(** The read loop over a body that arrives whole: every chunk is kept, in
    order, and after the [k]-th one the bytes received so far are
    reported against [total]. *)
Lemma read_loop_chunks (total : Z) (cs : list (list byte)) :
  forall chunks loaded,
    read_loop (map Chunk cs) total chunks loaded
    = (Return ((chunks ++ cs)%list,
               (loaded + List.length (List.concat cs))%nat),
       map (fun k => percent_of (Z.of_nat loaded + received_after k cs) total)
           (seq 1 (List.length cs))).
Proof.
  induction cs as [|c cs IH]; intros chunks loaded; cbn [map read_loop].
  - cbn. now rewrite app_nil_r, Nat.add_0_r.
  - rewrite IH. cbn [List.length seq map List.concat].
    rewrite <- app_assoc, length_app. cbn [app].
    rewrite Nat.add_assoc. f_equal. f_equal.
    + f_equal. rewrite received_after_cons.
      unfold received_after. cbn. lia.
    + rewrite <- (seq_shift (List.length cs) 1), map_map.
      apply map_ext. intros k.
      rewrite received_after_cons. f_equal. lia.
Qed.

(** Writing the chunks one after the other into a buffer of the right
    size rebuilds their concatenation. *)
Lemma combine_chunks_concat (cs : list (list byte)) :
  forall before rest,
    List.length rest = List.length (List.concat cs) ->
    combine_chunks cs (before ++ rest)%list (List.length before)
    = Return (before ++ List.concat cs)%list.
Proof.
  induction cs as [|c cs IH]; intros before rest Hlen; cbn in *.
  - apply length_zero_iff_nil in Hlen. now subst.
  - rewrite length_app in Hlen. unfold Uint8Array_set.
    rewrite (proj2 (Nat.leb_le _ _)) by (rewrite length_app; lia).
    rewrite firstn_app, firstn_all, Nat.sub_diag, firstn_O, app_nil_r.
    rewrite skipn_app, skipn_all2 by lia.
    replace (List.length before + List.length c - List.length before)%nat
      with (List.length c) by lia.
    cbn [app].
    replace (before ++ c ++ skipn (List.length c) rest)%list
      with ((before ++ c) ++ skipn (List.length c) rest)%list
      by now rewrite app_assoc.
    replace (List.length before + List.length c)%nat
      with (List.length (before ++ c)%list) by now rewrite length_app.
    rewrite IH.
    + now rewrite <- app_assoc.
    + rewrite length_skipn. lia.
Qed.

Lemma downloadBinary_streamed (response : DownloadResponse) (total : Z)
    (chunks : list (list byte)) :
  ok response = true ->
  usable_total (content_length response) = Some total ->
  body response = Some (map Chunk chunks) ->
  downloadBinary (Downloaded response)
  = (Return (List.concat chunks),
     map (fun k => percent_of (received_after k chunks) total)
         (seq 1 (List.length chunks))).
Proof.
  intros Hok Ht Hb. unfold downloadBinary. rewrite Hok, Ht, Hb. cbn [negb].
  rewrite read_loop_chunks. cbn [app Nat.add]. f_equal.
  apply (combine_chunks_concat chunks [] (Uint8Array_new _)).
  unfold Uint8Array_new. apply repeat_length.
Qed.

Lemma read_all_chunks (chunks : list (list byte)) :
  read_all (map Chunk chunks) = Return (List.concat chunks).
Proof.
  induction chunks as [|c cs IH]; cbn; [reflexivity|]. now rewrite IH.
Qed.

Lemma downloadBinary_unsized (response : DownloadResponse)
    (chunks : list (list byte)) :
  ok response = true ->
  usable_total (content_length response) = None ->
  body response = Some (map Chunk chunks) ->
  downloadBinary (Downloaded response) = (Return (List.concat chunks), []).
Proof.
  intros Hok Ht Hb. unfold downloadBinary, arrayBuffer.
  rewrite Hok, Ht, Hb. cbn [negb]. now rewrite read_all_chunks.
Qed.

(** C9. For a successful download that advertises a total length,
    [downloadBinary] returns the received chunks concatenated in order (as
    many bytes as the chunk lengths add up to) and makes one progress call
    per chunk; the value reported after a chunk is bytesReceived/total*100
    as JavaScript computes it in double precision, for byte counts that are
    safe integers.  When no length is advertised the whole body is read in
    one step and no progress call is made. *)
Theorem downloadBinary_chunks_and_progress (response : DownloadResponse)
    (chunks : list (list byte)) :
  ok response = true ->
  body response = Some (map Chunk chunks) ->
  (forall total,
      usable_total (content_length response) = Some total ->
      fst (downloadBinary (Downloaded response))
      = Return (List.concat chunks) /\
      List.length (List.concat chunks)
      = list_sum (map (@List.length byte) chunks) /\
      List.length (snd (downloadBinary (Downloaded response)))
      = List.length chunks /\
      (Number.isSafeInteger total ->
       Number.isSafeInteger (Z.of_nat (List.length (List.concat chunks))) ->
       snd (downloadBinary (Downloaded response))
       = map (fun k =>
                Number.binary64
                  (Number.binary64
                     (inject_Z (received_after k chunks) / inject_Z total)
                   * 100)%Q)
             (seq 1 (List.length chunks)))) /\
  (content_length response = None ->
   downloadBinary (Downloaded response) = (Return (List.concat chunks), [])).
Proof.
  intros Hok Hb. split.
  - intros total Ht.
    rewrite (downloadBinary_streamed response total chunks Hok Ht Hb).
    cbn [fst snd]. repeat split.
    + apply length_concat.
    + now rewrite length_map, length_seq.
    + intros Htotal Hbytes. apply map_ext. intros k.
      pose proof (received_after_bounds chunks k) as Hk.
      unfold percent_of.
      rewrite !binary64_safe;
        [reflexivity | assumption | unfold Number.isSafeInteger in *; lia].
  - intros Hnone. apply downloadBinary_unsized; try assumption.
    now rewrite Hnone.
Qed.

End Download.

Section DownloadExamples.

Import Data.
Local Open Scope string_scope.

Lemma downloadBinary_chunks_and_progress_witness :
  downloadBinary
    (Downloaded {| status := 200; content_length := Some "3";
                   body := Some [Chunk [Byte.x01];
                                 Chunk [Byte.x02; Byte.x03]] |})
  = (Return [Byte.x01; Byte.x02; Byte.x03],
     [(2345624805922133 # 70368744177664)%Q; 100%Q]) /\
  downloadBinary
    (Downloaded {| status := 200; content_length := None;
                   body := Some [Chunk [Byte.x01];
                                 Chunk [Byte.x02; Byte.x03]] |})
  = (Return [Byte.x01; Byte.x02; Byte.x03], []).
Proof.
  assert (Hsafe : Number.isSafeInteger 3)
    by (unfold Number.isSafeInteger, Number.MAX_SAFE_INTEGER; lia).
  split.
  - destruct (proj1 (downloadBinary_chunks_and_progress
                       {| status := 200; content_length := Some "3";
                          body := Some [Chunk [Byte.x01];
                                        Chunk [Byte.x02; Byte.x03]] |}
                       [[Byte.x01]; [Byte.x02; Byte.x03]]
                       eq_refl eq_refl) 3 eq_refl)
      as (Hbytes & _ & _ & Hcalls).
    specialize (Hcalls Hsafe Hsafe).
    apply injective_projections; [exact Hbytes | exact Hcalls].
  - exact (proj2 (downloadBinary_chunks_and_progress
                    {| status := 200; content_length := None;
                       body := Some [Chunk [Byte.x01];
                                     Chunk [Byte.x02; Byte.x03]] |}
                    [[Byte.x01]; [Byte.x02; Byte.x03]]
                    eq_refl eq_refl) eq_refl).
Defined.

End DownloadExamples.

(** ** Progress sequences *)

Section ProgressSequences.

Import Data Fetch.
Local Open Scope Q_scope.

Lemma StronglySorted_snoc {A : Type} (R : A -> A -> Prop) (l : list A) (a : A) :
  StronglySorted R l -> Forall (fun b => R b a) l ->
  StronglySorted R (l ++ [a]).
Proof.
  induction 1 as [|b l Hs IH Hb]; intros Hall; cbn.
  - repeat constructor.
  - inversion Hall as [|? ? Hba Hall']; subst.
    constructor; [now apply IH|].
    apply Forall_app. split; [assumption | now constructor].
Qed.

(** A progress event reports at most one value, below 100 and at least 0. *)
Lemma onprogress_cases (event : ProgressEvent) :
  onprogress event = [] \/
  (total event <> 0%N /\
   onprogress event
   = [percent_of (Z.of_N (loaded event)) (Z.of_N (total event))] /\
   0 <= percent_of (Z.of_N (loaded event)) (Z.of_N (total event)) /\
   percent_of (Z.of_N (loaded event)) (Z.of_N (total event)) <= 100).
Proof.
  unfold onprogress, event_percent.
  destruct (lengthComputable event); [|now left].
  destruct (N.eqb (total event) 0) eqn:Et; [now left|].
  apply N.eqb_neq in Et.
  destruct (Qle_bool 100 _) eqn:E; cbn [negb]; [now left|]. right.
  repeat split; try assumption.
  - apply percent_of_nonneg; lia.
  - destruct (Qlt_le_dec
                (percent_of (Z.of_N (loaded event)) (Z.of_N (total event))) 100)
      as [Hlt|Hle].
    + now apply Qlt_le_weak.
    + apply Qle_bool_iff in Hle. congruence.
Qed.

Lemma onprogress_range (events : list ProgressEvent) :
  Forall (fun v => 0 <= v /\ v <= 100) (flat_map onprogress events).
Proof.
  induction events as [|e events IH]; cbn; [constructor|].
  apply Forall_app. split; [|assumption].
  destruct (onprogress_cases e) as [-> | (_ & -> & H0 & H100)];
    repeat constructor; assumption.
Qed.

Lemma onprogress_sorted (events : list ProgressEvent) :
  events_ordered events -> StronglySorted Qle (flat_map onprogress events).
Proof.
  induction 1 as [|e events Hs IH He]; cbn; [constructor|].
  destruct (onprogress_cases e) as [-> | (Ht & -> & _ & _)]; [assumption|].
  cbn. constructor; [assumption|].
  clear IH Hs. induction events as [|e' events IH']; cbn; [constructor|].
  inversion He as [|? ? [Hl Htot] He']; subst.
  apply Forall_app. split; [|now apply IH'].
  destruct (onprogress_cases e') as [-> | (_ & -> & _ & _)]; [constructor|].
  repeat constructor. rewrite <- Htot. apply percent_of_le; lia.
Qed.

(** The progress handler only appends to the calls made so far. *)
Lemma uploadWithXHR_progress (response : DataUploadResponse)
    (events : list ProgressEvent) :
  forall promise calls,
    fold_left (xhr_dispatch response) (map OnProgress events) (promise, calls)
    = (promise, (calls ++ flat_map onprogress events)%list).
Proof.
  induction events as [|e events IH]; intros promise calls; cbn.
  - now rewrite app_nil_r.
  - rewrite IH. now rewrite <- app_assoc.
Qed.

Lemma uploadWithXHR_completed (response : DataUploadResponse)
    (events : list ProgressEvent) (status : Z) (statusText : string) :
  (200 <= status < 300)%Z ->
  uploadWithXHR response
    (map OnProgress events ++ [OnLoad status statusText; OnLoadEnd])%list
  = (Some (Return response), (flat_map onprogress events ++ [100])%list).
Proof.
  intros Hs. unfold uploadWithXHR.
  rewrite fold_left_app, uploadWithXHR_progress. cbn.
  now rewrite (proj2 (Z.leb_le _ _)), (proj2 (Z.ltb_lt _ _)) by lia.
Qed.

Lemma progress_complete_xhr (events : list ProgressEvent) :
  events_ordered events ->
  progress_complete (flat_map onprogress events ++ [100])%list.
Proof.
  intros Hord. pose proof (onprogress_range events) as Hrange.
  repeat split.
  - apply StronglySorted_Sorted, StronglySorted_snoc.
    + now apply onprogress_sorted.
    + eapply Forall_impl; [|exact Hrange]. now intros v [_ H].
  - apply Forall_app. split; [assumption|].
    repeat constructor; unfold Qle; cbn; lia.
  - now exists (flat_map onprogress events).
Qed.

(** The calls of a streamed download, for a positive advertised total *)
Lemma download_calls_sorted (total : Z) (chunks : list (list byte)) :
  (0 < total)%Z ->
  StronglySorted Qle
    (map (fun k => percent_of (received_after k chunks) total)
         (seq 1 (List.length chunks))).
Proof.
  intros Ht. generalize 1%nat as start.
  induction (List.length chunks) as [|n IH]; intros start; cbn;
    constructor; [apply IH|].
  apply Forall_forall. intros v Hv.
  apply in_map_iff in Hv as (k & <- & Hk). apply in_seq in Hk.
  apply percent_of_le; [assumption | unfold received_after; lia |].
  apply received_after_mono. lia.
Qed.

Lemma download_calls_range (total : Z) (chunks : list (list byte)) :
  (0 < total)%Z ->
  Forall (fun v => 0 <= v /\
                   (Z.of_nat (List.length (List.concat chunks)) = total ->
                    v <= 100))
    (map (fun k => percent_of (received_after k chunks) total)
         (seq 1 (List.length chunks))).
Proof.
  intros Ht. apply Forall_forall. intros v Hv.
  apply in_map_iff in Hv as (k & <- & _).
  pose proof (received_after_bounds chunks k) as [H0 Hmax]. split.
  - now apply percent_of_nonneg.
  - intros Hsum. apply percent_of_le_100; lia.
Qed.

Lemma download_calls_last (total : Z) (chunks : list (list byte)) :
  (0 < total)%Z ->
  Z.of_nat (List.length (List.concat chunks)) = total ->
  exists before,
    map (fun k => percent_of (received_after k chunks) total)
        (seq 1 (List.length chunks))
    = (before ++ [100])%list.
Proof.
  intros Ht Hsum. destruct (List.length chunks) as [|n] eqn:En.
  - apply length_zero_iff_nil in En. subst chunks. cbn in Hsum. lia.
  - rewrite seq_S, map_app. cbn [map Nat.add]. eexists. f_equal.
    rewrite <- En, received_after_all, Hsum.
    now rewrite percent_of_full.
Qed.

End ProgressSequences.

Section TransferProgress.

Import Data Fetch.
Local Open Scope Q_scope.

(** C7 (amended). An upload that completes successfully, under the
    XMLHttpRequest strategy (with the browser's byte counts in order) or
    under the fetch fallback, reports a non-decreasing sequence of values in
    [0, 100] that ends with exactly 100.  A streamed download with a
    positive advertised total reports a non-decreasing sequence of
    non-negative values, which stays within [0, 100] and ends with exactly
    100 when the bytes received add up to the advertised total; a download
    without a usable total makes no progress call at all. *)
Theorem transfer_progress :
  (forall size env response events status statusText,
      (0 < size)%Z ->
      posted env = Return response ->
      has_XMLHttpRequest env = true ->
      xhr_events env
      = (map OnProgress events ++ [OnLoad status statusText; OnLoadEnd])%list ->
      events_ordered events ->
      (200 <= status < 300)%Z ->
      exists calls,
        upload size env = (Some (Return response), calls) /\
        progress_complete calls) /\
  (forall size env response calls,
      has_XMLHttpRequest env = false ->
      upload size env = (Some (Return response), calls) ->
      calls = [100] /\ progress_complete calls) /\
  (forall response total chunks,
      ok response = true ->
      usable_total (content_length response) = Some total ->
      (0 < total)%Z ->
      body response = Some (map Chunk chunks) ->
      exists calls,
        downloadBinary (Downloaded response)
        = (Return (List.concat chunks), calls) /\
        Sorted Qle calls /\
        Forall (fun v => 0 <= v) calls /\
        (Z.of_nat (List.length (List.concat chunks)) = total ->
         progress_complete calls)) /\
  (forall response chunks,
      ok response = true ->
      usable_total (content_length response) = None ->
      body response = Some (map Chunk chunks) ->
      downloadBinary (Downloaded response) = (Return (List.concat chunks), [])).
Proof.
  split; [|split; [|split]].
  - intros size env response events status statusText Hsize Hpost Hxhr Hev
      Hord Hstatus.
    exists (flat_map onprogress events ++ [100])%list. split.
    + unfold upload. rewrite (proj2 (Z.ltb_lt _ _) Hsize), Hpost, Hxhr, Hev.
      cbn [negb]. now apply uploadWithXHR_completed.
    + now apply progress_complete_xhr.
  - intros size env response calls Hxhr. unfold upload.
    destruct (Z.ltb 0 size); cbn [negb]; [|discriminate].
    destruct (posted env) as [r|e]; [|discriminate].
    rewrite Hxhr. intros H. injection H as _ <-. split; [reflexivity|].
    repeat split.
    + repeat constructor.
    + repeat constructor; unfold Qle; cbn; lia.
    + now exists [].
  - intros response total chunks Hok Htotal Hpos Hbody.
    eexists. split;
      [exact (downloadBinary_streamed response total chunks Hok Htotal Hbody)|].
    pose proof (download_calls_range total chunks Hpos) as Hrange.
    split; [|split].
    + now apply StronglySorted_Sorted, download_calls_sorted.
    + eapply Forall_impl; [|exact Hrange]. now intros v [H _].
    + intros Hsum. repeat split.
      * now apply StronglySorted_Sorted, download_calls_sorted.
      * eapply Forall_impl; [|exact Hrange]. intros v [H0 H100]. auto.
      * now apply download_calls_last.
  - intros response chunks. apply downloadBinary_unsized.
Qed.

End TransferProgress.

Section TransferExamples.

Import Data Fetch Samples.
Local Open Scope string_scope.

Lemma transfer_progress_witness :
  exists calls,
    upload 4 browser_upload = (Some (Return upload_target), calls) /\
    progress_complete calls.
Proof.
  apply (proj1 transfer_progress 4 browser_upload upload_target
           [ {| lengthComputable := true; loaded := 1; total := 4 |};
             {| lengthComputable := true; loaded := 3; total := 4 |} ]
           204 "No Content").
  - reflexivity.
  - reflexivity.
  - reflexivity.
  - reflexivity.
  - unfold events_ordered. repeat constructor; cbn; lia.
  - lia.
Defined.

(** C7 as stated fails for downloads: one that advertises fewer bytes than
    it delivers reports a value above 100, and one that advertises no
    length completes without any call, so without a final call at 100. *)
Lemma download_progress_counterexample :
  (downloadBinary
     (Downloaded {| Data.status := 200; content_length := Some "2";
                    body := Some [Chunk [Byte.x01; Byte.x02;
                                         Byte.x03; Byte.x04]] |})
   = (Return [Byte.x01; Byte.x02; Byte.x03; Byte.x04], [200%Q]) /\
   ~ progress_complete [200%Q]) /\
  (downloadBinary
     (Downloaded {| Data.status := 200; content_length := None;
                    body := Some [Chunk [Byte.x01; Byte.x02;
                                         Byte.x03; Byte.x04]] |})
   = (Return [Byte.x01; Byte.x02; Byte.x03; Byte.x04], []) /\
   ~ progress_complete []).
Proof.
  split; split; try reflexivity.
  - intros (_ & Hrange & _). inversion Hrange as [|? ? [_ H] _]; subst.
    unfold Qle in H. cbn in H. lia.
  - intros (_ & _ & before & H). now apply app_cons_not_nil in H.
Qed.

End TransferExamples.

(** ** The flows *)

Section Flows.

Import Validation Flow.

Context {World : Type}.
Variable this : Flow.t World.

Lemma bind_ext {A B : Type} (m : M World A) (k k' : A -> M World B)
    (s : State World) :
  (forall a s', k a s' = k' a s') -> bind m k s = bind m k' s.
Proof.
  intros H. unfold bind. destruct (m s) as [[a|e] s']; [apply H | reflexivity].
Qed.

Lemma bind_assoc {A B C : Type} (m : M World A) (k : A -> M World B)
    (h : B -> M World C) (s : State World) :
  bind (bind m k) h s = bind m (fun a => bind (k a) h) s.
Proof.
  unfold bind. destruct (m s) as [[a|e] s']; reflexivity.
Qed.

(** A loop that pushes one result per item is the in-order traversal. *)
Lemma for_of_push_each {A B C : Type} (f : A -> M World B) (g : B -> C)
    (items : list A) :
  forall (acc : list C) (s : State World),
    for_of items (fun item acc => b <- f item ;; ret (push acc (g b))) acc s
    = (bs <- each f items ;; ret (acc ++ map g bs)) s.
Proof.
  induction items as [|item rest IH]; intros acc s; cbn [for_of each].
  - unfold bind, ret. cbn. now rewrite app_nil_r.
  - unfold bind at 1 2 4 5. destruct (f item s) as [[b|e] s1]; [|reflexivity].
    unfold ret at 1. rewrite IH. unfold bind, ret, push.
    destruct (each f rest s1) as [[bs|e] s2]; [|reflexivity].
    cbn [map]. now rewrite <- app_assoc.
Qed.

Lemma each_length {A B : Type} (f : A -> M World B) (l : list A) :
  forall s bs s',
    each f l s = (Return bs, s') -> List.length bs = List.length l.
Proof.
  induction l as [|a l IH]; intros s bs s'; cbn [each].
  - unfold ret. intros H. now injection H as <- _.
  - unfold bind at 1 2. destruct (f a s) as [[b|e] s1]; [|discriminate].
    destruct (each f l s1) as [[bs'|e] s2] eqn:E; [|discriminate].
    unfold ret. intros H. injection H as <- _. cbn. f_equal. eauto.
Qed.

(** One call is recorded per element, in order, for as long as the
    traversal goes on. *)
Lemma each_calls {A Request Response : Type} (c : A -> Call)
    (endpoint : Endpoint World Request Response) (r : A -> Request)
    (l : list A) :
  forall s bs s',
    each (fun a => invoke (c a) endpoint (r a)) l s = (Return bs, s') ->
    calls s' = calls s ++ map c l.
Proof.
  induction l as [|a l IH]; intros s bs s'; cbn [each].
  - unfold ret. intros H. injection H as _ <-. cbn. now rewrite app_nil_r.
  - unfold bind at 1 2. unfold invoke at 1.
    destruct (endpoint (r a) (world s)) as [[b|e] w]; [|discriminate].
    match goal with
    | |- context [each ?f l ?s1] =>
        destruct (each f l s1) as [[bs'|e] s2] eqn:E; [|discriminate]
    end.
    unfold ret. intros H. injection H as _ <-.
    rewrite (IH _ _ _ E). cbn. now rewrite <- app_assoc.
Qed.

Lemma bind_run {A B : Type} (m m' : M World A) (k : A -> M World B)
    (s : State World) :
  m s = m' s -> bind m k s = bind m' k s.
Proof. intros H. unfold bind. now rewrite H. Qed.

Lemma bind_returned {A B : Type} (m : M World A) (k : A -> M World B)
    (s s1 : State World) (a : A) :
  m s = (Return a, s1) -> bind m k s = k a s1.
Proof. intros H. unfold bind. now rewrite H. Qed.

Lemma bind_thrown {A B : Type} (m : M World A) (k : A -> M World B)
    (s s1 : State World) (e : Exception) :
  m s = (Throw e, s1) -> bind m k s = (Throw e, s1).
Proof. intros H. unfold bind. now rewrite H. Qed.

Lemma bind_ret {A B : Type} (a : A) (k : A -> M World B) (s : State World) :
  bind (ret a) k s = k a s.
Proof. reflexivity. Qed.

(** The second half of [ocrImgHandle], from the list of images on *)
Lemma convert_loop (images : list Handle) (pdfOptions : option ImgToPdfOptions)
    (s : State World) :
  (pdfHandles <-
     for_of images
       (fun imgHandle pdfHandles =>
          pdfHandle <- img_ocrToPdf this
            {| ImgOcrToPdfRequest.img_handle := imgHandle;
               ImgOcrToPdfRequest.options := pdfOptions |} ;;
          ret (push pdfHandles (pdf_handle pdfHandle)))
       [] ;;
   combinedPdf <- pdf_compose this {| pdfs := map compose_entry pdfHandles |} ;;
   oriented <- pdf_orientation this
     {| pdf_handle := pdf_handle combinedPdf |} ;;
   ocrPdf <- pdf_ocrToPdf this
     {| pdf_handle := rotated_pdf_handle oriented |} ;;
   optimizedPdf <- pdf_optimize this (optimize_request (pdf_handle ocrPdf)) ;;
   ret (pdf_handle optimizedPdf)) s
  = convert_and_compose this images pdfOptions s.
Proof.
  unfold convert_and_compose.
  etransitivity; [apply bind_run, for_of_push_each|].
  rewrite bind_assoc. apply bind_ext. intros converted s'. reflexivity.
Qed.

Lemma ocrImgHandle_disabled (imgHandle : Handle) (options : OcrImgOptions.t)
    (s : State World) :
  extraction_enabled options = false ->
  ocrImgHandle this imgHandle options s
  = convert_and_compose this [imgHandle] (OcrImgOptions.pdfOptions options) s.
Proof.
  unfold extraction_enabled. intros Hoff. unfold ocrImgHandle. rewrite Hoff.
  cbv beta iota zeta. rewrite bind_ret.
  cbn [List.length Nat.eqb push app]. apply convert_loop.
Qed.

Lemma ocrImgHandle_enabled (imgHandle : Handle) (options : OcrImgOptions.t)
    (s s1 : State World) (docs : ImgFindDocumentsResponse) :
  extraction_enabled options = true ->
  img_findDocuments this {| img_handle := imgHandle |} s = (Return docs, s1) ->
  ocrImgHandle this imgHandle options s
  = (extracted <- extract_each this imgHandle (documents docs) ;;
     convert_and_compose this
       (match map img_handle extracted with
        | [] => [imgHandle]
        | images => images
        end)
       (OcrImgOptions.pdfOptions options)) s1.
Proof.
  unfold extraction_enabled. intros Hon Hfind. unfold ocrImgHandle.
  rewrite Hon. cbv beta iota zeta. rewrite bind_assoc.
  rewrite (bind_returned _ _ s s1 docs Hfind).
  etransitivity; [apply bind_run, for_of_push_each|].
  rewrite bind_assoc. unfold extract_each. apply bind_ext.
  intros extracted s2.
  rewrite bind_ret. cbn [app].
  destruct (map img_handle extracted) as [|image images];
    cbn [List.length Nat.eqb push app]; apply convert_loop.
Qed.

Lemma ocrImgHandle_detection_fails (imgHandle : Handle)
    (options : OcrImgOptions.t) (s s1 : State World) (e : Exception) :
  extraction_enabled options = true ->
  img_findDocuments this {| img_handle := imgHandle |} s = (Throw e, s1) ->
  ocrImgHandle this imgHandle options s = (Throw e, s1).
Proof.
  unfold extraction_enabled. intros Hon Hfind. unfold ocrImgHandle.
  rewrite Hon. cbv beta iota zeta. rewrite bind_assoc.
  now rewrite (bind_thrown _ _ s s1 e Hfind).
Qed.

Lemma bind_inv {A B : Type} (m : M World A) (k : A -> M World B)
    (s s' : State World) (b : B) :
  bind m k s = (Return b, s') ->
  exists a s1, m s = (Return a, s1) /\ k a s1 = (Return b, s').
Proof.
  unfold bind. destruct (m s) as [[a|e] s1]; [eauto | discriminate].
Qed.

Lemma invoke_calls {Request Response : Type} (c : Call)
    (endpoint : Endpoint World Request Response) (r : Request)
    (s s' : State World) (o : Outcome Response) :
  invoke c endpoint r s = (o, s') -> calls s' = calls s ++ [c].
Proof.
  unfold invoke. destruct (endpoint r (world s)) as [o' w].
  intros H. now injection H as _ <-.
Qed.

(** One element is one call. *)
Lemma each_single {A B : Type} (f : A -> M World B) (a : A)
    (s s' : State World) (bs : list B) :
  each f [a] s = (Return bs, s') <->
  exists b, bs = [b] /\ f a s = (Return b, s').
Proof.
  cbn [each]. unfold bind, ret. split.
  - destruct (f a s) as [[b|e] s1]; [|discriminate].
    intros H. injection H as <- <-. now exists b.
  - intros (b & -> & ->). reflexivity.
Qed.

(** The runs of the second half of [ocrImgHandle] that return *)
Lemma convert_and_compose_returns (images : list Handle)
    (pdfOptions : option ImgToPdfOptions) (s0 s' : State World)
    (out : Handle) :
  convert_and_compose this images pdfOptions s0 = (Return out, s') <->
  exists converted composed oriented ocr optimized s1 s2 s3 s4,
    each (fun image =>
            img_ocrToPdf this
              {| ImgOcrToPdfRequest.img_handle := image;
                 ImgOcrToPdfRequest.options := pdfOptions |})
         images s0
    = (Return converted, s1) /\
    pdf_compose this
      {| pdfs := map compose_entry (map pdf_handle converted) |} s1
    = (Return composed, s2) /\
    pdf_orientation this {| pdf_handle := pdf_handle composed |} s2
    = (Return oriented, s3) /\
    pdf_ocrToPdf this {| pdf_handle := rotated_pdf_handle oriented |} s3
    = (Return ocr, s4) /\
    pdf_optimize this (optimize_request (pdf_handle ocr)) s4
    = (Return optimized, s') /\
    out = pdf_handle optimized.
Proof.
  unfold convert_and_compose, orient_ocr_optimize. split.
  - intros Hrun.
    apply bind_inv in Hrun as (converted & s1 & H1 & Hrun).
    apply bind_inv in Hrun as (composed & s2 & H2 & Hrun).
    apply bind_inv in Hrun as (oriented & s3 & H3 & Hrun).
    apply bind_inv in Hrun as (ocr & s4 & H4 & Hrun).
    apply bind_inv in Hrun as (optimized & s5 & H5 & Hrun).
    unfold ret in Hrun. injection Hrun as <- <-.
    exists converted, composed, oriented, ocr, optimized, s1, s2, s3, s4.
    now repeat split.
  - intros (converted & composed & oriented & ocr & optimized & s1 & s2 & s3
            & s4 & H1 & H2 & H3 & H4 & H5 & ->).
    rewrite (bind_returned _ _ _ _ _ H1).
    rewrite (bind_returned _ _ _ _ _ H2).
    rewrite (bind_returned _ _ _ _ _ H3).
    rewrite (bind_returned _ _ _ _ _ H4).
    now rewrite (bind_returned _ _ _ _ _ H5).
Qed.

(** C3 (amended). In [ocrImgHandle], when document extraction is disabled,
    or detection returns zero quadrilaterals, the original image handle is
    the only entry of the conversion stage: the flow returns exactly when
    the conversion of that image, the composition of the one converted
    handle, orientation, OCR and optimization succeed, and from the start
    of the conversion stage on it has made these five calls and no other.
    Zero results do not abort the pipeline: the detection call is the only
    call before the conversion.  An error raised by the detection request
    itself ends the pipeline with that error. *)
Theorem ocrImgHandle_single_image (imgHandle : Handle)
    (options : OcrImgOptions.t) :
  (forall s s0,
      (extraction_enabled options = false /\ s0 = s) \/
      (extraction_enabled options = true /\
       exists docs,
         img_findDocuments this {| img_handle := imgHandle |} s
         = (Return docs, s0) /\
         documents docs = []) ->
      forall out s',
        ocrImgHandle this imgHandle options s = (Return out, s') <->
        exists converted composed oriented ocr optimized s1 s2 s3 s4,
          img_ocrToPdf this
            {| ImgOcrToPdfRequest.img_handle := imgHandle;
               ImgOcrToPdfRequest.options :=
                 OcrImgOptions.pdfOptions options |} s0
          = (Return converted, s1) /\
          pdf_compose this
            {| pdfs := [ {| PdfComposePdf.pdf_handle := pdf_handle converted;
                            PdfComposePdf.pages := None |} ] |} s1
          = (Return composed, s2) /\
          pdf_orientation this {| pdf_handle := pdf_handle composed |} s2
          = (Return oriented, s3) /\
          pdf_ocrToPdf this {| pdf_handle := rotated_pdf_handle oriented |} s3
          = (Return ocr, s4) /\
          pdf_optimize this
            {| PdfOptimizeRequest.pdf_handle := pdf_handle ocr;
               PdfOptimizeRequest.image_dpi := None;
               PdfOptimizeRequest.image_quality := None;
               PdfOptimizeRequest.image_color := None |} s4
          = (Return optimized, s') /\
          out = pdf_handle optimized /\
          calls s'
          = calls s0
            ++ [CallImgOcrToPdf
                  {| ImgOcrToPdfRequest.img_handle := imgHandle;
                     ImgOcrToPdfRequest.options :=
                       OcrImgOptions.pdfOptions options |};
                CallCompose
                  {| pdfs :=
                       [ {| PdfComposePdf.pdf_handle := pdf_handle converted;
                            PdfComposePdf.pages := None |} ] |};
                CallOrientation {| pdf_handle := pdf_handle composed |};
                CallPdfOcrToPdf
                  {| pdf_handle := rotated_pdf_handle oriented |};
                CallOptimize
                  {| PdfOptimizeRequest.pdf_handle := pdf_handle ocr;
                     PdfOptimizeRequest.image_dpi := None;
                     PdfOptimizeRequest.image_quality := None;
                     PdfOptimizeRequest.image_color := None |}]) /\
  (forall s s0 docs,
      img_findDocuments this {| img_handle := imgHandle |} s
      = (Return docs, s0) ->
      calls s0 = calls s ++ [CallFindDocuments {| img_handle := imgHandle |}]) /\
  (forall s s1 e,
      extraction_enabled options = true ->
      img_findDocuments this {| img_handle := imgHandle |} s = (Throw e, s1) ->
      ocrImgHandle this imgHandle options s = (Throw e, s1) /\
      calls s1 = calls s ++ [CallFindDocuments {| img_handle := imgHandle |}]).
Proof.
  split; [|split].
  - intros s s0 Hcase out s'.
    assert (Heq : ocrImgHandle this imgHandle options s
                  = convert_and_compose this [imgHandle]
                      (OcrImgOptions.pdfOptions options) s0).
    { destruct Hcase as [[Hoff ->] | (Hon & docs & Hfind & Hnone)].
      - now apply ocrImgHandle_disabled.
      - rewrite (ocrImgHandle_enabled imgHandle options s s0 docs Hon Hfind).
        rewrite Hnone. unfold extract_each. cbn [each].
        now rewrite bind_ret. }
    rewrite Heq, convert_and_compose_returns. split.
    + intros (converted & composed & oriented & ocr & optimized & s1 & s2
              & s3 & s4 & H1 & H2 & H3 & H4 & H5 & Hout).
      apply each_single in H1 as (page & -> & H1).
      exists page, composed, oriented, ocr, optimized, s1, s2, s3, s4.
      split; [exact H1|]. split; [exact H2|]. split; [exact H3|].
      split; [exact H4|]. split; [exact H5|]. split; [exact Hout|].
      rewrite (invoke_calls _ _ _ _ _ _ H5), (invoke_calls _ _ _ _ _ _ H4),
        (invoke_calls _ _ _ _ _ _ H3), (invoke_calls _ _ _ _ _ _ H2),
        (invoke_calls _ _ _ _ _ _ H1).
      now rewrite <- !app_assoc.
    + intros (page & composed & oriented & ocr & optimized & s1 & s2 & s3
              & s4 & H1 & H2 & H3 & H4 & H5 & Hout & _).
      exists [page], composed, oriented, ocr, optimized, s1, s2, s3, s4.
      split; [apply each_single; now exists page|].
      split; [exact H2|]. split; [exact H3|]. split; [exact H4|].
      split; [exact H5 | exact Hout].
  - intros s s0 docs Hfind. exact (invoke_calls _ _ _ _ _ _ Hfind).
  - intros s s1 e Hon Hfind. split.
    + now apply ocrImgHandle_detection_fails.
    + exact (invoke_calls _ _ _ _ _ _ Hfind).
Qed.

(** C4. In [ocrImgHandle], given N >= 1 detected documents, the flow
    returns exactly when every quadrilateral is extracted, in the order
    detection returned them, every extracted image is converted, each on
    its own and in that order, giving one PDF handle per image, the N
    handles are composed in that order into one PDF, and orientation, OCR
    and optimization of the composed PDF succeed; the calls made are the
    detection, the N extractions, the N conversions, the composition and
    these three steps, in this order. *)
Theorem ocrImgHandle_fan_out (imgHandle : Handle) (options : OcrImgOptions.t)
    (s s0 : State World) (docs : ImgFindDocumentsResponse) :
  extraction_enabled options = true ->
  img_findDocuments this {| img_handle := imgHandle |} s = (Return docs, s0) ->
  documents docs <> [] ->
  forall out s',
    ocrImgHandle this imgHandle options s = (Return out, s') <->
    exists extracted converted composed oriented ocr optimized
           s1 s2 s3 s4 s5,
      each (fun doc =>
              img_extractQuadrilateral this
                {| ImgExtractQuadrilateralRequest.img_handle := imgHandle;
                   ImgExtractQuadrilateralRequest.quadrilateral :=
                     ImgFindDocumentsQuadrilateral.quadrilateral doc |})
           (documents docs) s0
      = (Return extracted, s1) /\
      List.length extracted = List.length (documents docs) /\
      each (fun image =>
              img_ocrToPdf this
                {| ImgOcrToPdfRequest.img_handle := image;
                   ImgOcrToPdfRequest.options :=
                     OcrImgOptions.pdfOptions options |})
           (map img_handle extracted) s1
      = (Return converted, s2) /\
      List.length converted = List.length (documents docs) /\
      pdf_compose this
        {| pdfs :=
             map (fun page =>
                    {| PdfComposePdf.pdf_handle := pdf_handle page;
                       PdfComposePdf.pages := None |})
                 converted |} s2
      = (Return composed, s3) /\
      pdf_orientation this {| pdf_handle := pdf_handle composed |} s3
      = (Return oriented, s4) /\
      pdf_ocrToPdf this {| pdf_handle := rotated_pdf_handle oriented |} s4
      = (Return ocr, s5) /\
      pdf_optimize this
        {| PdfOptimizeRequest.pdf_handle := pdf_handle ocr;
           PdfOptimizeRequest.image_dpi := None;
           PdfOptimizeRequest.image_quality := None;
           PdfOptimizeRequest.image_color := None |} s5
      = (Return optimized, s') /\
      out = pdf_handle optimized /\
      calls s'
      = calls s
        ++ [CallFindDocuments {| img_handle := imgHandle |}]
        ++ map (fun doc =>
                  CallExtractQuadrilateral
                    {| ImgExtractQuadrilateralRequest.img_handle := imgHandle;
                       ImgExtractQuadrilateralRequest.quadrilateral :=
                         ImgFindDocumentsQuadrilateral.quadrilateral doc |})
               (documents docs)
        ++ map (fun image =>
                  CallImgOcrToPdf
                    {| ImgOcrToPdfRequest.img_handle := image;
                       ImgOcrToPdfRequest.options :=
                         OcrImgOptions.pdfOptions options |})
               (map img_handle extracted)
        ++ [CallCompose
              {| pdfs :=
                   map (fun page =>
                          {| PdfComposePdf.pdf_handle := pdf_handle page;
                             PdfComposePdf.pages := None |})
                       converted |};
            CallOrientation {| pdf_handle := pdf_handle composed |};
            CallPdfOcrToPdf {| pdf_handle := rotated_pdf_handle oriented |};
            CallOptimize
              {| PdfOptimizeRequest.pdf_handle := pdf_handle ocr;
                 PdfOptimizeRequest.image_dpi := None;
                 PdfOptimizeRequest.image_quality := None;
                 PdfOptimizeRequest.image_color := None |}].
Proof.
  intros Hon Hfind Hsome out s'.
  assert (Heq : ocrImgHandle this imgHandle options s
                = (extracted <- extract_each this imgHandle (documents docs) ;;
                   convert_and_compose this (map img_handle extracted)
                     (OcrImgOptions.pdfOptions options)) s0).
  { rewrite (ocrImgHandle_enabled imgHandle options s s0 docs Hon Hfind).
    unfold bind.
    destruct (extract_each this imgHandle (documents docs) s0)
      as [[extracted|e] s1] eqn:E; [|reflexivity].
    apply each_length in E.
    destruct extracted as [|image extracted]; [|reflexivity].
    destruct (documents docs); [contradiction | discriminate]. }
  rewrite Heq. unfold extract_each. split.
  - intros Hrun.
    apply bind_inv in Hrun as (extracted & s1 & Hextract & Hrun).
    apply convert_and_compose_returns in Hrun
      as (converted & composed & oriented & ocr & optimized & s2 & s3 & s4
          & s5 & H1 & H2 & H3 & H4 & H5 & Hout).
    rewrite map_map in H2.
    exists extracted, converted, composed, oriented, ocr, optimized,
           s1, s2, s3, s4, s5.
    pose proof (each_length _ _ _ _ _ Hextract) as Hlen1.
    pose proof (each_length _ _ _ _ _ H1) as Hlen2.
    rewrite length_map in Hlen2.
    split; [exact Hextract|]. split; [exact Hlen1|]. split; [exact H1|].
    split; [congruence|]. split; [exact H2|]. split; [exact H3|].
    split; [exact H4|]. split; [exact H5|]. split; [exact Hout|].
    rewrite (invoke_calls _ _ _ _ _ _ H5), (invoke_calls _ _ _ _ _ _ H4),
      (invoke_calls _ _ _ _ _ _ H3), (invoke_calls _ _ _ _ _ _ H2).
    unfold img_ocrToPdf in H1. rewrite (each_calls _ _ _ _ _ _ _ H1).
    unfold img_extractQuadrilateral in Hextract.
    rewrite (each_calls _ _ _ _ _ _ _ Hextract).
    rewrite (invoke_calls _ _ _ _ _ _ Hfind).
    now rewrite <- !app_assoc.
  - intros (extracted & converted & composed & oriented & ocr & optimized
            & s1 & s2 & s3 & s4 & s5 & Hextract & _ & H1 & _ & H2 & H3 & H4
            & H5 & Hout & _).
    rewrite (bind_returned _ _ _ _ _ Hextract).
    apply convert_and_compose_returns.
    exists converted, composed, oriented, ocr, optimized, s2, s3, s4, s5.
    rewrite map_map.
    split; [exact H1|]. split; [exact H2|]. split; [exact H3|].
    split; [exact H4|]. split; [exact H5 | exact Hout].
Qed.

Lemma only_calls_ret {A : Type} (P : Call -> Prop) (a : A) :
  only_calls P (ret (World := World) a).
Proof. intros s. exists []. cbn. now rewrite app_nil_r. Qed.

Lemma only_calls_invoke {Request Response : Type} (P : Call -> Prop)
    (c : Call) (endpoint : Endpoint World Request Response) (r : Request) :
  P c -> only_calls P (invoke c endpoint r).
Proof.
  intros Hc s. exists [c]. unfold invoke.
  destruct (endpoint r (world s)) as [o w]. cbn. now repeat constructor.
Qed.

Lemma only_calls_bind {A B : Type} (P : Call -> Prop) (m : M World A)
    (k : A -> M World B) :
  only_calls P m -> (forall a, only_calls P (k a)) -> only_calls P (bind m k).
Proof.
  intros Hm Hk s. destruct (Hm s) as (cs & Hcs & Hall). unfold bind.
  destruct (m s) as [[a|e] s1]; cbn in Hcs.
  - destruct (Hk a s1) as (cs' & Hcs' & Hall').
    exists (cs ++ cs'). rewrite Hcs', Hcs, app_assoc. split; [reflexivity|].
    apply Forall_app. now split.
  - exists cs. now split.
Qed.

Lemma only_calls_for_of {A S : Type} (P : Call -> Prop) (items : list A)
    (body : A -> S -> M World S) :
  (forall item acc, only_calls P (body item acc)) ->
  forall acc, only_calls P (for_of items body acc).
Proof.
  intros Hbody. induction items as [|item rest IH]; intros acc; cbn [for_of].
  - apply only_calls_ret.
  - apply only_calls_bind; [apply Hbody | exact IH].
Qed.

Ltac only_calls_steps :=
  repeat first
    [ apply only_calls_ret
    | apply only_calls_invoke; reflexivity
    | apply only_calls_for_of; intros
    | apply only_calls_bind; [|intros] ].

(** C5. Each raw-bytes entry point is upload, validation and unwrapping
    followed by the handle entry point.  [ocrPdf] uploads the input as a
    file, validates the uploaded handle with the caller's password, and
    once [okPdf] has given the PDF handle it continues as [ocrPdfHandle] on
    that handle, having made exactly these two calls; on every state it
    equals the composition of upload, validate and [okPdf] with
    [ocrPdfHandle].  [ocrImg] likewise, with [okImg] and [ocrImgHandle].
    The handle entry points make no upload and no validation call. *)
Theorem entry_points_compose :
  (forall input options s uploaded validated pdfHandle s1 s2,
      data_upload this (toFile input "document.pdf" "application/pdf")
        (OcrPdfOptions.onProgress options) s
      = (Return uploaded, s1) ->
      pdf_validate this
        {| PdfValidateRequest.unvalidated_file_handle :=
             Data.unvalidated_file_handle uploaded;
           PdfValidateRequest.password := OcrPdfOptions.password options |} s1
      = (Return validated, s2) ->
      okPdf validated = Return pdfHandle ->
      ocrPdf this input options s = ocrPdfHandle this pdfHandle options s2 /\
      calls s2
      = calls s
        ++ [CallUpload (toFile input "document.pdf" "application/pdf")
              (OcrPdfOptions.onProgress options);
            CallPdfValidate
              {| PdfValidateRequest.unvalidated_file_handle :=
                   Data.unvalidated_file_handle uploaded;
                 PdfValidateRequest.password :=
                   OcrPdfOptions.password options |}]) /\
  (forall input options s uploaded validated imgHandle s1 s2,
      data_upload this (toFile input "image.jpg" "image/jpeg")
        (OcrImgOptions.onProgress options) s
      = (Return uploaded, s1) ->
      img_validate this
        {| ImgValidateRequest.unvalidated_file_handle :=
             Data.unvalidated_file_handle uploaded |} s1
      = (Return validated, s2) ->
      okImg validated = Return imgHandle ->
      ocrImg this input options s = ocrImgHandle this imgHandle options s2 /\
      calls s2
      = calls s
        ++ [CallUpload (toFile input "image.jpg" "image/jpeg")
              (OcrImgOptions.onProgress options);
            CallImgValidate
              {| ImgValidateRequest.unvalidated_file_handle :=
                   Data.unvalidated_file_handle uploaded |}]) /\
  (forall input options s,
      ocrPdf this input options s
      = (pdfHandle <- upload_validate_okPdf this input options ;;
         ocrPdfHandle this pdfHandle options) s) /\
  (forall input options s,
      ocrImg this input options s
      = (imgHandle <- upload_validate_okImg this input options ;;
         ocrImgHandle this imgHandle options) s) /\
  (forall pdfHandle options,
      only_calls (fun c => is_upload_or_validation c = false)
        (ocrPdfHandle this pdfHandle options)) /\
  (forall imgHandle options,
      only_calls (fun c => is_upload_or_validation c = false)
        (ocrImgHandle this imgHandle options)).
Proof.
  split; [|split; [|split; [|split; [|split]]]].
  - intros input options s uploaded validated pdfHandle s1 s2 H1 H2 Hok.
    split.
    + unfold ocrPdf. cbv zeta. rewrite (bind_returned _ _ _ _ _ H1).
      rewrite (bind_returned _ _ _ _ _ H2).
      unfold bind at 1. unfold lift. now rewrite Hok.
    + rewrite (invoke_calls _ _ _ _ _ _ H2), (invoke_calls _ _ _ _ _ _ H1).
      now rewrite <- app_assoc.
  - intros input options s uploaded validated imgHandle s1 s2 H1 H2 Hok.
    split.
    + unfold ocrImg. cbv zeta. rewrite (bind_returned _ _ _ _ _ H1).
      rewrite (bind_returned _ _ _ _ _ H2).
      unfold bind at 1. unfold lift. now rewrite Hok.
    + rewrite (invoke_calls _ _ _ _ _ _ H2), (invoke_calls _ _ _ _ _ _ H1).
      now rewrite <- app_assoc.
  - intros input options s. unfold ocrPdf, upload_validate_okPdf. cbv zeta.
    rewrite bind_assoc. apply bind_ext. intros uploaded s1.
    now rewrite bind_assoc.
  - intros input options s. unfold ocrImg, upload_validate_okImg. cbv zeta.
    rewrite bind_assoc. apply bind_ext. intros uploaded s1.
    now rewrite bind_assoc.
  - intros pdfHandle options. unfold ocrPdfHandle, pdf_orientation,
      pdf_ocrToPdf, pdf_optimize. only_calls_steps.
  - intros imgHandle options. unfold ocrImgHandle, img_findDocuments,
      img_extractQuadrilateral, img_ocrToPdf, pdf_compose, pdf_orientation,
      pdf_ocrToPdf, pdf_optimize. cbv zeta.
    apply only_calls_bind; [|intros; only_calls_steps].
    destruct (OcrImgOptions.extractDocument options) as [[|]|];
      only_calls_steps.
Qed.

End Flows.

Section FlowExamples.

Import Validation Flow Samples.
Local Open Scope string_scope.

Lemma ocrImgHandle_single_image_witness :
  ocrImgHandle (numbering_service (Return {| documents := [] |}))
    "photo" default_options fresh
  = (Return "optimized-5",
     {| world := 6%nat;
        calls :=
          [ CallFindDocuments {| img_handle := "photo" |};
            CallImgOcrToPdf
              {| ImgOcrToPdfRequest.img_handle := "photo";
                 ImgOcrToPdfRequest.options := None |};
            CallCompose
              {| pdfs := [ {| PdfComposePdf.pdf_handle := "page-1";
                              PdfComposePdf.pages := None |} ] |};
            CallOrientation {| pdf_handle := "composed-2" |};
            CallPdfOcrToPdf {| pdf_handle := "oriented-3" |};
            CallOptimize
              {| PdfOptimizeRequest.pdf_handle := "ocr-4";
                 PdfOptimizeRequest.image_dpi := None;
                 PdfOptimizeRequest.image_quality := None;
                 PdfOptimizeRequest.image_color := None |} ] |}).
Proof.
  apply (proj2 (proj1 (ocrImgHandle_single_image
                         (numbering_service (Return {| documents := [] |}))
                         "photo" default_options)
                  fresh
                  {| world := 1%nat;
                     calls := [CallFindDocuments {| img_handle := "photo" |}] |}
                  (or_intror
                     (conj eq_refl
                        (ex_intro _ {| documents := [] |}
                           (conj eq_refl eq_refl))))
                  _ _)).
  exists {| pdf_handle := "page-1" |}, {| pdf_handle := "composed-2" |},
         {| orientations := []; rotated_pdf_handle := "oriented-3" |},
         {| pdf_handle := "ocr-4" |}, {| pdf_handle := "optimized-5" |}.
  do 4 eexists. repeat split.
Defined.

(** C3 as stated fails on a failing detection: the error of the detection
    request ends the pipeline, and no conversion is attempted. *)
Lemma detection_failure_counterexample :
  ocrImgHandle (numbering_service (Throw server_error))
    "photo" default_options fresh
  = (Throw server_error,
     {| world := 1%nat;
        calls := [CallFindDocuments {| img_handle := "photo" |}] |}).
Proof. reflexivity. Qed.

Lemma ocrImgHandle_fan_out_witness :
  ocrImgHandle (numbering_service (Return two_documents))
    "photo" default_options fresh
  = (Return "optimized-8",
     {| world := 9%nat;
        calls :=
          [ CallFindDocuments {| img_handle := "photo" |};
            CallExtractQuadrilateral
              {| ImgExtractQuadrilateralRequest.img_handle := "photo";
                 ImgExtractQuadrilateralRequest.quadrilateral := left_half |};
            CallExtractQuadrilateral
              {| ImgExtractQuadrilateralRequest.img_handle := "photo";
                 ImgExtractQuadrilateralRequest.quadrilateral := unit_square |};
            CallImgOcrToPdf
              {| ImgOcrToPdfRequest.img_handle := "doc-1";
                 ImgOcrToPdfRequest.options := None |};
            CallImgOcrToPdf
              {| ImgOcrToPdfRequest.img_handle := "doc-2";
                 ImgOcrToPdfRequest.options := None |};
            CallCompose
              {| pdfs := [ {| PdfComposePdf.pdf_handle := "page-3";
                              PdfComposePdf.pages := None |};
                           {| PdfComposePdf.pdf_handle := "page-4";
                              PdfComposePdf.pages := None |} ] |};
            CallOrientation {| pdf_handle := "composed-5" |};
            CallPdfOcrToPdf {| pdf_handle := "oriented-6" |};
            CallOptimize
              {| PdfOptimizeRequest.pdf_handle := "ocr-7";
                 PdfOptimizeRequest.image_dpi := None;
                 PdfOptimizeRequest.image_quality := None;
                 PdfOptimizeRequest.image_color := None |} ] |}).
Proof.
  assert (Hsome : documents two_documents <> []) by discriminate.
  apply (proj2 (ocrImgHandle_fan_out
                  (numbering_service (Return two_documents))
                  "photo" default_options fresh
                  {| world := 1%nat;
                     calls :=
                       [CallFindDocuments {| img_handle := "photo" |}] |}
                  two_documents eq_refl eq_refl Hsome _ _)).
  exists [ {| img_handle := "doc-1" |}; {| img_handle := "doc-2" |} ],
         [ {| pdf_handle := "page-3" |}; {| pdf_handle := "page-4" |} ],
         {| pdf_handle := "composed-5" |},
         {| orientations := []; rotated_pdf_handle := "oriented-6" |},
         {| pdf_handle := "ocr-7" |}, {| pdf_handle := "optimized-8" |}.
  do 5 eexists. repeat split.
Defined.

Lemma entry_points_compose_witness :
  ocrPdf (numbering_service (Return two_documents)) MoreSamples.raw_input
    MoreSamples.pdf_options fresh
  = ocrPdfHandle (numbering_service (Return two_documents)) "pdf-1"
      MoreSamples.pdf_options
      {| world := 2%nat;
         calls :=
           [CallUpload
              (toFile MoreSamples.raw_input "document.pdf" "application/pdf")
              None;
            CallPdfValidate
              {| PdfValidateRequest.unvalidated_file_handle := "raw-0";
                 PdfValidateRequest.password := Some "secret" |}] |}.
Proof.
  exact (proj1
           (proj1 (entry_points_compose
                     (numbering_service (Return two_documents)))
              MoreSamples.raw_input MoreSamples.pdf_options fresh
              {| Data.post_url := "https://storage.example/upload";
                 Data.post_header := [];
                 Data.unvalidated_file_handle := "raw-0" |}
              {| response := ValidateResponseOk "pdf-1" |}
              "pdf-1"
              {| world := 1%nat;
                 calls :=
                   [CallUpload
                      (toFile MoreSamples.raw_input "document.pdf"
                         "application/pdf")
                      None] |}
              {| world := 2%nat;
                 calls :=
                   [CallUpload
                      (toFile MoreSamples.raw_input "document.pdf"
                         "application/pdf")
                      None;
                    CallPdfValidate
                      {| PdfValidateRequest.unvalidated_file_handle := "raw-0";
                         PdfValidateRequest.password := Some "secret" |}] |}
              eq_refl eq_refl eq_refl)).
Defined.

End FlowExamples.

(** ** Email trees *)

Section EmailTrees.

Import Validation Email.

Lemma EmailHandle_tree_ind (P : EmailHandle -> Prop) :
  (forall email,
      Forall P (flat_map nested_email (attachments email)) -> P email) ->
  forall email, P email.
Proof.
  intros step. fix IH 1. intros email. apply step.
  destruct email as [? ? ? ? ? ? ? ? ? ? atts]. cbn [attachments].
  induction atts as [|a atts IHatts]; cbn [flat_map]; [constructor|].
  apply Forall_app. split; [|exact IHatts].
  unfold nested_email.
  destruct (EmailAttachment.validated a) as [[r|r|[e|?|?]]|];
    repeat constructor. apply IH.
Qed.

Ltac collect_loop :=
  intros [? ? ? ? ? ? ? ? ? ? atts];
  cbn [attachments collectEmailHandles collectPdfHandles collectImgHandles
       collectUnvalidatedFileHandles];
  match goal with
  | |- ?loop atts _ = _ ++ ?rhs =>
      cut (forall handles, loop atts handles = handles ++ rhs);
      [ let H := fresh in intros H; apply H | ]
  end;
  induction atts as [|a atts IH]; intros handles; cbn [flat_map];
  [ now rewrite app_nil_r
  | rewrite IH, app_assoc; f_equal; unfold nested_email, pdf_of, img_of;
    destruct (EmailAttachment.validated a) as [[r|r|[e|?|?]]|];
    try destruct (response r); cbn [flat_map app];
    rewrite ?app_nil_r, <- ?app_assoc; reflexivity ].

Lemma collectEmailHandles_eq :
  forall email,
    collectEmailHandles email
    = [email]
      ++ flat_map (fun a => flat_map collectEmailHandles (nested_email a))
           (attachments email).
Proof. collect_loop. Qed.

Lemma collectPdfHandles_eq :
  forall email,
    collectPdfHandles email
    = [] ++ flat_map (fun a => pdf_of a
                         ++ flat_map collectPdfHandles (nested_email a))
          (attachments email).
Proof. collect_loop. Qed.

Lemma collectImgHandles_eq :
  forall email,
    collectImgHandles email
    = [] ++ flat_map (fun a => img_of a
                         ++ flat_map collectImgHandles (nested_email a))
          (attachments email).
Proof. collect_loop. Qed.

Lemma collectUnvalidatedFileHandles_eq :
  forall email,
    collectUnvalidatedFileHandles email
    = [] ++ flat_map (fun a => [EmailAttachment.unvalidated_file_handle a]
                         ++ flat_map collectUnvalidatedFileHandles
                              (nested_email a))
          (attachments email).
Proof. collect_loop. Qed.

Lemma inside_trans (root middle email : EmailHandle) :
  inside root middle -> inside middle email -> inside root email.
Proof.
  intros Hrm Hme. induction Hme as [|parent email a _ IH Ha He]; [assumption|].
  now apply inside_nested with parent a.
Qed.

Lemma collectEmailHandles_sound :
  forall root email, In email (collectEmailHandles root) -> inside root email.
Proof.
  induction root as [root IH] using EmailHandle_tree_ind. intros email.
  rewrite collectEmailHandles_eq. cbn [app In]. intros [<- | Hin].
  - constructor.
  - apply in_flat_map in Hin as (a & Ha & Hin).
    apply in_flat_map in Hin as (e & He & Hin).
    apply inside_trans with e.
    + apply inside_nested with root a; [constructor | assumption | assumption].
    + rewrite Forall_forall in IH. apply IH; [|assumption].
      apply in_flat_map. eauto.
Qed.

Lemma collectEmailHandles_root (root : EmailHandle) :
  In root (collectEmailHandles root).
Proof. rewrite collectEmailHandles_eq. now left. Qed.

Lemma collectEmailHandles_closed :
  forall root email,
    In email (collectEmailHandles root) ->
    incl (collectEmailHandles email) (collectEmailHandles root).
Proof.
  induction root as [root IH] using EmailHandle_tree_ind. intros email.
  rewrite (collectEmailHandles_eq root). cbn [app In]. intros [<- | Hin].
  - rewrite (collectEmailHandles_eq root). apply incl_refl.
  - apply in_flat_map in Hin as (a & Ha & Hin).
    apply in_flat_map in Hin as (e & He & Hin).
    rewrite Forall_forall in IH.
    intros x Hx. right. apply in_flat_map. exists a. split; [assumption|].
    apply in_flat_map. exists e. split; [assumption|].
    apply (IH e (proj2 (in_flat_map _ _ _) (ex_intro _ a (conj Ha He)))
             email Hin x Hx).
Qed.

Lemma collectEmailHandles_complete (root email : EmailHandle) :
  inside root email -> In email (collectEmailHandles root).
Proof.
  induction 1 as [|parent email a _ IH Ha He].
  - apply collectEmailHandles_root.
  - apply (collectEmailHandles_closed root parent IH).
    rewrite collectEmailHandles_eq. right.
    apply in_flat_map. exists a. split; [assumption|].
    apply in_flat_map. exists email. split; [assumption|].
    apply collectEmailHandles_root.
Qed.

Lemma flat_map_app_perm {A B : Type} (f g : A -> list B) (l : list A) :
  Permutation (flat_map (fun a => f a ++ g a) l) (flat_map f l ++ flat_map g l).
Proof.
  induction l as [|a l IH]; cbn; [reflexivity|].
  rewrite IH, <- !app_assoc. apply Permutation_app_head.
  rewrite !app_assoc. apply Permutation_app_tail, Permutation_app_comm.
Qed.

Lemma flat_map_nested {A B C : Type} (f : B -> list C) (g : A -> list B)
    (l : list A) :
  flat_map f (flat_map g l) = flat_map (fun a => flat_map f (g a)) l.
Proof.
  induction l as [|a l IH]; cbn; [reflexivity|].
  now rewrite flat_map_app, IH.
Qed.

Lemma flat_map_perm_ext {A B : Type} (f g : A -> list B) (l : list A) :
  Forall (fun a => Permutation (f a) (g a)) l ->
  Permutation (flat_map f l) (flat_map g l).
Proof.
  induction 1 as [|a l Ha _ IH]; cbn; [reflexivity|].
  now apply Permutation_app.
Qed.

(** A collector that gathers [direct] from every attachment and recurses into
    nested emails gathers [direct] over all emails of the tree. *)
Lemma collect_by_email {A : Type} (direct : EmailAttachment -> list A)
    (collect : EmailHandle -> list A) :
  (forall email,
      collect email
      = [] ++ flat_map (fun a => direct a ++ flat_map collect (nested_email a))
                (attachments email)) ->
  forall root,
    Permutation (collect root)
      (flat_map (fun email => flat_map direct (attachments email))
         (collectEmailHandles root)).
Proof.
  intros Heq. induction root as [root IH] using EmailHandle_tree_ind.
  rewrite Heq, collectEmailHandles_eq. cbn [app flat_map].
  rewrite flat_map_app_perm. apply Permutation_app_head.
  rewrite !flat_map_nested.
  apply flat_map_perm_ext. apply Forall_forall. intros a Ha.
  rewrite flat_map_nested. apply flat_map_perm_ext. apply Forall_forall.
  intros e He. rewrite Forall_forall in IH. apply IH.
  apply in_flat_map. eauto.
Qed.

(** X1. [collectEmailHandles] lists the root first and then exactly the
    emails reached from it through attachments that validated as emails. *)
Theorem collectEmailHandles_inside (root : EmailHandle) :
  (exists rest, collectEmailHandles root = root :: rest) /\
  (forall email, In email (collectEmailHandles root) <-> inside root email).
Proof.
  split.
  - rewrite collectEmailHandles_eq. cbn [app]. eauto.
  - intros email. split.
    + apply collectEmailHandles_sound.
    + apply collectEmailHandles_complete.
Qed.

(** X2. [collectPdfHandles] returns, up to order, the handles of the
    attachments that validated as PDFs, over all the emails that
    [collectEmailHandles] lists; so a handle is returned exactly when some
    email of the tree holds it in a successfully validated PDF attachment. *)
Theorem collectPdfHandles_by_email (root : EmailHandle) :
  Permutation (collectPdfHandles root)
    (flat_map (fun email => flat_map pdf_of (attachments email))
       (collectEmailHandles root)) /\
  (forall handle,
      In handle (collectPdfHandles root) <->
      exists email attachment,
        inside root email /\ In attachment (attachments email) /\
        In handle (pdf_of attachment)).
Proof.
  pose proof (collect_by_email pdf_of collectPdfHandles collectPdfHandles_eq
                root) as Hperm.
  split; [exact Hperm|]. intros handle. split.
  - intros Hin. apply (Permutation_in _ Hperm) in Hin.
    apply in_flat_map in Hin as (email & He & Hin).
    apply in_flat_map in Hin as (a & Ha & Hin).
    exists email, a. repeat split; try assumption.
    now apply collectEmailHandles_sound.
  - intros (email & a & He & Ha & Hin).
    apply (Permutation_in _ (Permutation_sym Hperm)).
    apply in_flat_map. exists email. split.
    + now apply collectEmailHandles_complete.
    + apply in_flat_map. eauto.
Qed.

(** X3. [collectImgHandles] returns, up to order, the handles of the
    attachments that validated as images, over all the emails that
    [collectEmailHandles] lists. *)
Theorem collectImgHandles_by_email (root : EmailHandle) :
  Permutation (collectImgHandles root)
    (flat_map (fun email => flat_map img_of (attachments email))
       (collectEmailHandles root)) /\
  (forall handle,
      In handle (collectImgHandles root) <->
      exists email attachment,
        inside root email /\ In attachment (attachments email) /\
        In handle (img_of attachment)).
Proof.
  pose proof (collect_by_email img_of collectImgHandles collectImgHandles_eq
                root) as Hperm.
  split; [exact Hperm|]. intros handle. split.
  - intros Hin. apply (Permutation_in _ Hperm) in Hin.
    apply in_flat_map in Hin as (email & He & Hin).
    apply in_flat_map in Hin as (a & Ha & Hin).
    exists email, a. repeat split; try assumption.
    now apply collectEmailHandles_sound.
  - intros (email & a & He & Ha & Hin).
    apply (Permutation_in _ (Permutation_sym Hperm)).
    apply in_flat_map. exists email. split.
    + now apply collectEmailHandles_complete.
    + apply in_flat_map. eauto.
Qed.

Lemma flat_map_singleton {A B : Type} (f : A -> B) (l : list A) :
  flat_map (fun a => [f a]) l = map f l.
Proof. induction l as [|a l IH]; cbn; [reflexivity | now rewrite IH]. Qed.

Lemma length_flat_map_map {A B C : Type} (f : B -> C) (g : A -> list B)
    (l : list A) :
  List.length (flat_map (fun a => map f (g a)) l)
  = list_sum (map (fun a => List.length (g a)) l).
Proof.
  induction l as [|a l IH]; cbn; [reflexivity|].
  now rewrite length_app, length_map, IH.
Qed.

(** X4. [collectUnvalidatedFileHandles] returns, up to order, one handle per
    attachment of every email that [collectEmailHandles] lists, so as many
    handles as the tree has attachments; the [text_body] and [html_body] of
    an email are never part of the result. *)
Theorem collectUnvalidatedFileHandles_attachments (root : EmailHandle) :
  Permutation (collectUnvalidatedFileHandles root)
    (flat_map (fun email =>
                 map EmailAttachment.unvalidated_file_handle
                   (attachments email))
       (collectEmailHandles root)) /\
  List.length (collectUnvalidatedFileHandles root)
  = list_sum (map (fun email => List.length (attachments email))
                (collectEmailHandles root)) /\
  (forall text html,
      collectUnvalidatedFileHandles (with_bodies root text html)
      = collectUnvalidatedFileHandles root).
Proof.
  assert (Hperm :
    Permutation (collectUnvalidatedFileHandles root)
      (flat_map (fun email =>
                   map EmailAttachment.unvalidated_file_handle
                     (attachments email))
         (collectEmailHandles root))).
  { rewrite (collect_by_email
               (fun a => [EmailAttachment.unvalidated_file_handle a])
               collectUnvalidatedFileHandles
               collectUnvalidatedFileHandles_eq root).
    apply flat_map_perm_ext, Forall_forall. intros email _.
    now rewrite flat_map_singleton. }
  split; [exact Hperm|]. split.
  - rewrite (Permutation_length Hperm). apply length_flat_map_map.
  - intros text html. now rewrite !collectUnvalidatedFileHandles_eq.
Qed.

End EmailTrees.

(** ** More on quadrilaterals and URLs *)

Section QuadrilateralMore.

Import Img.
Local Open Scope Q_scope.

(** Two lists sorted by a key, with the same elements, are equal when no two
    different elements share a key. *)
Lemma sorted_unique {A : Type} (key : A -> Q) :
  forall l1 l2 : list A,
    (forall a b, In a l1 -> In b l1 -> key a == key b -> a = b) ->
    Sorted (key_le key) l1 -> Sorted (key_le key) l2 ->
    Permutation l1 l2 -> l1 = l2.
Proof.
  assert (Htrans : Relations_1.Transitive (key_le key))
    by (intros a b c; unfold key_le; intros; lra).
  induction l1 as [|a1 l1 IH]; intros l2 Hinj Hs1 Hs2 Hperm.
  - now apply Permutation_nil in Hperm.
  - destruct l2 as [|a2 l2].
    { apply Permutation_sym, Permutation_nil in Hperm. discriminate. }
    apply Sorted_StronglySorted in Hs1; [|exact Htrans].
    apply Sorted_StronglySorted in Hs2; [|exact Htrans].
    apply StronglySorted_inv in Hs1 as [Hs1 Hall1].
    apply StronglySorted_inv in Hs2 as [Hs2 Hall2].
    rewrite Forall_forall in Hall1, Hall2.
    assert (Heq : a1 = a2).
    { assert (H21 : In a2 (a1 :: l1))
        by (apply (Permutation_in _ (Permutation_sym Hperm)); now left).
      assert (H12 : In a1 (a2 :: l2))
        by (apply (Permutation_in _ Hperm); now left).
      destruct H21 as [H21 | H21]; [assumption|].
      destruct H12 as [H12 | H12]; [now symmetry|].
      apply Hinj; [now left | now right |].
      specialize (Hall1 _ H21). specialize (Hall2 _ H12).
      unfold key_le in *. lra. }
    subst a2. f_equal. apply IH.
    + intros a b Ha Hb. apply Hinj; now right.
    + now apply StronglySorted_Sorted.
    + now apply StronglySorted_Sorted.
    + now apply Permutation_cons_inv with a1.
Qed.

(** X5. When no two different input points share a y coordinate, the
    quadrilateral does not depend on the order in which the four points are
    given. *)
Theorem fromUnsorted_order_independent
    (points points' : list RelativePosition) :
  (forall a b, In a points -> In b points -> y a == y b -> a = b) ->
  Permutation points points' ->
  fromUnsorted points = fromUnsorted points'.
Proof.
  intros Hinj Hperm. unfold fromUnsorted.
  rewrite <- (Permutation_length Hperm).
  destruct (negb (Nat.eqb (List.length points) 4)); [reflexivity|].
  replace (sort (fun a b => y a - y b) points')
    with (sort (fun a b => y a - y b) points); [reflexivity|].
  apply (sorted_unique y).
  - intros a b Ha Hb. apply Hinj.
    + now apply (Permutation_in _ (sort_perm y points)).
    + now apply (Permutation_in _ (sort_perm y points)).
  - apply sort_sorted.
  - apply sort_sorted.
  - rewrite (sort_perm y points), (sort_perm y points'). exact Hperm.
Qed.

(** X6. On four points with coordinates in [0, 1], the result passes the
    whole of [QuadrilateralSchema]: every corner is within range and the
    ordering refinement holds.  Moreover both top corners are at most as
    low as both bottom corners. *)
Theorem fromUnsorted_schema (points : list RelativePosition) :
  List.length points = 4%nat ->
  Forall RelativePositionSchema points ->
  exists q,
    fromUnsorted points = Return q /\
    Forall RelativePositionSchema (corners q) /\
    QuadrilateralSchema_refine q /\
    y (top_left q) <= y (bottom_right q) /\
    y (top_right q) <= y (bottom_left q).
Proof.
  intros Hlen Hrange.
  destruct (fromUnsorted_shape points Hlen)
    as (a & b & c & d & tl & tr & bl & br & Hp & Hy & [Ht Htx] & [Hb Hbx] & E).
  eexists. split; [exact E|].
  assert (Hall : Forall RelativePositionSchema [a; b; c; d]).
  { apply Forall_forall. intros p Hin. rewrite Forall_forall in Hrange.
    apply Hrange. now apply (Permutation_in _ Hp). }
  rewrite Forall_forall in Hall.
  unfold corners, QuadrilateralSchema_refine. cbn.
  destruct Ht as [Ht|Ht]; injection Ht as -> ->;
    destruct Hb as [Hb|Hb]; injection Hb as -> ->;
    (split; [repeat constructor; apply Hall; cbn; tauto|]);
    repeat split; lra.
Qed.

End QuadrilateralMore.

Section UrlFacts.

Import Urls.
Local Open Scope string_scope.

Lemma strip_trailing_slash_app (s : string) :
  strip_trailing_slash (s ++ "/") = s.
Proof.
  induction s as [|c s IH]; [reflexivity|].
  cbn [append strip_trailing_slash]. rewrite IH.
  destruct s; reflexivity.
Qed.

Lemma strip_trailing_slash_none (s : string) :
  ends_with_slash s = false -> strip_trailing_slash s = s.
Proof.
  induction s as [|c s IH]; [reflexivity|].
  cbn [ends_with_slash strip_trailing_slash]. destruct s as [|c' s].
  - now intros ->.
  - intros H. now rewrite IH.
Qed.

Lemma ends_with_slash_app (s : string) : ends_with_slash (s ++ "/") = true.
Proof.
  induction s as [|c s IH]; [reflexivity|].
  cbn [append ends_with_slash]. rewrite IH. destruct s; reflexivity.
Qed.

(** X7. The constructor of [FetchWrapper] removes exactly one trailing slash
    from the base URL: a base given with or without a final slash gives the
    same request URLs, a base without one is kept as it is, and of two final
    slashes one stays. *)
Theorem new_FetchWrapper_trailing_slash (jwt base path : string) :
  url (new_FetchWrapper jwt (base ++ "/")) path = base ++ path /\
  (ends_with_slash base = false ->
   url (new_FetchWrapper jwt base) path = base ++ path) /\
  ends_with_slash (apiUrlWithVersion (new_FetchWrapper jwt (base ++ "//")))
  = true.
Proof.
  unfold url, new_FetchWrapper. cbn [apiUrlWithVersion]. split; [|split].
  - now rewrite strip_trailing_slash_app.
  - intros H. now rewrite strip_trailing_slash_none.
  - replace (base ++ "//") with ((base ++ "/") ++ "/").
    + rewrite strip_trailing_slash_app. apply ends_with_slash_app.
    + induction base as [|c base IH]; [reflexivity|]. cbn. now rewrite IH.
Qed.

Lemma combine_three (base segment ep : string) :
  base <> "" -> segment <> "" ->
  combine [base; segment; ep]
  = if String.eqb ep "" then base ++ "/" ++ segment
    else base ++ "/" ++ segment ++ "/" ++ ep.
Proof.
  intros Hbase Hsegment. unfold combine. cbn [filter].
  rewrite (proj2 (String.eqb_neq base "") Hbase).
  rewrite (proj2 (String.eqb_neq segment "") Hsegment).
  destruct (String.eqb ep ""); reflexivity.
Qed.

(** X8. [Path.combine] drops empty segments before joining, so the endpoint
    URLs of a non-empty base never end with a slash when [ep] is empty:
    [webview ""] is [base/webview] and [webview ep] is [base/webview/ep];
    likewise for [workspace] and [error]. *)
Theorem Path_endpoints (base ep : string) :
  base <> "" ->
  (forall paths,
      combine (filter (fun s => negb (String.eqb s "")) paths)
      = combine paths) /\
  webview base "" = base ++ "/webview" /\
  workspace base "" = base ++ "/workspace" /\
  error base "" = base ++ "/error" /\
  (ep <> "" ->
   webview base ep = base ++ "/webview/" ++ ep /\
   workspace base ep = base ++ "/workspace/" ++ ep /\
   error base ep = base ++ "/error/" ++ ep).
Proof.
  intros Hbase. split; [|split; [|split; [|split]]].
  - intros paths. unfold combine. f_equal.
    induction paths as [|p paths IH]; cbn [filter]; [reflexivity|].
    destruct (negb (String.eqb p "")) eqn:E; cbn [filter]; rewrite ?E, IH;
      reflexivity.
  - unfold webview. now rewrite combine_three.
  - unfold workspace. now rewrite combine_three.
  - unfold error. now rewrite combine_three.
  - intros Hep. unfold webview, workspace, error.
    rewrite !combine_three by (assumption || discriminate).
    rewrite (proj2 (String.eqb_neq ep "") Hep). repeat split.
Qed.

End UrlFacts.

(** ** More on the job client *)

Section JobClientMore.

Import Fetch.

Context {Out : Type}.
Variable schema : Json -> option Out.
Variable fetch : nat -> FetchResult.

Lemma throw_http_error_throws (res : Response) :
  exists e, throw_http_error (Out := Out) res = Throw e.
Proof.
  unfold throw_http_error, res_json, parse.
  destruct (json res) as [data|]; cbn; [|eauto].
  destruct (HttpErrorResponseSchema data); cbn; eauto.
Qed.

Lemma pollResult_turn_return (retry_count : nat) (fetched : FetchResult)
    (out : Out) :
  pollResult_turn schema retry_count fetched = Settle (Return out) ->
  exists res data,
    fetched = Responded res /\ status res = 200 /\
    json res = Some data /\ schema data = Some out.
Proof.
  unfold pollResult_turn. destruct fetched as [res|]; [|discriminate].
  destruct (Z.eqb (status res) 200) eqn:E200.
  - apply Z.eqb_eq in E200. unfold res_json, parse.
    destruct (json res) as [data|] eqn:Ej; [|discriminate].
    destruct (schema data) as [out'|] eqn:Es; [|discriminate].
    intros H. injection H as ->. exists res, data. now repeat split.
  - destruct (Z.eqb (status res) 202).
    + destruct (Nat.ltb MAX_RETRIES (S retry_count)); discriminate.
    + destruct (throw_http_error_throws res) as [e He]. rewrite He.
      discriminate.
Qed.

Lemma pollResult_loop_requests :
  forall fuel polls retry_count result n,
    (retry_count <= MAX_RETRIES)%nat ->
    pollResult_loop schema fetch fuel polls retry_count = Some (result, n) ->
    (polls < n)%nat /\ (n + retry_count <= polls + S MAX_RETRIES)%nat /\
    (forall i, (polls <= i)%nat -> (S i < n)%nat -> responds_202 fetch i) /\
    (forall out, result = Return out ->
       exists res data,
         fetch (n - 1)%nat = Responded res /\ status res = 200 /\
         json res = Some data /\ schema data = Some out).
Proof.
  induction fuel as [|fuel IH]; intros polls rc result n Hrc Hrun;
    [discriminate|].
  cbn [pollResult_loop] in Hrun.
  destruct (pollResult_turn schema rc (fetch polls)) as [rc'|r] eqn:Et.
  - apply pollResult_turn_continue in Et as (H202 & -> & Hrc').
    destruct (IH _ _ _ _ Hrc' Hrun) as (Hn & Hbound & Hprefix & Hlast).
    repeat split; try lia.
    + intros i Hi Hin. destruct (Nat.eq_dec i polls) as [->|Hne];
        [exact H202 | apply Hprefix; lia].
    + exact Hlast.
  - injection Hrun as <- <-. repeat split; try lia.
    intros out ->. apply pollResult_turn_return in Et.
    now replace (S polls - 1)%nat with polls by lia.
Qed.

(** X9. Whatever the server does, [pollResult] settles, with a value or
    an error, after at least one and at most 121 requests (any fuel above
    the ceiling is enough); every request before the last was answered 202;
    it returns a value only when the last answer was a 200 whose body the
    schema accepts; and when 121 requests in a row are answered 202, it
    makes exactly these 121 requests and fails with the timeout error. *)
Theorem pollResult_requests (fuel : nat) :
  (120 < fuel)%nat ->
  exists result n,
    pollResult schema fetch fuel = Some (result, n) /\
    (1 <= n <= 121)%nat /\
    (forall i, (S i < n)%nat -> responds_202 fetch i) /\
    (forall out, result = Return out ->
       exists res data,
         fetch (n - 1)%nat = Responded res /\ status res = 200 /\
         json res = Some data /\ schema data = Some out) /\
    ((forall i, (i < 121)%nat -> responds_202 fetch i) ->
     result = Throw PollTimeoutError /\ n = 121%nat).
Proof.
  intros Hfuel.
  destruct (pollResult schema fetch fuel) as [[result n]|] eqn:Hrun.
  - exists result, n. split; [reflexivity|].
    destruct (pollResult_loop_requests fuel 0 0 result n (Nat.le_0_l _) Hrun)
      as (Hn & Hbound & Hprefix & Hlast).
    unfold MAX_RETRIES in Hbound.
    split; [lia|]. split; [intros i Hi; apply Hprefix; lia|].
    split; [exact Hlast|].
    intros H202. revert Hrun. unfold pollResult.
    replace fuel with (120 + S (fuel - 121))%nat at 1 by lia.
    rewrite (pollResult_loop_skip schema fetch 120);
      [|intros i Hi; apply H202; lia | unfold MAX_RETRIES; lia].
    destruct (H202 120%nat) as (res & Hf & Hs); [lia|].
    cbn [Nat.add pollResult_loop].
    rewrite Hf, (pollResult_turn_202 _ _ _ Hs). cbn.
    intros Hrun. injection Hrun as <- <-. now split.
  - exfalso.
    apply (pollResult_loop_total schema fetch fuel 0%nat 0%nat);
      [lia | unfold MAX_RETRIES; lia | exact Hrun].
Qed.

(** X10. A poll that is answered 200 with a body that is not JSON, or that
    the schema rejects, fails at once with that error, and a network
    failure fails at once with the rejection of [fetch]: none of them is
    retried. *)
Theorem pollResult_no_retry_on_failure (fuel k : nat) :
  (MAX_RETRIES < fuel)%nat -> (k <= MAX_RETRIES)%nat ->
  (forall i, (i < k)%nat -> responds_202 fetch i) ->
  (fetch k = NetworkFailure ->
   pollResult schema fetch fuel = Some (Throw TypeError, S k)) /\
  (forall res,
      fetch k = Responded res -> status res = 200 -> json res = None ->
      pollResult schema fetch fuel = Some (Throw SyntaxError, S k)) /\
  (forall res data,
      fetch k = Responded res -> status res = 200 ->
      json res = Some data -> schema data = None ->
      pollResult schema fetch fuel = Some (Throw ZodError, S k)).
Proof.
  intros Hfuel Hk H202.
  assert (Hskip : pollResult schema fetch fuel
                  = pollResult_loop schema fetch (S (fuel - S k)) k k).
  { unfold pollResult.
    replace fuel with (k + S (fuel - S k))%nat at 1
      by (unfold MAX_RETRIES in *; lia).
    rewrite pollResult_loop_skip; [reflexivity | exact H202 | lia]. }
  rewrite Hskip. cbn [pollResult_loop]. split; [|split].
  - intros ->. reflexivity.
  - intros res -> Hs Hj. unfold pollResult_turn, res_json.
    now rewrite Hs, Hj.
  - intros res data -> Hs Hj Hp. unfold pollResult_turn, res_json, parse.
    now rewrite Hs, Hj, Hp.
Qed.

(** X11. [request] returns a value only for a response with status 200 or
    201 whose body the schema accepts; whatever it throws is the rejection
    of [fetch], the JSON or schema error of a 200/201 body, an
    [ApiErrorException] or the plain status-line [Error]. *)
Theorem request_outcomes (fetched : FetchResult) :
  (forall out,
      request fetched schema = Return out ->
      exists res data,
        fetched = Responded res /\ (status res = 200 \/ status res = 201) /\
        json res = Some data /\ schema data = Some out) /\
  (forall e,
      request fetched schema = Throw e ->
      (e = TypeError /\ fetched = NetworkFailure) \/
      (exists res,
          fetched = Responded res /\
          (((status res = 200 \/ status res = 201) /\
            (e = SyntaxError \/ e = ZodError)) \/
           (status res <> 200 /\ status res <> 201 /\
            ((exists status_code api_error,
                 e = ApiErrorException status_code api_error) \/
             e = TransportError res))))).
Proof.
  unfold request. destruct fetched as [res|].
  2:{ split; [discriminate|]. intros e H. injection H as <-. now left. }
  destruct (Z.eqb (status res) 200 || Z.eqb (status res) 201) eqn:E.
  - assert (Hst : status res = 200 \/ status res = 201).
    { apply orb_true_iff in E as [E|E]; apply Z.eqb_eq in E; auto. }
    unfold res_json, parse.
    destruct (json res) as [data|] eqn:Ej;
      [destruct (schema data) as [out'|] eqn:Es|]; split;
      try discriminate.
    + intros out H. injection H as ->. exists res, data. tauto.
    + intros e H. injection H as <-. right. exists res. tauto.
    + intros e H. injection H as <-. right. exists res. tauto.
  - apply orb_false_iff in E as [E200 E201].
    apply Z.eqb_neq in E200, E201. split.
    + intros out H. destruct (throw_http_error_throws res) as [e He].
      congruence.
    + intros e H. right. exists res. split; [reflexivity|]. right.
      repeat split; try assumption.
      unfold throw_http_error, res_json, parse, TransportError in *.
      destruct (json res) as [data|]; cbn in H.
      * destruct (HttpErrorResponseSchema data) as [env|]; cbn in H;
          injection H as <-;
          [left; unfold fromHttpResponse; eauto | now right].
      * injection H as <-. now right.
Qed.

End JobClientMore.

(** ** More on transfers *)

Section TransferMore.

Import Data Fetch Transfers.

(** The read loop and [arrayBuffer()] read the same body. *)
Lemma read_loop_read_all (total : Z) (reads : list ReadResult) :
  forall chunks loaded,
    match fst (read_loop reads total chunks loaded) with
    | Return (cs, n) =>
        exists bytes,
          read_all reads = Return bytes /\
          List.concat cs = (List.concat chunks ++ bytes)%list /\
          n = (loaded + List.length bytes)%nat
    | Throw e => read_all reads = Throw e
    end.
Proof.
  induction reads as [|[value|] reads IH]; intros chunks loaded;
    cbn [read_loop read_all fst].
  - exists []. now rewrite app_nil_r, Nat.add_0_r.
  - specialize (IH (chunks ++ [value])%list (loaded + List.length value)%nat).
    destruct (read_loop reads total (chunks ++ [value])
                (loaded + List.length value)) as [[[cs n]|e] calls];
      cbn [fst] in *.
    + destruct IH as (bytes & -> & Hcs & ->). exists (value ++ bytes)%list.
      repeat split.
      * rewrite Hcs, concat_app. cbn. now rewrite app_nil_r, <- app_assoc.
      * rewrite length_app. lia.
    + now rewrite IH.
  - reflexivity.
Qed.

(** X12. The bytes [downloadBinary] returns never depend on the
    Content-Length header: for every successful status the outcome is the
    one [response.arrayBuffer()] gives, whether or not progress is
    tracked. *)
Theorem downloadBinary_payload (response : DownloadResponse) :
  ok response = true ->
  fst (downloadBinary (Downloaded response)) = arrayBuffer response.
Proof.
  intros Hok. unfold downloadBinary. rewrite Hok. cbn [negb].
  destruct (usable_total (content_length response)) as [total|];
    [|destruct (body response); reflexivity].
  unfold arrayBuffer. destruct (body response) as [reads|]; [|reflexivity].
  pose proof (read_loop_read_all total reads [] 0%nat) as H.
  destruct (read_loop reads total [] 0) as [[[cs n]|e] calls]; cbn [fst] in *.
  - destruct H as (bytes & -> & Hcs & ->). cbn in Hcs. rewrite <- Hcs.
    apply (combine_chunks_concat cs [] (Uint8Array_new _)).
    unfold Uint8Array_new. now rewrite repeat_length, Hcs.
  - now rewrite H.
Qed.

Lemma read_loop_broken (total : Z) (cs : list (list byte))
    (rest : list ReadResult) :
  forall chunks loaded,
    read_loop (map Chunk cs ++ ReadFailure :: rest) total chunks loaded
    = (Throw TypeError,
       map (fun k => percent_of (Z.of_nat loaded + received_after k cs) total)
           (seq 1 (List.length cs))).
Proof.
  induction cs as [|c cs IH]; intros chunks loaded;
    cbn [map app read_loop]; [reflexivity|].
  rewrite IH. cbn [List.length seq map]. f_equal. f_equal.
  - f_equal. unfold received_after. cbn. rewrite app_nil_r. lia.
  - rewrite <- (seq_shift (List.length cs) 1), map_map.
    apply map_ext. intros k. rewrite received_after_cons. f_equal. lia.
Qed.

(** X13. A download answered with a status outside 200-299 fails with
    "Download failed: <status>" without a progress call; a tracked download
    whose stream breaks after some chunks has made one progress call for
    each of those chunks and then fails, returning no partial data.  For
    byte counts that are safe integers, the value reported after a chunk is
    bytesReceived/total*100 as computed in double precision. *)
Theorem downloadBinary_failures (response : DownloadResponse) :
  (ok response = false ->
   downloadBinary (Downloaded response)
   = (Throw (Error ("Download failed: "
                    ++ number_to_string (Data.status response))), [])) /\
  (forall total chunks rest,
      ok response = true ->
      usable_total (content_length response) = Some total ->
      body response = Some (map Chunk chunks ++ ReadFailure :: rest)%list ->
      fst (downloadBinary (Downloaded response)) = Throw TypeError /\
      List.length (snd (downloadBinary (Downloaded response)))
      = List.length chunks /\
      (Number.isSafeInteger total ->
       Number.isSafeInteger (Z.of_nat (List.length (List.concat chunks))) ->
       snd (downloadBinary (Downloaded response))
       = map (fun k =>
                Number.binary64
                  (Number.binary64
                     (inject_Z (received_after k chunks) / inject_Z total)
                   * 100)%Q)
             (seq 1 (List.length chunks)))).
Proof.
  split.
  - intros Hok. unfold downloadBinary. now rewrite Hok.
  - intros total chunks rest Hok Ht Hb. unfold downloadBinary.
    rewrite Hok, Ht, Hb. cbn [negb]. rewrite read_loop_broken.
    cbn [fst snd Nat.add Z.of_nat Z.add]. repeat split.
    + now rewrite length_map, length_seq.
    + intros Htotal Hbytes. apply map_ext. intros k.
      pose proof (received_after_bounds chunks k) as Hk.
      unfold percent_of.
      rewrite !binary64_safe;
        [reflexivity | assumption | unfold Number.isSafeInteger in *; lia].
Qed.

(** X14. Without [XMLHttpRequest], once the upload request has succeeded
    exactly one progress call is made, with 100, whether the transfer to
    storage then succeeds or fails; the upload succeeds exactly when storage
    answers 2xx.  A file of size zero is rejected before any request, and a
    failed upload request makes no progress call. *)
Theorem upload_fallback (size : Z) (env : UploadEnvironment) :
  has_XMLHttpRequest env = false ->
  (size <= 0 -> upload size env = (Some (Throw ZodError), [])) /\
  (forall e,
      0 < size -> posted env = Throw e ->
      upload size env = (Some (Throw e), [])) /\
  (forall response,
      0 < size -> posted env = Return response ->
      snd (upload size env) = [100%Q] /\
      (fst (upload size env) = Some (Return response) <->
       exists res,
         storage_fetch env = Responded res /\
         200 <= Fetch.status res <= 299)).
Proof.
  intros Hxhr. unfold upload. split; [|split].
  - intros Hsize. now rewrite (proj2 (Z.ltb_ge 0 size) Hsize).
  - intros e Hsize Hposted.
    now rewrite (proj2 (Z.ltb_lt 0 size) Hsize), Hposted.
  - intros response Hsize Hposted.
    rewrite (proj2 (Z.ltb_lt 0 size) Hsize), Hposted, Hxhr. cbn [negb fst snd].
    split; [reflexivity|]. unfold uploadWithFetch.
    destruct (storage_fetch env) as [res|].
    + destruct (Z.leb 200 (Fetch.status res) && Z.leb (Fetch.status res) 299)
        eqn:E.
      * split; [|reflexivity]. intros _. exists res. split; [reflexivity|].
        apply andb_true_iff in E as [E1 E2]. lia.
      * split.
        -- unfold try_catch, res_json, parse.
           destruct (json res) as [data|]; cbn;
             [destruct (HttpErrorResponseSchema data); cbn|]; discriminate.
        -- intros (res' & Hres & Hs). injection Hres as <-.
           apply andb_false_iff in E as [E|E]; lia.
    + split; [discriminate|]. intros (res & Hres & _). discriminate.
Qed.

Lemma xhr_dispatch_fold (response : DataUploadResponse)
    (events : list XhrEvent) :
  forall promise calls,
    exists calls',
      fold_left (xhr_dispatch response) events (promise, calls)
      = (match promise with
         | Some _ => promise
         | None => first_settlement response events
         end, (calls ++ calls')%list) /\
      Forall (fun v => 0 <= v /\ v <= 100)%Q calls'.
Proof.
  induction events as [|ev events IH]; intros promise calls.
  - exists []. cbn. rewrite app_nil_r. split; [|constructor].
    now destruct promise.
  - cbn [fold_left first_settlement]. destruct ev as [event|st txt|st txt|];
      cbn [xhr_dispatch].
    + destruct (IH promise (calls ++ onprogress event)%list)
        as (calls' & -> & Hrange).
      exists (onprogress event ++ calls')%list.
      rewrite app_assoc. split; [reflexivity|].
      apply Forall_app. split; [|assumption].
      destruct (onprogress_cases event) as [-> | (_ & -> & H0 & H100)];
        repeat constructor; assumption.
    + destruct (Z.leb 200 st && Z.ltb st 300);
        match goal with
        | |- context [settle promise ?r] =>
            destruct (IH (settle promise r) calls) as (calls' & -> & Hrange)
        end;
        exists calls'; (split; [|assumption]); now destruct promise.
    + match goal with
      | |- context [settle promise ?r] =>
          destruct (IH (settle promise r) calls) as (calls' & -> & Hrange)
      end.
      exists calls'. split; [|assumption]. now destruct promise.
    + destruct (IH promise (calls ++ [100%Q])%list) as (calls' & -> & Hrange).
      exists (100%Q :: calls'). rewrite <- app_assoc. split; [reflexivity|].
      constructor; [|assumption]. split; unfold Qle; cbn; lia.
Qed.

(** X15. Whatever events an [XMLHttpRequest] fires and in whatever order,
    every value [uploadWithXHR] passes to the progress callback lies in
    [0, 100], and its promise is settled by the first [load] or [error]
    event alone: later ones change nothing, and without one it stays
    pending. *)
Theorem uploadWithXHR_any_events (response : DataUploadResponse)
    (events : list XhrEvent) :
  fst (uploadWithXHR response events) = first_settlement response events /\
  Forall (fun v => 0 <= v /\ v <= 100)%Q (snd (uploadWithXHR response events)).
Proof.
  unfold uploadWithXHR.
  destruct (xhr_dispatch_fold response events None []) as (calls & -> & Hrange).
  now split.
Qed.

End TransferMore.

Section DownloadsMore.

Import Data Downloads.

(** X16. A typed download ([downloadPdf], [downloadJpeg], [downloadPng],
    [downloadOdt], [downloadUnvalidated]) returns a [Blob] only when the
    download request succeeded and storage answered 2xx; the [Blob] then
    has the media type of the method and holds the body as
    [arrayBuffer()] gives it.  When the download request fails, the error
    is passed on and no progress call is made. *)
Theorem typed_download (type : string)
    (download : Outcome DownloadTarget -> (DownloadTarget -> DownloadFetch) ->
                Progress (Outcome Blob))
    (posted : Outcome DownloadTarget)
    (fetched : DownloadTarget -> DownloadFetch) :
  In (type, download) typed_downloads ->
  (forall blob calls,
      download posted fetched = (Return blob, calls) ->
      exists target response,
        posted = Return target /\ fetched target = Downloaded response /\
        ok response = true /\ blob_type blob = type /\
        arrayBuffer response = Return (blob_bytes blob)) /\
  (forall e, posted = Throw e -> download posted fetched = (Throw e, [])).
Proof.
  intros Hin.
  assert (Hdef : download = download_as type).
  { cbn in Hin.
    repeat (destruct Hin as [Hin | Hin];
            [injection Hin as <- <-; reflexivity|]).
    contradiction. }
  subst download. split.
  - intros blob calls. unfold download_as.
    destruct posted as [target|e]; [|discriminate].
    destruct (fetched target) as [response|] eqn:Ef; [|discriminate].
    destruct (ok response) eqn:Hok.
    + pose proof (downloadBinary_payload response Hok) as Hpayload.
      destruct (downloadBinary (Downloaded response)) as [[bytes|e] calls'];
        [|discriminate].
      intros H. injection H as <- _. exists target, response.
      cbn in Hpayload. now repeat split.
    + unfold downloadBinary. rewrite Hok. discriminate.
  - now intros e ->.
Qed.

End DownloadsMore.

(** ** More on the flows *)

Section FlowsMore.

Import Validation Flow FlowInputs.

Context {World : Type}.
Variable this : Flow.t World.

(** X17. [ocrPdfHandle] returns exactly when orientation, OCR and
    optimization succeed in that order, each fed the handle the step before
    gave; it then has made exactly these three calls.  When a step fails,
    the flow fails with that error and makes no further call. *)
Theorem ocrPdfHandle_steps (pdfHandle : Handle) (options : OcrPdfOptions.t)
    (s : State World) :
  (forall out s',
      ocrPdfHandle this pdfHandle options s = (Return out, s') <->
      exists oriented ocr optimized s1 s2,
        pdf_orientation this {| pdf_handle := pdfHandle |} s
        = (Return oriented, s1) /\
        pdf_ocrToPdf this {| pdf_handle := rotated_pdf_handle oriented |} s1
        = (Return ocr, s2) /\
        pdf_optimize this
          {| PdfOptimizeRequest.pdf_handle := pdf_handle ocr;
             PdfOptimizeRequest.image_dpi := None;
             PdfOptimizeRequest.image_quality := None;
             PdfOptimizeRequest.image_color := None |} s2
        = (Return optimized, s') /\
        out = pdf_handle optimized /\
        calls s'
        = calls s
          ++ [CallOrientation {| pdf_handle := pdfHandle |};
              CallPdfOcrToPdf {| pdf_handle := rotated_pdf_handle oriented |};
              CallOptimize
                {| PdfOptimizeRequest.pdf_handle := pdf_handle ocr;
                   PdfOptimizeRequest.image_dpi := None;
                   PdfOptimizeRequest.image_quality := None;
                   PdfOptimizeRequest.image_color := None |}]) /\
  (forall e s1,
      pdf_orientation this {| pdf_handle := pdfHandle |} s = (Throw e, s1) ->
      ocrPdfHandle this pdfHandle options s = (Throw e, s1) /\
      calls s1 = calls s ++ [CallOrientation {| pdf_handle := pdfHandle |}]) /\
  (forall oriented e s1 s2,
      pdf_orientation this {| pdf_handle := pdfHandle |} s
      = (Return oriented, s1) ->
      pdf_ocrToPdf this {| pdf_handle := rotated_pdf_handle oriented |} s1
      = (Throw e, s2) ->
      ocrPdfHandle this pdfHandle options s = (Throw e, s2) /\
      calls s2
      = calls s
        ++ [CallOrientation {| pdf_handle := pdfHandle |};
            CallPdfOcrToPdf {| pdf_handle := rotated_pdf_handle oriented |}]).
Proof.
  split; [|split].
  - intros out s'. split.
    + intros Hrun. unfold ocrPdfHandle in Hrun.
      apply bind_inv in Hrun as (oriented & s1 & H1 & Hrun).
      apply bind_inv in Hrun as (ocr & s2 & H2 & Hrun).
      apply bind_inv in Hrun as (optimized & s3 & H3 & Hrun).
      unfold ret in Hrun. injection Hrun as <- <-.
      exists oriented, ocr, optimized, s1, s2. repeat split; try assumption.
      rewrite (invoke_calls _ _ _ _ _ _ H3), (invoke_calls _ _ _ _ _ _ H2),
        (invoke_calls _ _ _ _ _ _ H1).
      now rewrite <- !app_assoc.
    + intros (oriented & ocr & optimized & s1 & s2 & H1 & H2 & H3 & -> & _).
      unfold ocrPdfHandle.
      rewrite (bind_returned _ _ _ _ _ H1). cbv zeta.
      rewrite (bind_returned _ _ _ _ _ H2). cbv zeta.
      unfold optimize_request.
      now rewrite (bind_returned _ _ _ _ _ H3).
  - intros e s1 H1. split.
    + unfold ocrPdfHandle. now rewrite (bind_thrown _ _ _ _ _ H1).
    + exact (invoke_calls _ _ _ _ _ _ H1).
  - intros oriented e s1 s2 H1 H2. split.
    + unfold ocrPdfHandle. rewrite (bind_returned _ _ _ _ _ H1). cbv zeta.
      now rewrite (bind_thrown _ _ _ _ _ H2).
    + rewrite (invoke_calls _ _ _ _ _ _ H2), (invoke_calls _ _ _ _ _ _ H1).
      now rewrite <- app_assoc.
Qed.

(** X18. [ocrPdf] uploads exactly the bytes it was given, then validates
    the uploaded handle with the caller's password; when the unwrapping of
    the validation result throws, the flow fails with that error after
    these two calls, and no processing step is attempted.  When the upload
    fails, nothing is validated. *)
Theorem ocrPdf_upload_and_validation (input : FlowInput)
    (options : OcrPdfOptions.t) (s : State World) :
  let file := toFile input "document.pdf" "application/pdf" in
  file_bytes file = input_bytes input /\
  (forall e s1,
      data_upload this file (OcrPdfOptions.onProgress options) s
      = (Throw e, s1) ->
      ocrPdf this input options s = (Throw e, s1) /\
      calls s1
      = calls s ++ [CallUpload file (OcrPdfOptions.onProgress options)]) /\
  (forall uploaded validated e s1 s2,
      data_upload this file (OcrPdfOptions.onProgress options) s
      = (Return uploaded, s1) ->
      pdf_validate this
        {| PdfValidateRequest.unvalidated_file_handle :=
             Data.unvalidated_file_handle uploaded;
           PdfValidateRequest.password := OcrPdfOptions.password options |} s1
      = (Return validated, s2) ->
      okPdf validated = Throw e ->
      ocrPdf this input options s = (Throw e, s2) /\
      calls s2
      = calls s
        ++ [CallUpload file (OcrPdfOptions.onProgress options);
            CallPdfValidate
              {| PdfValidateRequest.unvalidated_file_handle :=
                   Data.unvalidated_file_handle uploaded;
                 PdfValidateRequest.password :=
                   OcrPdfOptions.password options |}]).
Proof.
  cbv zeta. split; [now destruct input|]. split.
  - intros e s1 H1. split.
    + unfold ocrPdf. cbv zeta. now rewrite (bind_thrown _ _ _ _ _ H1).
    + exact (invoke_calls _ _ _ _ _ _ H1).
  - intros uploaded validated e s1 s2 H1 H2 Hok. split.
    + unfold ocrPdf. cbv zeta. rewrite (bind_returned _ _ _ _ _ H1).
      rewrite (bind_returned _ _ _ _ _ H2).
      unfold bind, lift. now rewrite Hok.
    + rewrite (invoke_calls _ _ _ _ _ _ H2), (invoke_calls _ _ _ _ _ _ H1).
      now rewrite <- app_assoc.
Qed.

Lemma each_map {A B C : Type} (f : B -> M World C) (g : A -> B) (l : list A)
    (s : State World) :
  each f (map g l) s = each (fun a => f (g a)) l s.
Proof.
  revert s. induction l as [|a l IH]; intros s; cbn [map each];
    [reflexivity|].
  apply bind_ext. intros b s1. apply bind_run, IH.
Qed.

(** X19. [ocrImgHandle] uses of the detection result only the list of
    quadrilaterals: every detected document is extracted, whatever its
    confidence. *)
Theorem ocrImgHandle_ignores_confidence (imgHandle : Handle)
    (options : OcrImgOptions.t) (s s1 : State World)
    (docs : ImgFindDocumentsResponse) :
  extraction_enabled options = true ->
  img_findDocuments this {| img_handle := imgHandle |} s = (Return docs, s1) ->
  ocrImgHandle this imgHandle options s
  = (extracted <-
       each
         (fun quadrilateral =>
            img_extractQuadrilateral this
              {| ImgExtractQuadrilateralRequest.img_handle := imgHandle;
                 ImgExtractQuadrilateralRequest.quadrilateral :=
                   quadrilateral |})
         (map ImgFindDocumentsQuadrilateral.quadrilateral (documents docs)) ;;
     convert_and_compose this
       (match map img_handle extracted with
        | [] => [imgHandle]
        | images => images
        end)
       (OcrImgOptions.pdfOptions options)) s1.
Proof.
  intros Hon Hfind.
  rewrite (ocrImgHandle_enabled this imgHandle options s s1 docs Hon Hfind).
  unfold extract_each. apply bind_run. symmetry.
  apply (each_map
           (fun quadrilateral =>
              img_extractQuadrilateral this
                {| ImgExtractQuadrilateralRequest.img_handle := imgHandle;
                   ImgExtractQuadrilateralRequest.quadrilateral :=
                     quadrilateral |})
           ImgFindDocumentsQuadrilateral.quadrilateral).
Qed.

(** Calls recorded by a traversal that stops at a failing element *)
Lemma each_calls_thrown {A Request Response : Type} (c : A -> Call)
    (endpoint : Endpoint World Request Response) (r : A -> Request)
    (l : list A) :
  forall s e s',
    each (fun a => invoke (c a) endpoint (r a)) l s = (Throw e, s') ->
    exists k, (1 <= k <= List.length l)%nat /\
              calls s' = calls s ++ map c (firstn k l).
Proof.
  induction l as [|a l IH]; intros s e s'; cbn [each].
  - unfold ret. discriminate.
  - unfold bind at 1.
    destruct (invoke (c a) endpoint (r a) s) as [[b|e0] s1] eqn:E1.
    + unfold bind at 1.
      match goal with
      | |- context [each ?f l s1] =>
          destruct (each f l s1) as [[bs|e1] s2] eqn:E2
      end; [unfold ret; discriminate|].
      intros H. injection H as <- <-.
      destruct (IH _ _ _ E2) as (k & Hk & Hcalls).
      exists (S k). split; [cbn; lia|].
      rewrite Hcalls, (invoke_calls _ _ _ _ _ _ E1). cbn.
      now rewrite <- app_assoc.
    + intros H. injection H as <- <-. exists 1%nat. split; [cbn; lia|].
      now rewrite (invoke_calls _ _ _ _ _ _ E1).
Qed.

(** X20. When the extraction of a detected document fails, [ocrImgHandle]
    fails with that error: the documents before it have been extracted, the
    ones after it are not, and no image is converted. *)
Theorem ocrImgHandle_extraction_fails (imgHandle : Handle)
    (options : OcrImgOptions.t) (s s1 s2 : State World)
    (docs : ImgFindDocumentsResponse) (e : Exception) :
  extraction_enabled options = true ->
  img_findDocuments this {| img_handle := imgHandle |} s = (Return docs, s1) ->
  extract_each this imgHandle (documents docs) s1 = (Throw e, s2) ->
  ocrImgHandle this imgHandle options s = (Throw e, s2) /\
  exists k,
    (1 <= k <= List.length (documents docs))%nat /\
    calls s2
    = calls s
      ++ CallFindDocuments {| img_handle := imgHandle |}
      :: map (fun doc =>
                CallExtractQuadrilateral
                  {| ImgExtractQuadrilateralRequest.img_handle := imgHandle;
                     ImgExtractQuadrilateralRequest.quadrilateral :=
                       ImgFindDocumentsQuadrilateral.quadrilateral doc |})
             (firstn k (documents docs)).
Proof.
  intros Hon Hfind Hextract. split.
  - rewrite (ocrImgHandle_enabled this imgHandle options s s1 docs Hon Hfind).
    now rewrite (bind_thrown _ _ _ _ _ Hextract).
  - unfold extract_each, img_extractQuadrilateral in Hextract.
    destruct (each_calls_thrown _ _ _ _ _ _ _ Hextract) as (k & Hk & Hcalls).
    exists k. split; [assumption|].
    rewrite Hcalls, (invoke_calls _ _ _ _ _ _ Hfind).
    now rewrite <- app_assoc.
Qed.

(** X21. [ocrImg] uploads exactly the bytes it was given, then validates
    the uploaded handle; when the unwrapping of the validation result
    throws, the flow fails with that error after these two calls: no
    detection, extraction or conversion is attempted.  When the upload
    fails, nothing is validated. *)
Theorem ocrImg_upload_and_validation (input : FlowInput)
    (options : OcrImgOptions.t) (s : State World) :
  let file := toFile input "image.jpg" "image/jpeg" in
  file_bytes file = input_bytes input /\
  (forall e s1,
      data_upload this file (OcrImgOptions.onProgress options) s
      = (Throw e, s1) ->
      ocrImg this input options s = (Throw e, s1) /\
      calls s1
      = calls s ++ [CallUpload file (OcrImgOptions.onProgress options)]) /\
  (forall uploaded validated e s1 s2,
      data_upload this file (OcrImgOptions.onProgress options) s
      = (Return uploaded, s1) ->
      img_validate this
        {| ImgValidateRequest.unvalidated_file_handle :=
             Data.unvalidated_file_handle uploaded |} s1
      = (Return validated, s2) ->
      okImg validated = Throw e ->
      ocrImg this input options s = (Throw e, s2) /\
      calls s2
      = calls s
        ++ [CallUpload file (OcrImgOptions.onProgress options);
            CallImgValidate
              {| ImgValidateRequest.unvalidated_file_handle :=
                   Data.unvalidated_file_handle uploaded |}]).
Proof.
  cbv zeta. split; [now destruct input|]. split.
  - intros e s1 H1. split.
    + unfold ocrImg. cbv zeta. now rewrite (bind_thrown _ _ _ _ _ H1).
    + exact (invoke_calls _ _ _ _ _ _ H1).
  - intros uploaded validated e s1 s2 H1 H2 Hok. split.
    + unfold ocrImg. cbv zeta. rewrite (bind_returned _ _ _ _ _ H1).
      rewrite (bind_returned _ _ _ _ _ H2).
      unfold bind, lift. now rewrite Hok.
    + rewrite (invoke_calls _ _ _ _ _ _ H2), (invoke_calls _ _ _ _ _ _ H1).
      now rewrite <- app_assoc.
Qed.

End FlowsMore.

(** ** Examples for the further properties *)

Section MoreExamples.

Import Validation Fetch Data Flow Samples MoreSamples.
Local Open Scope string_scope.

Lemma collectEmailHandles_inside_witness :
  Email.inside outer_mail forwarded_mail.
Proof.
  apply (proj1 (proj2 (collectEmailHandles_inside outer_mail) forwarded_mail)).
  right. left. reflexivity.
Defined.

Lemma collectPdfHandles_by_email_witness :
  exists email attachment,
    Email.inside outer_mail email /\
    In attachment (Email.attachments email) /\
    In "pdf-2" (Email.pdf_of attachment).
Proof.
  apply (proj1 (proj2 (collectPdfHandles_by_email outer_mail) "pdf-2")).
  right. left. reflexivity.
Defined.

Lemma collectImgHandles_by_email_witness :
  exists email attachment,
    Email.inside outer_mail email /\
    In attachment (Email.attachments email) /\
    In "img-1" (Email.img_of attachment).
Proof.
  apply (proj1 (proj2 (collectImgHandles_by_email outer_mail) "img-1")).
  left. reflexivity.
Defined.

Lemma collectUnvalidatedFileHandles_attachments_witness :
  List.length (Email.collectUnvalidatedFileHandles outer_mail) = 6%nat /\
  Email.collectUnvalidatedFileHandles (Email.with_bodies outer_mail None None)
  = ["o-1"; "o-2"; "f-1"; "f-2"; "o-3"; "o-4"].
Proof.
  split.
  - exact (proj1 (proj2 (collectUnvalidatedFileHandles_attachments
                           outer_mail))).
  - exact (proj2 (proj2 (collectUnvalidatedFileHandles_attachments outer_mail))
             None None).
Defined.

Lemma fromUnsorted_order_independent_witness :
  Img.fromUnsorted four_points = Img.fromUnsorted (rev four_points).
Proof.
  apply fromUnsorted_order_independent.
  - intros a b Ha Hb Hy. cbn in Ha, Hb.
    repeat (destruct Ha as [<- | Ha]; [|]);
      repeat (destruct Hb as [<- | Hb]; [|]);
      try contradiction; try reflexivity;
      unfold Qeq in Hy; cbn in Hy; lia.
  - apply Permutation_rev.
Defined.

Lemma fromUnsorted_schema_witness :
  exists q,
    Img.fromUnsorted four_points = Return q /\
    Forall Img.RelativePositionSchema (Img.corners q) /\
    Img.QuadrilateralSchema_refine q /\
    (Img.y (Img.top_left q) <= Img.y (Img.bottom_right q))%Q /\
    (Img.y (Img.top_right q) <= Img.y (Img.bottom_left q))%Q.
Proof.
  apply fromUnsorted_schema.
  - reflexivity.
  - repeat constructor; unfold Qle; cbn; lia.
Defined.

Lemma new_FetchWrapper_trailing_slash_witness :
  Urls.url (Urls.new_FetchWrapper "jwt" "https://api.example/v1")
    "/img/validate"
  = "https://api.example/v1/img/validate".
Proof.
  apply (proj1 (proj2 (new_FetchWrapper_trailing_slash
                         "jwt" "https://api.example/v1" "/img/validate"))).
  reflexivity.
Defined.

Lemma Path_endpoints_witness :
  Urls.webview "https://api.example/v1" "status"
  = "https://api.example/v1/webview/status".
Proof.
  assert (Hbase : "https://api.example/v1" <> "") by discriminate.
  assert (Hep : "status" <> "") by discriminate.
  exact (proj1 (proj2 (proj2 (proj2 (proj2
           (Path_endpoints "https://api.example/v1" "status" Hbase)))) Hep)).
Defined.

Lemma pollResult_requests_witness :
  exists result n,
    pollResult TaskCreatedResponseSchema two_pending_then_ready 121
    = Some (result, n) /\
    (1 <= n <= 121)%nat /\
    (forall i, (S i < n)%nat -> responds_202 two_pending_then_ready i) /\
    (forall out, result = Return out ->
       exists res data,
         two_pending_then_ready (n - 1)%nat = Responded res /\
         Fetch.status res = 200 /\
         json res = Some data /\
         TaskCreatedResponseSchema data = Some out) /\
    ((forall i, (i < 121)%nat -> responds_202 two_pending_then_ready i) ->
     result = Throw PollTimeoutError /\ n = 121%nat).
Proof.
  apply (pollResult_requests TaskCreatedResponseSchema two_pending_then_ready
           121).
  lia.
Defined.

Lemma pollResult_no_retry_on_failure_witness :
  pollResult TaskCreatedResponseSchema pending_then_dropped 121
  = Some (Throw TypeError, 2%nat).
Proof.
  assert (Hfuel : (MAX_RETRIES < 121)%nat) by (unfold MAX_RETRIES; lia).
  assert (Hk : (1 <= MAX_RETRIES)%nat) by (unfold MAX_RETRIES; lia).
  apply (proj1 (pollResult_no_retry_on_failure TaskCreatedResponseSchema
                  pending_then_dropped 121 1 Hfuel Hk
                  ltac:(intros i Hi; assert (i = 0%nat) as -> by lia;
                        eexists; split; reflexivity))).
  reflexivity.
Defined.

Lemma request_outcomes_witness :
  exists res data,
    Responded {| Fetch.status := 201; statusText := "Created";
                 json := Some (JObject [("job_id", JString "job-7")]) |}
    = Responded res /\
    (Fetch.status res = 200 \/ Fetch.status res = 201) /\
    json res = Some data /\
    TaskCreatedResponseSchema data = Some {| job_id := "job-7" |}.
Proof.
  apply (proj1 (request_outcomes TaskCreatedResponseSchema _)).
  reflexivity.
Defined.

Lemma downloadBinary_payload_witness :
  fst (downloadBinary (Downloaded whole_download)) = arrayBuffer whole_download.
Proof. apply downloadBinary_payload. reflexivity. Defined.

Lemma downloadBinary_failures_witness :
  downloadBinary (Downloaded broken_download)
  = (Throw TypeError,
     [(2345624805922133 # 70368744177664)%Q;
      (2345624805922133 # 35184372088832)%Q]).
Proof.
  assert (Htotal : Number.isSafeInteger 3)
    by (unfold Number.isSafeInteger, Number.MAX_SAFE_INTEGER; lia).
  assert (Hbytes : Number.isSafeInteger 2)
    by (unfold Number.isSafeInteger, Number.MAX_SAFE_INTEGER; lia).
  destruct (proj2 (downloadBinary_failures broken_download) 3
              [[Byte.x01]; [Byte.x02]] []
              eq_refl eq_refl eq_refl) as (Hfails & _ & Hcalls).
  apply injective_projections; [exact Hfails | exact (Hcalls Htotal Hbytes)].
Defined.

Lemma upload_fallback_witness :
  snd (upload 4 refused_upload) = [100%Q] /\
  fst (upload 4 refused_upload) <> Some (Return upload_target).
Proof.
  assert (Hsize : 0 < 4) by lia.
  pose proof (proj2 (proj2 (upload_fallback 4 refused_upload eq_refl))
                upload_target Hsize eq_refl) as [Hcalls Hiff].
  split; [exact Hcalls|].
  intros H. apply (proj1 Hiff) in H as (res & Hres & Hs).
  injection Hres as <-. cbn in Hs. lia.
Defined.

Lemma typed_download_witness :
  Downloads.downloadPdf (Throw server_error)
    (fun _ => Downloaded whole_download)
  = (Throw server_error, []).
Proof.
  apply (proj2 (typed_download "application/pdf" Downloads.downloadPdf
                  (Throw server_error) (fun _ => Downloaded whole_download)
                  ltac:(left; reflexivity))).
  reflexivity.
Defined.

Lemma ocrPdfHandle_steps_witness :
  ocrPdfHandle (numbering_service (Return two_documents)) "pdf" pdf_options
    fresh
  = (Return "optimized-2",
     {| world := 3%nat;
        calls := [CallOrientation {| pdf_handle := "pdf" |};
                  CallPdfOcrToPdf {| pdf_handle := "oriented-0" |};
                  CallOptimize
                    {| PdfOptimizeRequest.pdf_handle := "ocr-1";
                       PdfOptimizeRequest.image_dpi := None;
                       PdfOptimizeRequest.image_quality := None;
                       PdfOptimizeRequest.image_color := None |}] |}).
Proof.
  apply (proj2 (proj1 (ocrPdfHandle_steps
                         (numbering_service (Return two_documents))
                         "pdf" pdf_options fresh) _ _)).
  exists {| orientations := []; rotated_pdf_handle := "oriented-0" |},
         {| pdf_handle := "ocr-1" |}, {| pdf_handle := "optimized-2" |},
         {| world := 1%nat;
            calls := [CallOrientation {| pdf_handle := "pdf" |}] |},
         {| world := 2%nat;
            calls := [CallOrientation {| pdf_handle := "pdf" |};
                      CallPdfOcrToPdf {| pdf_handle := "oriented-0" |}] |}.
  repeat split.
Defined.

Lemma ocrPdf_upload_and_validation_witness :
  ocrPdf (with_pdf_validation (ValidateResponseVirus "EICAR")
            (numbering_service (Return two_documents)))
    raw_input pdf_options fresh
  = (Throw (ValidationVirusException "EICAR"),
     {| world := 2%nat;
        calls :=
          [CallUpload (toFile raw_input "document.pdf" "application/pdf") None;
           CallPdfValidate
             {| PdfValidateRequest.unvalidated_file_handle := "raw-0";
                PdfValidateRequest.password := Some "secret" |}] |}).
Proof.
  apply (proj1 (proj2 (proj2 (ocrPdf_upload_and_validation
                  (with_pdf_validation (ValidateResponseVirus "EICAR")
                     (numbering_service (Return two_documents)))
                  raw_input pdf_options fresh))
           {| Data.post_url := "https://storage.example/upload";
              Data.post_header := [];
              Data.unvalidated_file_handle := "raw-0" |}
           {| response := ValidateResponseVirus "EICAR" |}
           (ValidationVirusException "EICAR")
           {| world := 1%nat;
              calls := [CallUpload
                          (toFile raw_input "document.pdf" "application/pdf")
                          None] |}
           _ eq_refl eq_refl eq_refl)).
Defined.

Lemma ocrImgHandle_ignores_confidence_witness :
  ocrImgHandle (numbering_service (Return two_documents))
    "photo" default_options fresh
  = (extracted <-
       each
         (fun quadrilateral =>
            img_extractQuadrilateral (numbering_service (Return two_documents))
              {| ImgExtractQuadrilateralRequest.img_handle := "photo";
                 ImgExtractQuadrilateralRequest.quadrilateral :=
                   quadrilateral |})
         [left_half; unit_square] ;;
     convert_and_compose (numbering_service (Return two_documents))
       (match map img_handle extracted with
        | [] => ["photo"]
        | images => images
        end)
       None)
      {| world := 1%nat;
         calls := [CallFindDocuments {| img_handle := "photo" |}] |}.
Proof.
  apply (ocrImgHandle_ignores_confidence
           (numbering_service (Return two_documents))
           "photo" default_options fresh _ two_documents).
  - reflexivity.
  - reflexivity.
Defined.

Lemma ocrImgHandle_extraction_fails_witness :
  ocrImgHandle (with_failing_extraction 2
                  (numbering_service (Return two_documents)))
    "photo" default_options fresh
  = (Throw server_error,
     {| world := 3%nat;
        calls :=
          [ CallFindDocuments {| img_handle := "photo" |};
            CallExtractQuadrilateral
              {| ImgExtractQuadrilateralRequest.img_handle := "photo";
                 ImgExtractQuadrilateralRequest.quadrilateral := left_half |};
            CallExtractQuadrilateral
              {| ImgExtractQuadrilateralRequest.img_handle := "photo";
                 ImgExtractQuadrilateralRequest.quadrilateral := unit_square |}
          ] |}).
Proof.
  apply (proj1 (ocrImgHandle_extraction_fails
                  (with_failing_extraction 2
                     (numbering_service (Return two_documents)))
                  "photo" default_options fresh
                  {| world := 1%nat;
                     calls := [CallFindDocuments {| img_handle := "photo" |}] |}
                  _ two_documents server_error eq_refl eq_refl eq_refl)).
Defined.

Lemma ocrImg_upload_and_validation_witness :
  ocrImg (with_img_validation (ValidateResponseError "not an image")
            (numbering_service (Return two_documents)))
    raw_input default_options fresh
  = (Throw (ValidationErrorException "not an image"),
     {| world := 2%nat;
        calls :=
          [CallUpload (toFile raw_input "image.jpg" "image/jpeg") None;
           CallImgValidate
             {| ImgValidateRequest.unvalidated_file_handle := "raw-0" |}] |}).
Proof.
  apply (proj1 (proj2 (proj2 (ocrImg_upload_and_validation
                  (with_img_validation (ValidateResponseError "not an image")
                     (numbering_service (Return two_documents)))
                  raw_input default_options fresh))
           {| Data.post_url := "https://storage.example/upload";
              Data.post_header := [];
              Data.unvalidated_file_handle := "raw-0" |}
           {| response := ValidateResponseError "not an image" |}
           (ValidationErrorException "not an image")
           {| world := 1%nat;
              calls := [CallUpload (toFile raw_input "image.jpg" "image/jpeg")
                          None] |}
           _ eq_refl eq_refl eq_refl)).
Defined.

End MoreExamples.
